(** * sensors-c++: path resolution, handle lifecycle and classification

    A shallow embedding of the sensors-c++ wrapper around libsensors
    (the library source with [load_config], [get_detected_chips] and the
    [find] helpers, and the two public headers).

    Layout of the development:
    - [Str]: the few [std::string] operations the library uses;
    - [fs]: [std::filesystem::path] decomposition (POSIX, generic format);
    - native records, the classification enums and the three [type()]
      switches;
    - the boundary (libsensors, stdio) as a record of functions, the global
      state, and a state-and-exception monad;
    - the handle lifecycle ([libsensors_handle], [get_handle],
      [load_config]);
    - the cursor loops and the [find] functions;
    - the reference-counted handle box ([_sensors_impl]);
    - the properties. *)

From Stdlib Require Import String Ascii List ZArith Lia Bool Arith.
From Equations Require Import Equations.
From stdpp Require Import base gmap.
Import ListNotations.
Local Open Scope string_scope.

(** ** Strings *)

Module Str.

(** [s.empty()] *)
Definition empty (s : string) : bool :=
  match s with EmptyString => true | String _ _ => false end.

(** [s.rfind(c)]: index of the last occurrence of the character [c];
    [None] stands for [std::string::npos]. *)
Fixpoint rfind (c : ascii) (s : string) : option nat :=
  match s with
  | EmptyString => None
  | String a s' =>
      match rfind c s' with
      | Some i => Some (S i)
      | None => if Ascii.eqb a c then Some 0 else None
      end
  end.

(** [s.substr(pos, len)] (for [pos <= s.size()]). *)
Definition substr (pos len : nat) (s : string) : string :=
  String.substring pos len s.

(** [s.rfind(pat, 0)]: the search may only start at index 0, so the
    result is 0 when [pat] is a prefix of [s] and [npos] otherwise. *)
Definition rfind_at0 (s pat : string) : option nat :=
  if String.prefix pat s then Some 0 else None.

(** Does [c] occur in [s]? *)
Fixpoint contains (c : ascii) (s : string) : bool :=
  match s with
  | EmptyString => false
  | String a s' => Ascii.eqb a c || contains c s'
  end.

(** [std::string(n, c)]: [n] copies of [c]. *)
Fixpoint fill (n : nat) (c : ascii) : string :=
  match n with
  | 0 => EmptyString
  | S n' => String c (fill n' c)
  end.

End Str.

(** ** [std::filesystem::path] on POSIX

    The library only uses [filename()], [has_filename()] and
    [parent_path()], on paths in the generic format with ["/"] as the
    only separator and no root name. *)

Module fs.

Definition sep : ascii := "/"%char.

(** [filename()]: the text after the last separator; the whole path
    when there is none. *)
Definition filename (p : string) : string :=
  match Str.rfind sep p with
  | Some i => Str.substr (S i) (String.length p - S i) p
  | None => p
  end.

Definition has_filename (p : string) : bool :=
  negb (Str.empty (filename p)).

(** [has_relative_path()]: something besides the root directory. *)
Fixpoint has_relative_path (p : string) : bool :=
  match p with
  | EmptyString => false
  | String a p' => negb (Ascii.eqb a sep) || has_relative_path p'
  end.

(** Drop trailing separators. *)
Fixpoint rstrip_sep (p : string) : string :=
  match p with
  | EmptyString => EmptyString
  | String a p' =>
      let r := rstrip_sep p' in
      if Str.empty r && Ascii.eqb a sep then EmptyString else String a r
  end.

(** [parent_path()]: the path itself when it has no relative part;
    otherwise the prefix ending with the last-but-one component
    (the root directory ["/"] when that component is the root). *)
Definition parent_path (p : string) : string :=
  if negb (has_relative_path p) then p
  else match Str.rfind sep p with
       | None => EmptyString
       | Some i =>
           let d := rstrip_sep (Str.substr 0 i p) in
           if Str.empty d then "/" else d
       end.

End fs.

(** ** Native records (libsensors) *)

Record sensors_bus_id := {
  bus_type_code : Z;
  bus_nr : Z
}.

Record sensors_chip_name := {
  chip_prefix : string;
  chip_bus : sensors_bus_id;
  chip_addr : Z;
  chip_path : string
}.

Record sensors_feature := {
  feat_name : string;
  feat_number : Z;
  feat_type : Z
}.

Record sensors_subfeature := {
  sub_name : string;
  sub_number : Z;
  sub_type : Z;
  sub_flags : Z
}.

(** ** Classification enums (sensors.h of the wrapper) *)

Inductive bus_type :=
| bus_any | bus_i2c | bus_isa | bus_pci | bus_spi | bus_virt | bus_acpi
| bus_hid | bus_mdio | bus_scsi.

Inductive feature_type :=
| ft_in | ft_fan | ft_temp | ft_power | ft_energy | ft_current
| ft_humidity | ft_vid | ft_intrusion | ft_beep | ft_unknown.

Inductive subfeature_type :=
| st_input | st_input_lowest | st_input_highest | st_cap | st_cap_hyst
| st_cap_alarm | st_min | st_min_hyst | st_min_alarm | st_max | st_max_hyst
| st_max_alarm | st_average | st_lowest | st_highest | st_average_lowest
| st_average_highest | st_average_interval | st_crit | st_crit_hyst
| st_crit_alarm | st_l_crit | st_l_crit_hyst | st_l_crit_alarm | st_alarm
| st_fault | st_emergency | st_emergency_hyst | st_emergency_alarm | st_type
| st_offset | st_div | st_beep | st_pulses | st_vid | st_enable | st_unknown.

Scheme Equality for subfeature_type.

(** The identifier of each enumerator, as the header spells it. *)
Definition bus_type_name (b : bus_type) : string :=
  match b with
  | bus_any => "any" | bus_i2c => "i2c" | bus_isa => "isa" | bus_pci => "pci"
  | bus_spi => "spi" | bus_virt => "virt" | bus_acpi => "acpi"
  | bus_hid => "hid" | bus_mdio => "mdio" | bus_scsi => "scsi"
  end.

Definition all_bus_types : list bus_type :=
  [bus_any; bus_i2c; bus_isa; bus_pci; bus_spi; bus_virt; bus_acpi; bus_hid;
   bus_mdio; bus_scsi].

Definition feature_type_name (t : feature_type) : string :=
  match t with
  | ft_in => "in" | ft_fan => "fan" | ft_temp => "temp" | ft_power => "power"
  | ft_energy => "energy" | ft_current => "current"
  | ft_humidity => "humidity" | ft_vid => "vid"
  | ft_intrusion => "intrusion" | ft_beep => "beep" | ft_unknown => "unknown"
  end.

(** ** Native type codes

    The macros and enumerators of libsensors' own header are not part of
    the wrapper.  Their names are the constructors below; their integer
    values are a parameter ([native_codes]) of everything that switches
    on them. *)

Inductive sensors_bus_const :=
| SENSORS_BUS_TYPE_ANY | SENSORS_BUS_TYPE_I2C | SENSORS_BUS_TYPE_ISA
| SENSORS_BUS_TYPE_PCI | SENSORS_BUS_TYPE_SPI | SENSORS_BUS_TYPE_VIRTUAL
| SENSORS_BUS_TYPE_ACPI | SENSORS_BUS_TYPE_HID | SENSORS_BUS_TYPE_MDIO
| SENSORS_BUS_TYPE_SCSI.

Inductive sensors_feature_const :=
| SENSORS_FEATURE_IN | SENSORS_FEATURE_FAN | SENSORS_FEATURE_TEMP
| SENSORS_FEATURE_POWER | SENSORS_FEATURE_ENERGY | SENSORS_FEATURE_CURR
| SENSORS_FEATURE_HUMIDITY | SENSORS_FEATURE_VID | SENSORS_FEATURE_INTRUSION
| SENSORS_FEATURE_BEEP_ENABLE | SENSORS_FEATURE_UNKNOWN.

Inductive sensors_subfeature_const :=
| SENSORS_SUBFEATURE_IN_INPUT | SENSORS_SUBFEATURE_IN_MIN
| SENSORS_SUBFEATURE_IN_MAX | SENSORS_SUBFEATURE_IN_LCRIT
| SENSORS_SUBFEATURE_IN_CRIT | SENSORS_SUBFEATURE_IN_AVERAGE
| SENSORS_SUBFEATURE_IN_LOWEST | SENSORS_SUBFEATURE_IN_HIGHEST
| SENSORS_SUBFEATURE_IN_ALARM | SENSORS_SUBFEATURE_IN_MIN_ALARM
| SENSORS_SUBFEATURE_IN_MAX_ALARM | SENSORS_SUBFEATURE_IN_BEEP
| SENSORS_SUBFEATURE_IN_LCRIT_ALARM | SENSORS_SUBFEATURE_IN_CRIT_ALARM
| SENSORS_SUBFEATURE_FAN_INPUT | SENSORS_SUBFEATURE_FAN_MIN
| SENSORS_SUBFEATURE_FAN_MAX | SENSORS_SUBFEATURE_FAN_ALARM
| SENSORS_SUBFEATURE_FAN_FAULT | SENSORS_SUBFEATURE_FAN_DIV
| SENSORS_SUBFEATURE_FAN_BEEP | SENSORS_SUBFEATURE_FAN_PULSES
| SENSORS_SUBFEATURE_FAN_MIN_ALARM | SENSORS_SUBFEATURE_FAN_MAX_ALARM
| SENSORS_SUBFEATURE_TEMP_INPUT | SENSORS_SUBFEATURE_TEMP_MAX
| SENSORS_SUBFEATURE_TEMP_MAX_HYST | SENSORS_SUBFEATURE_TEMP_MIN
| SENSORS_SUBFEATURE_TEMP_CRIT | SENSORS_SUBFEATURE_TEMP_CRIT_HYST
| SENSORS_SUBFEATURE_TEMP_LCRIT | SENSORS_SUBFEATURE_TEMP_EMERGENCY
| SENSORS_SUBFEATURE_TEMP_EMERGENCY_HYST | SENSORS_SUBFEATURE_TEMP_LOWEST
| SENSORS_SUBFEATURE_TEMP_HIGHEST | SENSORS_SUBFEATURE_TEMP_MIN_HYST
| SENSORS_SUBFEATURE_TEMP_LCRIT_HYST | SENSORS_SUBFEATURE_TEMP_ALARM
| SENSORS_SUBFEATURE_TEMP_MAX_ALARM | SENSORS_SUBFEATURE_TEMP_MIN_ALARM
| SENSORS_SUBFEATURE_TEMP_CRIT_ALARM | SENSORS_SUBFEATURE_TEMP_FAULT
| SENSORS_SUBFEATURE_TEMP_TYPE | SENSORS_SUBFEATURE_TEMP_OFFSET
| SENSORS_SUBFEATURE_TEMP_BEEP | SENSORS_SUBFEATURE_TEMP_EMERGENCY_ALARM
| SENSORS_SUBFEATURE_TEMP_LCRIT_ALARM
| SENSORS_SUBFEATURE_POWER_AVERAGE | SENSORS_SUBFEATURE_POWER_AVERAGE_HIGHEST
| SENSORS_SUBFEATURE_POWER_AVERAGE_LOWEST | SENSORS_SUBFEATURE_POWER_INPUT
| SENSORS_SUBFEATURE_POWER_INPUT_HIGHEST | SENSORS_SUBFEATURE_POWER_INPUT_LOWEST
| SENSORS_SUBFEATURE_POWER_CAP | SENSORS_SUBFEATURE_POWER_CAP_HYST
| SENSORS_SUBFEATURE_POWER_MAX | SENSORS_SUBFEATURE_POWER_CRIT
| SENSORS_SUBFEATURE_POWER_MIN | SENSORS_SUBFEATURE_POWER_LCRIT
| SENSORS_SUBFEATURE_POWER_AVERAGE_INTERVAL | SENSORS_SUBFEATURE_POWER_ALARM
| SENSORS_SUBFEATURE_POWER_CAP_ALARM | SENSORS_SUBFEATURE_POWER_MAX_ALARM
| SENSORS_SUBFEATURE_POWER_CRIT_ALARM | SENSORS_SUBFEATURE_POWER_MIN_ALARM
| SENSORS_SUBFEATURE_POWER_LCRIT_ALARM
| SENSORS_SUBFEATURE_ENERGY_INPUT
| SENSORS_SUBFEATURE_CURR_INPUT | SENSORS_SUBFEATURE_CURR_MIN
| SENSORS_SUBFEATURE_CURR_MAX | SENSORS_SUBFEATURE_CURR_LCRIT
| SENSORS_SUBFEATURE_CURR_CRIT | SENSORS_SUBFEATURE_CURR_AVERAGE
| SENSORS_SUBFEATURE_CURR_LOWEST | SENSORS_SUBFEATURE_CURR_HIGHEST
| SENSORS_SUBFEATURE_CURR_ALARM | SENSORS_SUBFEATURE_CURR_MIN_ALARM
| SENSORS_SUBFEATURE_CURR_MAX_ALARM | SENSORS_SUBFEATURE_CURR_BEEP
| SENSORS_SUBFEATURE_CURR_LCRIT_ALARM | SENSORS_SUBFEATURE_CURR_CRIT_ALARM
| SENSORS_SUBFEATURE_HUMIDITY_INPUT
| SENSORS_SUBFEATURE_VID
| SENSORS_SUBFEATURE_INTRUSION_ALARM | SENSORS_SUBFEATURE_INTRUSION_BEEP
| SENSORS_SUBFEATURE_BEEP_ENABLE
| SENSORS_SUBFEATURE_UNKNOWN.

Record native_codes := {
  bus_code : sensors_bus_const -> Z;
  feature_code : sensors_feature_const -> Z;
  subfeature_code : sensors_subfeature_const -> Z
}.

(** ** [switch] statements

    A C++ [switch] over an integer: groups of [case] labels, each group
    with the value its body returns, and the value of [default]. *)

Section Switch.
Context {K R : Type}.
Variable code : K -> Z.

Definition case_matches (v : Z) (labels : list K) : bool :=
  existsb (fun k => Z.eqb (code k) v) labels.

Definition switch (cases : list (list K * R)) (default : R) (v : Z) : R :=
  match find (fun c => case_matches v (fst c)) cases with
  | Some c => snd c
  | None => default
  end.

(** The labels a [switch] recognises. *)
Definition switch_labels (cases : list (list K * R)) : list K :=
  concat (map fst cases).

(** [v] is the value of one of the labels. *)
Definition recognised (cases : list (list K * R)) (v : Z) : Prop :=
  exists k, In k (switch_labels cases) /\ code k = v.
End Switch.

(** ** The [type()] accessors *)

Section TypeAccessors.
Variable N : native_codes.

Definition bus_type_cases : list (list sensors_bus_const * bus_type) :=
  [ ([SENSORS_BUS_TYPE_I2C], bus_i2c);
    ([SENSORS_BUS_TYPE_ISA], bus_isa);
    ([SENSORS_BUS_TYPE_PCI], bus_pci);
    ([SENSORS_BUS_TYPE_SPI], bus_spi);
    ([SENSORS_BUS_TYPE_VIRTUAL], bus_virt);
    ([SENSORS_BUS_TYPE_ACPI], bus_acpi);
    ([SENSORS_BUS_TYPE_HID], bus_hid);
    ([SENSORS_BUS_TYPE_MDIO], bus_mdio);
    ([SENSORS_BUS_TYPE_SCSI], bus_scsi) ].

(** [bus_id::type()] *)
Definition bus_id_type (b : sensors_bus_id) : bus_type :=
  switch (bus_code N) bus_type_cases bus_any (bus_type_code b).

Definition feature_type_cases
  : list (list sensors_feature_const * feature_type) :=
  [ ([SENSORS_FEATURE_IN], ft_in);
    ([SENSORS_FEATURE_FAN], ft_fan);
    ([SENSORS_FEATURE_TEMP], ft_temp);
    ([SENSORS_FEATURE_POWER], ft_power);
    ([SENSORS_FEATURE_ENERGY], ft_energy);
    ([SENSORS_FEATURE_CURR], ft_current);
    ([SENSORS_FEATURE_HUMIDITY], ft_humidity);
    ([SENSORS_FEATURE_VID], ft_vid);
    ([SENSORS_FEATURE_INTRUSION], ft_intrusion);
    ([SENSORS_FEATURE_BEEP_ENABLE], ft_beep) ].

(** [feature::type()] *)
Definition feature_type_of (f : sensors_feature) : feature_type :=
  switch (feature_code N) feature_type_cases ft_unknown (feat_type f).

Definition subfeature_type_cases
  : list (list sensors_subfeature_const * subfeature_type) :=
  [ ([SENSORS_SUBFEATURE_IN_INPUT; SENSORS_SUBFEATURE_FAN_INPUT;
      SENSORS_SUBFEATURE_TEMP_INPUT; SENSORS_SUBFEATURE_POWER_INPUT;
      SENSORS_SUBFEATURE_ENERGY_INPUT; SENSORS_SUBFEATURE_CURR_INPUT;
      SENSORS_SUBFEATURE_HUMIDITY_INPUT], st_input);
    ([SENSORS_SUBFEATURE_POWER_INPUT_LOWEST], st_input_lowest);
    ([SENSORS_SUBFEATURE_POWER_INPUT_HIGHEST], st_input_highest);
    ([SENSORS_SUBFEATURE_POWER_CAP], st_cap);
    ([SENSORS_SUBFEATURE_POWER_CAP_ALARM], st_cap_alarm);
    ([SENSORS_SUBFEATURE_POWER_CAP_HYST], st_cap_hyst);
    ([SENSORS_SUBFEATURE_IN_MIN; SENSORS_SUBFEATURE_FAN_MIN;
      SENSORS_SUBFEATURE_TEMP_MIN; SENSORS_SUBFEATURE_POWER_MIN;
      SENSORS_SUBFEATURE_CURR_MIN], st_min);
    ([SENSORS_SUBFEATURE_IN_MIN_ALARM; SENSORS_SUBFEATURE_FAN_MIN_ALARM;
      SENSORS_SUBFEATURE_TEMP_MIN_ALARM; SENSORS_SUBFEATURE_POWER_MIN_ALARM;
      SENSORS_SUBFEATURE_CURR_MIN_ALARM], st_min_alarm);
    ([SENSORS_SUBFEATURE_TEMP_MIN_HYST], st_min_hyst);
    ([SENSORS_SUBFEATURE_IN_MAX; SENSORS_SUBFEATURE_FAN_MAX;
      SENSORS_SUBFEATURE_TEMP_MAX; SENSORS_SUBFEATURE_POWER_MAX;
      SENSORS_SUBFEATURE_CURR_MAX], st_max);
    ([SENSORS_SUBFEATURE_IN_MAX_ALARM; SENSORS_SUBFEATURE_FAN_MAX_ALARM;
      SENSORS_SUBFEATURE_TEMP_MAX_ALARM; SENSORS_SUBFEATURE_POWER_MAX_ALARM;
      SENSORS_SUBFEATURE_CURR_MAX_ALARM], st_max_alarm);
    ([SENSORS_SUBFEATURE_TEMP_MAX_HYST], st_max_hyst);
    ([SENSORS_SUBFEATURE_IN_LOWEST; SENSORS_SUBFEATURE_TEMP_LOWEST;
      SENSORS_SUBFEATURE_CURR_LOWEST], st_lowest);
    ([SENSORS_SUBFEATURE_IN_HIGHEST; SENSORS_SUBFEATURE_TEMP_HIGHEST;
      SENSORS_SUBFEATURE_CURR_HIGHEST], st_highest);
    ([SENSORS_SUBFEATURE_IN_AVERAGE; SENSORS_SUBFEATURE_POWER_AVERAGE;
      SENSORS_SUBFEATURE_CURR_AVERAGE], st_average);
    ([SENSORS_SUBFEATURE_POWER_AVERAGE_LOWEST], st_average_lowest);
    ([SENSORS_SUBFEATURE_POWER_AVERAGE_HIGHEST], st_average_highest);
    ([SENSORS_SUBFEATURE_POWER_AVERAGE_INTERVAL], st_average_interval);
    ([SENSORS_SUBFEATURE_IN_LCRIT; SENSORS_SUBFEATURE_TEMP_LCRIT;
      SENSORS_SUBFEATURE_POWER_LCRIT; SENSORS_SUBFEATURE_CURR_LCRIT],
     st_l_crit);
    ([SENSORS_SUBFEATURE_IN_LCRIT_ALARM; SENSORS_SUBFEATURE_TEMP_LCRIT_ALARM;
      SENSORS_SUBFEATURE_POWER_LCRIT_ALARM;
      SENSORS_SUBFEATURE_CURR_LCRIT_ALARM], st_l_crit_alarm);
    ([SENSORS_SUBFEATURE_TEMP_LCRIT_HYST], st_l_crit_hyst);
    ([SENSORS_SUBFEATURE_IN_CRIT; SENSORS_SUBFEATURE_TEMP_CRIT;
      SENSORS_SUBFEATURE_POWER_CRIT; SENSORS_SUBFEATURE_CURR_CRIT], st_crit);
    ([SENSORS_SUBFEATURE_IN_CRIT_ALARM; SENSORS_SUBFEATURE_TEMP_CRIT_ALARM;
      SENSORS_SUBFEATURE_POWER_CRIT_ALARM;
      SENSORS_SUBFEATURE_CURR_CRIT_ALARM], st_crit_alarm);
    ([SENSORS_SUBFEATURE_TEMP_CRIT_HYST], st_crit_hyst);
    ([SENSORS_SUBFEATURE_IN_BEEP; SENSORS_SUBFEATURE_FAN_BEEP;
      SENSORS_SUBFEATURE_TEMP_BEEP; SENSORS_SUBFEATURE_CURR_BEEP;
      SENSORS_SUBFEATURE_INTRUSION_BEEP], st_beep);
    ([SENSORS_SUBFEATURE_FAN_DIV], st_div);
    ([SENSORS_SUBFEATURE_FAN_PULSES], st_pulses);
    ([SENSORS_SUBFEATURE_BEEP_ENABLE], st_enable);
    ([SENSORS_SUBFEATURE_TEMP_TYPE], st_type);
    ([SENSORS_SUBFEATURE_TEMP_OFFSET], st_offset);
    ([SENSORS_SUBFEATURE_VID], st_vid);
    ([SENSORS_SUBFEATURE_IN_ALARM; SENSORS_SUBFEATURE_FAN_ALARM;
      SENSORS_SUBFEATURE_TEMP_ALARM; SENSORS_SUBFEATURE_POWER_ALARM;
      SENSORS_SUBFEATURE_CURR_ALARM; SENSORS_SUBFEATURE_INTRUSION_ALARM],
     st_alarm);
    ([SENSORS_SUBFEATURE_FAN_FAULT; SENSORS_SUBFEATURE_TEMP_FAULT],
     st_fault);
    ([SENSORS_SUBFEATURE_TEMP_EMERGENCY], st_emergency);
    ([SENSORS_SUBFEATURE_TEMP_EMERGENCY_ALARM], st_emergency_alarm);
    ([SENSORS_SUBFEATURE_TEMP_EMERGENCY_HYST], st_emergency_hyst) ].

(** [subfeature::type()] *)
Definition subfeature_type_of (s : sensors_subfeature) : subfeature_type :=
  switch (subfeature_code N) subfeature_type_cases st_unknown (sub_type s).

End TypeAccessors.

(** A table of values for the constants, laid out as in libsensors'
    header: bus types are small integers with the wildcard at -1, a
    subfeature code is its feature's code shifted by 8 plus an index,
    and the two [UNKNOWN] enumerators are [INT_MAX].  It serves to run
    the switches on concrete codes; the properties hold for every
    table. *)
Module LmSensors.

Definition INT_MAX : Z := 2147483647.

Definition bus (k : sensors_bus_const) : Z :=
  match k with
  | SENSORS_BUS_TYPE_ANY => -1
  | SENSORS_BUS_TYPE_I2C => 0 | SENSORS_BUS_TYPE_ISA => 1
  | SENSORS_BUS_TYPE_PCI => 2 | SENSORS_BUS_TYPE_SPI => 3
  | SENSORS_BUS_TYPE_VIRTUAL => 4 | SENSORS_BUS_TYPE_ACPI => 5
  | SENSORS_BUS_TYPE_HID => 6 | SENSORS_BUS_TYPE_MDIO => 7
  | SENSORS_BUS_TYPE_SCSI => 8
  end.

Definition feature (k : sensors_feature_const) : Z :=
  match k with
  | SENSORS_FEATURE_IN => 0 | SENSORS_FEATURE_FAN => 1
  | SENSORS_FEATURE_TEMP => 2 | SENSORS_FEATURE_POWER => 3
  | SENSORS_FEATURE_ENERGY => 4 | SENSORS_FEATURE_CURR => 5
  | SENSORS_FEATURE_HUMIDITY => 6
  | SENSORS_FEATURE_VID => 16 | SENSORS_FEATURE_INTRUSION => 17
  | SENSORS_FEATURE_BEEP_ENABLE => 24
  | SENSORS_FEATURE_UNKNOWN => INT_MAX
  end.

Definition sf (f : sensors_feature_const) (i : Z) : Z :=
  Z.lor (Z.shiftl (feature f) 8) i.

Definition subfeature (k : sensors_subfeature_const) : Z :=
  match k with
  | SENSORS_SUBFEATURE_IN_INPUT => sf SENSORS_FEATURE_IN 0
  | SENSORS_SUBFEATURE_IN_MIN => sf SENSORS_FEATURE_IN 1
  | SENSORS_SUBFEATURE_IN_MAX => sf SENSORS_FEATURE_IN 2
  | SENSORS_SUBFEATURE_IN_LCRIT => sf SENSORS_FEATURE_IN 3
  | SENSORS_SUBFEATURE_IN_CRIT => sf SENSORS_FEATURE_IN 4
  | SENSORS_SUBFEATURE_IN_AVERAGE => sf SENSORS_FEATURE_IN 5
  | SENSORS_SUBFEATURE_IN_LOWEST => sf SENSORS_FEATURE_IN 6
  | SENSORS_SUBFEATURE_IN_HIGHEST => sf SENSORS_FEATURE_IN 7
  | SENSORS_SUBFEATURE_IN_ALARM => sf SENSORS_FEATURE_IN 128
  | SENSORS_SUBFEATURE_IN_MIN_ALARM => sf SENSORS_FEATURE_IN 129
  | SENSORS_SUBFEATURE_IN_MAX_ALARM => sf SENSORS_FEATURE_IN 130
  | SENSORS_SUBFEATURE_IN_BEEP => sf SENSORS_FEATURE_IN 131
  | SENSORS_SUBFEATURE_IN_LCRIT_ALARM => sf SENSORS_FEATURE_IN 132
  | SENSORS_SUBFEATURE_IN_CRIT_ALARM => sf SENSORS_FEATURE_IN 133
  | SENSORS_SUBFEATURE_FAN_INPUT => sf SENSORS_FEATURE_FAN 0
  | SENSORS_SUBFEATURE_FAN_MIN => sf SENSORS_FEATURE_FAN 1
  | SENSORS_SUBFEATURE_FAN_MAX => sf SENSORS_FEATURE_FAN 2
  | SENSORS_SUBFEATURE_FAN_ALARM => sf SENSORS_FEATURE_FAN 128
  | SENSORS_SUBFEATURE_FAN_FAULT => sf SENSORS_FEATURE_FAN 129
  | SENSORS_SUBFEATURE_FAN_DIV => sf SENSORS_FEATURE_FAN 130
  | SENSORS_SUBFEATURE_FAN_BEEP => sf SENSORS_FEATURE_FAN 131
  | SENSORS_SUBFEATURE_FAN_PULSES => sf SENSORS_FEATURE_FAN 132
  | SENSORS_SUBFEATURE_FAN_MIN_ALARM => sf SENSORS_FEATURE_FAN 133
  | SENSORS_SUBFEATURE_FAN_MAX_ALARM => sf SENSORS_FEATURE_FAN 134
  | SENSORS_SUBFEATURE_TEMP_INPUT => sf SENSORS_FEATURE_TEMP 0
  | SENSORS_SUBFEATURE_TEMP_MAX => sf SENSORS_FEATURE_TEMP 1
  | SENSORS_SUBFEATURE_TEMP_MAX_HYST => sf SENSORS_FEATURE_TEMP 2
  | SENSORS_SUBFEATURE_TEMP_MIN => sf SENSORS_FEATURE_TEMP 3
  | SENSORS_SUBFEATURE_TEMP_CRIT => sf SENSORS_FEATURE_TEMP 4
  | SENSORS_SUBFEATURE_TEMP_CRIT_HYST => sf SENSORS_FEATURE_TEMP 5
  | SENSORS_SUBFEATURE_TEMP_LCRIT => sf SENSORS_FEATURE_TEMP 6
  | SENSORS_SUBFEATURE_TEMP_EMERGENCY => sf SENSORS_FEATURE_TEMP 7
  | SENSORS_SUBFEATURE_TEMP_EMERGENCY_HYST => sf SENSORS_FEATURE_TEMP 8
  | SENSORS_SUBFEATURE_TEMP_LOWEST => sf SENSORS_FEATURE_TEMP 9
  | SENSORS_SUBFEATURE_TEMP_HIGHEST => sf SENSORS_FEATURE_TEMP 10
  | SENSORS_SUBFEATURE_TEMP_MIN_HYST => sf SENSORS_FEATURE_TEMP 11
  | SENSORS_SUBFEATURE_TEMP_LCRIT_HYST => sf SENSORS_FEATURE_TEMP 12
  | SENSORS_SUBFEATURE_TEMP_ALARM => sf SENSORS_FEATURE_TEMP 128
  | SENSORS_SUBFEATURE_TEMP_MAX_ALARM => sf SENSORS_FEATURE_TEMP 129
  | SENSORS_SUBFEATURE_TEMP_MIN_ALARM => sf SENSORS_FEATURE_TEMP 130
  | SENSORS_SUBFEATURE_TEMP_CRIT_ALARM => sf SENSORS_FEATURE_TEMP 131
  | SENSORS_SUBFEATURE_TEMP_FAULT => sf SENSORS_FEATURE_TEMP 132
  | SENSORS_SUBFEATURE_TEMP_TYPE => sf SENSORS_FEATURE_TEMP 133
  | SENSORS_SUBFEATURE_TEMP_OFFSET => sf SENSORS_FEATURE_TEMP 134
  | SENSORS_SUBFEATURE_TEMP_BEEP => sf SENSORS_FEATURE_TEMP 135
  | SENSORS_SUBFEATURE_TEMP_EMERGENCY_ALARM => sf SENSORS_FEATURE_TEMP 136
  | SENSORS_SUBFEATURE_TEMP_LCRIT_ALARM => sf SENSORS_FEATURE_TEMP 137
  | SENSORS_SUBFEATURE_POWER_AVERAGE => sf SENSORS_FEATURE_POWER 0
  | SENSORS_SUBFEATURE_POWER_AVERAGE_HIGHEST => sf SENSORS_FEATURE_POWER 1
  | SENSORS_SUBFEATURE_POWER_AVERAGE_LOWEST => sf SENSORS_FEATURE_POWER 2
  | SENSORS_SUBFEATURE_POWER_INPUT => sf SENSORS_FEATURE_POWER 3
  | SENSORS_SUBFEATURE_POWER_INPUT_HIGHEST => sf SENSORS_FEATURE_POWER 4
  | SENSORS_SUBFEATURE_POWER_INPUT_LOWEST => sf SENSORS_FEATURE_POWER 5
  | SENSORS_SUBFEATURE_POWER_CAP => sf SENSORS_FEATURE_POWER 6
  | SENSORS_SUBFEATURE_POWER_CAP_HYST => sf SENSORS_FEATURE_POWER 7
  | SENSORS_SUBFEATURE_POWER_MAX => sf SENSORS_FEATURE_POWER 8
  | SENSORS_SUBFEATURE_POWER_CRIT => sf SENSORS_FEATURE_POWER 9
  | SENSORS_SUBFEATURE_POWER_MIN => sf SENSORS_FEATURE_POWER 10
  | SENSORS_SUBFEATURE_POWER_LCRIT => sf SENSORS_FEATURE_POWER 11
  | SENSORS_SUBFEATURE_POWER_AVERAGE_INTERVAL =>
      sf SENSORS_FEATURE_POWER 128
  | SENSORS_SUBFEATURE_POWER_ALARM => sf SENSORS_FEATURE_POWER 129
  | SENSORS_SUBFEATURE_POWER_CAP_ALARM => sf SENSORS_FEATURE_POWER 130
  | SENSORS_SUBFEATURE_POWER_MAX_ALARM => sf SENSORS_FEATURE_POWER 131
  | SENSORS_SUBFEATURE_POWER_CRIT_ALARM => sf SENSORS_FEATURE_POWER 132
  | SENSORS_SUBFEATURE_POWER_MIN_ALARM => sf SENSORS_FEATURE_POWER 133
  | SENSORS_SUBFEATURE_POWER_LCRIT_ALARM => sf SENSORS_FEATURE_POWER 134
  | SENSORS_SUBFEATURE_ENERGY_INPUT => sf SENSORS_FEATURE_ENERGY 0
  | SENSORS_SUBFEATURE_CURR_INPUT => sf SENSORS_FEATURE_CURR 0
  | SENSORS_SUBFEATURE_CURR_MIN => sf SENSORS_FEATURE_CURR 1
  | SENSORS_SUBFEATURE_CURR_MAX => sf SENSORS_FEATURE_CURR 2
  | SENSORS_SUBFEATURE_CURR_LCRIT => sf SENSORS_FEATURE_CURR 3
  | SENSORS_SUBFEATURE_CURR_CRIT => sf SENSORS_FEATURE_CURR 4
  | SENSORS_SUBFEATURE_CURR_AVERAGE => sf SENSORS_FEATURE_CURR 5
  | SENSORS_SUBFEATURE_CURR_LOWEST => sf SENSORS_FEATURE_CURR 6
  | SENSORS_SUBFEATURE_CURR_HIGHEST => sf SENSORS_FEATURE_CURR 7
  | SENSORS_SUBFEATURE_CURR_ALARM => sf SENSORS_FEATURE_CURR 128
  | SENSORS_SUBFEATURE_CURR_MIN_ALARM => sf SENSORS_FEATURE_CURR 129
  | SENSORS_SUBFEATURE_CURR_MAX_ALARM => sf SENSORS_FEATURE_CURR 130
  | SENSORS_SUBFEATURE_CURR_BEEP => sf SENSORS_FEATURE_CURR 131
  | SENSORS_SUBFEATURE_CURR_LCRIT_ALARM => sf SENSORS_FEATURE_CURR 132
  | SENSORS_SUBFEATURE_CURR_CRIT_ALARM => sf SENSORS_FEATURE_CURR 133
  | SENSORS_SUBFEATURE_HUMIDITY_INPUT => sf SENSORS_FEATURE_HUMIDITY 0
  | SENSORS_SUBFEATURE_VID => sf SENSORS_FEATURE_VID 0
  | SENSORS_SUBFEATURE_INTRUSION_ALARM => sf SENSORS_FEATURE_INTRUSION 0
  | SENSORS_SUBFEATURE_INTRUSION_BEEP => sf SENSORS_FEATURE_INTRUSION 1
  | SENSORS_SUBFEATURE_BEEP_ENABLE => sf SENSORS_FEATURE_BEEP_ENABLE 0
  | SENSORS_SUBFEATURE_UNKNOWN => INT_MAX
  end.

Definition codes : native_codes :=
  {| bus_code := bus; feature_code := feature; subfeature_code := subfeature |}.

End LmSensors.

(** ** Errors (error.h)

    [sensors::error] is never thrown itself; the three subclasses are the
    kinds.  An error carries the message of its [std::runtime_error]. *)

Inductive error_kind := init_error | io_error | parse_error.

Record error := {
  kind : error_kind;
  what : string
}.

(** ** The boundary: stdio and libsensors

    An open stream is identified by the path it was opened from; the
    argument of [sensors_init] is such a stream or [NULL]. *)

Abbreviation FILE := string (only parsing).
Abbreviation config := (option string) (only parsing).

Record boundary := {
  (** [None] when [fopen(path, "r")] succeeds, else the [errno] it sets *)
  fopen_errno : string -> option Z;
  strerror : Z -> string;
  sensors_strerror : Z -> string;
  (** the value [sensors_init] returns for a configuration *)
  init_result : config -> Z;
  (** what the three enumeration primitives serve once initialised *)
  proc_chips : config -> list sensors_chip_name;
  chip_features : config -> sensors_chip_name -> list sensors_feature;
  chip_subfeatures :
    config -> sensors_chip_name -> sensors_feature -> list sensors_subfeature
}.

Definition ENOENT : Z := 2.

(** Calls made across the boundary, oldest first.  An enumeration
    (one cursor run over a primitive) is recorded once. *)
Inductive call :=
| Call_fopen (path : string)
| Call_fclose (f : FILE)
| Call_sensors_init (cfg : config)
| Call_sensors_cleanup
| Call_get_detected_chips
| Call_get_features (chip : sensors_chip_name)
| Call_get_all_subfeatures (chip : sensors_chip_name) (feat : sensors_feature).

(** ** Global state *)

(** [class libsensors_handle]: the members. *)
Record libsensors_handle := {
  m_path : string;
  m_config : option FILE
}.

(** The function-local [static] of [get_handle()]: not yet constructed,
    or a [unique_ptr] that is null or owns a handle. *)
Inductive static_handle :=
| Unconstructed
| Holds (p : option libsensors_handle).

Record state := {
  handle : static_handle;
  (** the configuration libsensors is initialised with, if it is *)
  loaded : option config;
  errno : Z;
  calls : list call
}.

Definition initial_state : state :=
  {| handle := Unconstructed; loaded := None; errno := 0; calls := [] |}.

(** ** State and exceptions *)

Inductive outcome (A : Type) :=
| Ret (a : A)
| Throw (e : error)
| Undefined.
Arguments Ret {A} a.
Arguments Throw {A} e.
Arguments Undefined {A}.

Definition M (A : Type) : Type := state -> outcome A * state.

#[global] Instance M_ret : MRet M := fun A a st => (Ret a, st).

#[global] Instance M_bind : MBind M := fun A B k c st =>
  match c st with
  | (Ret a, st') => k a st'
  | (Throw e, st') => (Throw e, st')
  | (Undefined, st') => (Undefined, st')
  end.

Definition throw {A} (k : error_kind) (msg : string) : M A :=
  fun st => (Throw {| kind := k; what := msg |}, st).

Definition undefined {A} : M A := fun st => (Undefined, st).

Definition gets {A} (f : state -> A) : M A := fun st => (Ret (f st), st).

Definition log (c : call) : M unit := fun st =>
  (Ret tt, {| handle := handle st; loaded := loaded st; errno := errno st;
              calls := calls st ++ [c] |}).

Definition set_handle (h : static_handle) : M unit := fun st =>
  (Ret tt, {| handle := h; loaded := loaded st; errno := errno st;
              calls := calls st |}).

Definition set_loaded (l : option config) : M unit := fun st =>
  (Ret tt, {| handle := handle st; loaded := l; errno := errno st;
              calls := calls st |}).

Definition set_errno (e : Z) : M unit := fun st =>
  (Ret tt, {| handle := handle st; loaded := loaded st; errno := e;
              calls := calls st |}).

(** ** Cursor loops

    Each enumeration primitive of libsensors takes an integer cursor by
    reference: it returns the element the cursor points at and advances
    the cursor, or returns null at the end of its sequence. *)

Definition cursor_next {A} (seq : list A) (nr : nat) : option A * nat :=
  match nth_error seq nr with
  | Some a => (Some a, S nr)
  | None => (None, nr)
  end.

Definition inspect {A} (x : A) : {y : A | x = y} := exist _ x eq_refl.

(** [while ((x = next(&nr))) if (p(x)) return x;] followed by the code
    after the loop ([None]). *)
Equations? cursor_find {A} (seq : list A) (p : A -> bool) (nr : nat)
  : option A by wf (length seq - nr) lt :=
  cursor_find seq p nr with inspect (cursor_next seq nr) := {
    | exist _ (Some x, nr') _ => if p x then Some x else cursor_find seq p nr';
    | exist _ (None, _) _ => None }.
Proof.
  unfold cursor_next in e.
  destruct (nth_error seq nr) eqn:E; inversion e; subst.
  assert (nr < length seq) by (apply nth_error_Some; congruence). lia.
Qed.

(** [while ((x = next(&nr))) out.emplace_back(f(x));] *)
Equations? cursor_collect {A C} (seq : list A) (f : A -> C) (nr : nat)
  (out : list C) : list C by wf (length seq - nr) lt :=
  cursor_collect seq f nr out with inspect (cursor_next seq nr) := {
    | exist _ (Some x, nr') _ => cursor_collect seq f nr' (out ++ [f x]);
    | exist _ (None, _) _ => out }.
Proof.
  unfold cursor_next in e.
  destruct (nth_error seq nr) eqn:E; inversion e; subst.
  assert (nr < length seq) by (apply nth_error_Some; congruence). lia.
Qed.

Abbreviation chip_name := sensors_chip_name (only parsing).

Section Library.
Variable B : boundary.
Variable N : native_codes.

(** *** Boundary primitives *)

(** [std::fopen(path, "r")]; the empty path names no file. *)
Definition std_fopen (path : string) : M (option FILE) :=
  log (Call_fopen path);;
  if Str.empty path then set_errno ENOENT;; mret None
  else match fopen_errno B path with
       | Some e => set_errno e;; mret None
       | None => mret (Some path)
       end.

Definition std_fclose (f : FILE) : M unit := log (Call_fclose f).

(** [sensors_init]: on success the library serves what the
    configuration yields; on a non-zero result it has released
    everything again and serves nothing. *)
Definition sensors_init (cfg : config) : M Z :=
  log (Call_sensors_init cfg);;
  let e := init_result B cfg in
  set_loaded (if Z.eqb e 0 then Some cfg else None);;
  mret e.

Definition sensors_cleanup : M unit :=
  log Call_sensors_cleanup;;
  set_loaded None.

(** [sensors::error::error(int)] *)
Definition error_of_code {A} (k : error_kind) (code : Z) : M A :=
  throw k (sensors_strerror B code).

(** *** [libsensors_handle] *)

(** The constructor. *)
Definition libsensors_handle_new (config_path : string)
  : M libsensors_handle :=
  cfg ← std_fopen config_path;
  if negb (Str.empty config_path) && negb (bool_decide (is_Some cfg)) then
    e ← gets errno;
    throw init_error ("Failed to open config file (" ++ strerror B e ++ ")")
  else
    err ← sensors_init cfg;
    if negb (Z.eqb err 0) then error_of_code init_error err
    else mret {| m_path := config_path; m_config := cfg |}.

(** The destructor. *)
Definition libsensors_handle_delete (h : libsensors_handle) : M unit :=
  sensors_cleanup;;
  match m_config h with
  | Some f => std_fclose f
  | None => mret tt
  end.

(** [get_handle()]: constructs the static on first use (a constructor
    that throws leaves it unconstructed) and returns it. *)
Definition get_handle : M (option libsensors_handle) :=
  s ← gets handle;
  match s with
  | Unconstructed =>
      h ← libsensors_handle_new "";
      set_handle (Holds (Some h));;
      mret (Some h)
  | Holds p => mret p
  end.

(** [handle.reset()] *)
Definition handle_reset (p : option libsensors_handle) : M unit :=
  match p with
  | Some h => libsensors_handle_delete h;; set_handle (Holds None)
  | None => mret tt
  end.

(** [load_config(path)]; [handle->config_path()] on a null pointer is
    undefined. *)
Definition load_config (path : string) : M unit :=
  p ← get_handle;
  match p with
  | None => undefined
  | Some h =>
      if negb (String.eqb path (m_path h)) then
        handle_reset p;;
        h' ← libsensors_handle_new path;
        set_handle (Holds (Some h'))
      else mret tt
  end.

(** The stream the constructor ends up with for a path. *)
Definition fopen_stream (path : string) : option FILE :=
  if Str.empty path then None
  else match fopen_errno B path with
       | Some _ => None
       | None => Some path
       end.

(** The state [handle.reset()] leaves behind when it destroys [h]. *)
Definition torn_down (st : state) (h : libsensors_handle) : state :=
  {| handle := Holds None; loaded := None; errno := errno st;
     calls := calls st ++ Call_sensors_cleanup ::
                match m_config h with
                | Some f => [Call_fclose f]
                | None => []
                end |}.

(** *** Enumerations

    The sequence a primitive serves is fixed by the library state; a
    cursor loop consults it once and then runs over it. *)

Definition served {A} (f : config -> list A) (st : state) : list A :=
  match loaded st with
  | Some cfg => f cfg
  | None => []
  end.

Definition sensors_get_detected_chips : M (list sensors_chip_name) :=
  log Call_get_detected_chips;;
  gets (served (proc_chips B)).

Definition sensors_get_features (chip : sensors_chip_name)
  : M (list sensors_feature) :=
  log (Call_get_features chip);;
  gets (served (fun cfg => chip_features B cfg chip)).

Definition sensors_get_all_subfeatures (chip : sensors_chip_name)
  (feat : sensors_feature) : M (list sensors_subfeature) :=
  log (Call_get_all_subfeatures chip feat);;
  gets (served (fun cfg => chip_subfeatures B cfg chip feat)).

(** *** Entities

    What an entity's shared [impl] holds: the native record (through
    a [std::reference_wrapper] to the library's copy) and, for features
    and subfeatures, the parent entity.  For a chip that is the native
    record alone ([chip_name]). *)

Record feature := {
  m_chip : chip_name;
  feature_rec : sensors_feature
}.

Record subfeature := {
  m_feature : feature;
  subfeature_rec : sensors_subfeature
}.

(** *** Lookups by path *)

(** [_sensors_impl<chip_name>::impl::find(path)] *)
Definition chip_name_find (path : string) : M chip_name :=
  get_handle;;
  seq ← sensors_get_detected_chips;
  match cursor_find seq
          (fun name => bool_decide (Str.rfind_at0 path (chip_path name) = Some 0))
          0 with
  | Some name => mret name
  | None => throw parse_error ("No chip found at " ++ path)
  end.

(** [_sensors_impl<feature>::impl::find(chip_path, feature_name)] *)
Definition feature_find (chip_path feature_name : string) : M feature :=
  chip ← chip_name_find chip_path;
  seq ← sensors_get_features chip;
  match cursor_find seq (fun feat => String.eqb (feat_name feat) feature_name)
          0 with
  | Some feat => mret {| m_chip := chip; feature_rec := feat |}
  | None =>
      throw parse_error
        ("Feature " ++ feature_name ++ " not found on chip " ++ chip_prefix chip)
  end.

(** The [feat_name] computed by [find(full_path)] from the filename. *)
Definition feat_name_of (filename : string) : string :=
  match Str.rfind "_" filename with
  | Some pos => Str.substr 0 pos filename
  | None => filename
  end.

(** [_sensors_impl<feature>::impl::find(full_path)] *)
Definition feature_find_path (full_path : string) : M feature :=
  let filename := fs.filename full_path in
  let feat_name := feat_name_of filename in
  feature_find (fs.parent_path full_path) feat_name.

(** [_sensors_impl<subfeature>::impl::find(full_path)] *)
Definition subfeature_find (full_path : string) : M subfeature :=
  if negb (fs.has_filename full_path) then
    throw parse_error ("Path does not contain filename: " ++ full_path)
  else
    let sub_name' := fs.filename full_path in
    feat ← feature_find_path full_path;
    seq ← sensors_get_all_subfeatures (m_chip feat) (feature_rec feat);
    match cursor_find seq (fun sub => String.eqb (sub_name sub) sub_name')
            0 with
    | Some sub => mret {| m_feature := feat; subfeature_rec := sub |}
    | None => throw parse_error ("Subfeature not found: " ++ sub_name')
    end.

(** *** Enumerating entities *)

(** [get_detected_chips()] *)
Definition get_detected_chips : M (list chip_name) :=
  get_handle;;
  seq ← sensors_get_detected_chips;
  mret (cursor_collect seq (fun cn => cn) 0 []).

(** [chip_name::features()] *)
Definition chip_name_features (c : chip_name) : M (list feature) :=
  seq ← sensors_get_features c;
  mret (cursor_collect seq
          (fun feat => {| m_chip := c; feature_rec := feat |}) 0 []).

(** [feature::subfeatures()] *)
Definition feature_subfeatures (f : feature) : M (list subfeature) :=
  seq ← sensors_get_all_subfeatures (m_chip f) (feature_rec f);
  mret (cursor_collect seq
          (fun sub => {| m_feature := f; subfeature_rec := sub |}) 0 []).

(** [subfeature::name()], [number()], [type()] *)
Definition subfeature_name (s : subfeature) : string :=
  sub_name (subfeature_rec s).
Definition subfeature_number (s : subfeature) : Z :=
  sub_number (subfeature_rec s).
Definition subfeature_get_type (s : subfeature) : subfeature_type :=
  subfeature_type_of N (subfeature_rec s).

(** [feature::subfeature(type)]: [std::find_if] over [subfeatures()]. *)
Definition feature_subfeature (f : feature) (type : subfeature_type)
  : M (option subfeature) :=
  subs ← feature_subfeatures f;
  mret (find (fun sf => subfeature_type_beq (subfeature_get_type sf) type) subs).

End Library.

(** ** The shared handle box

    [_sensors_impl<T>] holds one [std::shared_ptr<impl>].  The heap maps
    the address of a control block to the [impl] it owns and its use
    count. *)

Definition loc := positive.

Section Shared.
Context {I : Type}.

Record control_block := {
  object : I;
  use_count : nat
}.

Record _sensors_impl := { m_impl : loc }.

(** [std::make_shared<impl>(std::move(_impl))] *)
Definition make_shared (i : I) (h : gmap loc control_block)
  : loc * gmap loc control_block :=
  let l := fresh (dom h) in
  (l, <[l := {| object := i; use_count := 1 |}]> h).

(** [_sensors_impl(impl&&)] *)
Definition sensors_impl_new (i : I) (h : gmap loc control_block)
  : _sensors_impl * gmap loc control_block :=
  let '(l, h') := make_shared i h in ({| m_impl := l |}, h').

(** Copying a [shared_ptr]: the same control block, one more owner. *)
Definition shared_ptr_copy (l : loc) (h : gmap loc control_block)
  : loc * gmap loc control_block :=
  (l, alter (fun cb => {| object := object cb;
                          use_count := S (use_count cb) |}) l h).

(** The implicit copy constructor: memberwise. *)
Definition sensors_impl_copy (e : _sensors_impl) (h : gmap loc control_block)
  : _sensors_impl * gmap loc control_block :=
  let '(l, h') := shared_ptr_copy (m_impl e) h in ({| m_impl := l |}, h').

(** [operator impl const*()]: [m_impl.get()] *)
Definition sensors_impl_get (e : _sensors_impl) (h : gmap loc control_block)
  : option I :=
  object <$> (h !! m_impl e).

(** An entity's accessor reads a member of the [impl] it points to. *)
Definition accessor {X} (member : I -> X) (e : _sensors_impl)
  (h : gmap loc control_block) : option X :=
  member <$> sensors_impl_get e h.

(** The program state: the global state and the heap of handles. *)
Definition program_state : Type := state * gmap loc control_block.

(** Copying an entity ([chip_name], [feature] or [subfeature]: the
    defaulted copy constructor of a class derived from the box). *)
Definition entity_copy (e : _sensors_impl) (w : program_state)
  : _sensors_impl * program_state :=
  let '(e', h') := sensors_impl_copy e (snd w) in (e', (fst w, h')).

End Shared.

Arguments control_block : clear implicits.
Arguments program_state : clear implicits.

(** ** A sample system

    Two hwmon chips as libsensors reports them on a laptop, used to run
    the definitions on concrete inputs. *)
Module Sample.
Local Open Scope Z_scope.

Definition acpitz : sensors_chip_name :=
  {| chip_prefix := "acpitz";
     chip_bus := {| bus_type_code := 5; bus_nr := 0 |};
     chip_addr := 0;
     chip_path := "/sys/class/hwmon/hwmon0" |}.

Definition coretemp : sensors_chip_name :=
  {| chip_prefix := "coretemp";
     chip_bus := {| bus_type_code := 1; bus_nr := 0 |};
     chip_addr := 0;
     chip_path := "/sys/class/hwmon/hwmon1" |}.

Definition k10temp : sensors_chip_name :=
  {| chip_prefix := "k10temp";
     chip_bus := {| bus_type_code := 2; bus_nr := 0 |};
     chip_addr := 195;
     chip_path := "/sys/class/hwmon/hwmon10" |}.

Definition temp1 : sensors_feature :=
  {| feat_name := "temp1"; feat_number := 0; feat_type := 2 |}.
Definition temp2 : sensors_feature :=
  {| feat_name := "temp2"; feat_number := 1; feat_type := 2 |}.
Definition temp3 : sensors_feature :=
  {| feat_name := "temp3"; feat_number := 1; feat_type := 2 |}.

Definition sub (name : string) (number type : Z) : sensors_subfeature :=
  {| sub_name := name; sub_number := number; sub_type := type;
     sub_flags := 1 |}.

Definition temp1_input := sub "temp1_input" 0 512.
Definition temp1_max := sub "temp1_max" 1 513.
Definition temp1_crit := sub "temp1_crit" 2 516.
Definition temp1_crit_alarm := sub "temp1_crit_alarm" 3 643.
Definition temp2_input := sub "temp2_input" 4 512.
Definition temp3_input := sub "temp3_input" 1 512.

Definition features_of (c : sensors_chip_name) : list sensors_feature :=
  if String.eqb (chip_prefix c) "acpitz" then [temp1]
  else if String.eqb (chip_prefix c) "coretemp" then [temp1; temp2]
  else if String.eqb (chip_prefix c) "k10temp" then [temp1; temp3]
  else [].

Definition subfeatures_of (c : sensors_chip_name) (f : sensors_feature)
  : list sensors_subfeature :=
  if String.eqb (chip_prefix c) "acpitz" then
    if String.eqb (feat_name f) "temp1" then [temp1_input; temp1_crit] else []
  else if String.eqb (chip_prefix c) "coretemp" then
    if String.eqb (feat_name f) "temp1" then
      [temp1_input; temp1_max; temp1_crit; temp1_crit_alarm]
    else if String.eqb (feat_name f) "temp2" then [temp2_input]
    else []
  else if String.eqb (chip_prefix c) "k10temp" then
    if String.eqb (feat_name f) "temp1" then [temp1_input]
    else if String.eqb (feat_name f) "temp3" then [temp3_input]
    else []
  else [].

(** [/etc/sensors3.conf] is a good configuration, [/etc/broken.conf]
    opens but does not parse, nothing else exists. *)
Definition sysfs : boundary :=
  {| fopen_errno := fun p =>
       if String.eqb p "/etc/sensors3.conf" || String.eqb p "/etc/broken.conf"
       then None else Some ENOENT;
     strerror := fun e =>
       if Z.eqb e ENOENT then "No such file or directory" else "Unknown error";
     sensors_strerror := fun e =>
       if Z.eqb e (-8) then "General parse error" else "Unknown error";
     init_result := fun cfg =>
       match cfg with
       | Some f => if String.eqb f "/etc/broken.conf" then -8 else 0
       | None => 0
       end;
     proc_chips := fun _ => [acpitz; coretemp];
     chip_features := fun _ => features_of;
     chip_subfeatures := fun _ => subfeatures_of |}.

(** The state once the library is in use with the default
    configuration. *)
Definition running : state :=
  {| handle := Holds (Some {| m_path := ""; m_config := None |});
     loaded := Some None; errno := ENOENT;
     calls := [Call_fopen ""; Call_sensors_init None] |}.

(** The same system with an eleventh hwmon device. *)
Definition crowded : boundary :=
  {| fopen_errno := fopen_errno sysfs;
     strerror := strerror sysfs;
     sensors_strerror := sensors_strerror sysfs;
     init_result := init_result sysfs;
     proc_chips := fun _ => [acpitz; coretemp; k10temp];
     chip_features := fun _ => features_of;
     chip_subfeatures := fun _ => subfeatures_of |}.

(** A system on which one chip's directory lies inside another's. *)
Definition inner : sensors_chip_name :=
  {| chip_prefix := "nct6775";
     chip_bus := {| bus_type_code := 1; bus_nr := 0 |};
     chip_addr := 656;
     chip_path := "/sys/class/hwmon/hwmon0/device" |}.

Definition nested : boundary :=
  {| fopen_errno := fopen_errno sysfs;
     strerror := strerror sysfs;
     sensors_strerror := sensors_strerror sysfs;
     init_result := init_result sysfs;
     proc_chips := fun _ => [inner; acpitz];
     chip_features := fun _ => features_of;
     chip_subfeatures := fun _ => subfeatures_of |}.

End Sample.

(** ** Further members

    The remaining accessors of the entity classes, two measures of the
    global state used to state what the lifecycle keeps, and the
    entities as they live on the heap: what each [impl] owns, the
    constructors from a path and the destructors. *)

(** The mode flags of libsensors' header, as a parameter. *)
Record mode_flags := {
  SENSORS_MODE_R : Z;
  SENSORS_MODE_W : Z;
  SENSORS_COMPUTE_MAPPING : Z
}.

(** [flags & mask] converted to [bool]. *)
Definition flag_test (flags mask : Z) : bool :=
  negb (Z.eqb (Z.land flags mask) 0).

(** [subfeature::readable()], [writable()], [compute_mapping()] *)
Definition subfeature_readable (F : mode_flags) (s : subfeature) : bool :=
  flag_test (sub_flags (subfeature_rec s)) (SENSORS_MODE_R F).

Definition subfeature_writable (F : mode_flags) (s : subfeature) : bool :=
  flag_test (sub_flags (subfeature_rec s)) (SENSORS_MODE_W F).

Definition subfeature_compute_mapping (F : mode_flags) (s : subfeature) : bool :=
  flag_test (sub_flags (subfeature_rec s)) (SENSORS_COMPUTE_MAPPING F).

(** [std::string(n, '\0')] *)
Fixpoint nul_string (n : nat) : string :=
  match n with
  | 0 => EmptyString
  | S n' => String Ascii.zero (nul_string n')
  end.

(** What a buffer holds after [bytes] have been stored at its start
    (stores past its end are not represented). *)
Fixpoint store (bytes buf : string) : string :=
  match bytes, buf with
  | EmptyString, _ => buf
  | String b bytes', String _ buf' => String b (store bytes' buf')
  | String _ _, EmptyString => EmptyString
  end.

(** [snprintf(str, size, "%s", t)]: the length of [t] is returned; at
    most [size - 1] characters and a terminator are stored, nothing
    when [size] is 0. *)
Definition snprintf (t : string) (size : nat) : Z * string :=
  (Z.of_nat (String.length t),
   match size with
   | 0 => EmptyString
   | S n => Str.substr 0 n t ++ String Ascii.zero EmptyString
   end).

Section Members.
Variable B : boundary.

(** [sensors_snprintf_chip_name(str, size, chip)]: the value returned
    and the bytes stored into [str]. *)
Variable sensors_snprintf_chip_name : sensors_chip_name -> nat -> Z * string.

(** [chip_name::name()] *)
Definition chip_name_name (c : chip_name) : M string :=
  let size := fst (sensors_snprintf_chip_name c 0) in
  if Z.ltb size 0 then throw io_error (strerror B size)
  else
    let name := nul_string (Z.to_nat size) in
    let r := sensors_snprintf_chip_name c (Z.to_nat size) in
    let written := fst r in
    if Z.ltb written 0 then throw io_error (strerror B written)
    else mret (store (snd r) name).

(** The library is initialised exactly with the stream of the handle
    the static pointer owns, and not at all without one. *)
Definition consistent (st : state) : Prop :=
  match handle st with
  | Holds (Some h) =>
      loaded st = Some (m_config h) /\ m_config h = fopen_stream B (m_path h)
  | _ => loaded st = None
  end.

(** The streams a call log leaves open: those [fopen] returned and no
    [fclose] was given, oldest last. *)
Fixpoint remove_stream (f : FILE) (open : list FILE) : list FILE :=
  match open with
  | [] => []
  | g :: open' => if String.eqb f g then open' else g :: remove_stream f open'
  end.

Definition open_after (open : list FILE) (c : call) : list FILE :=
  match c with
  | Call_fopen path =>
      match fopen_stream B path with
      | Some f => f :: open
      | None => open
      end
  | Call_fclose f => remove_stream f open
  | _ => open
  end.

Definition open_streams (log : list call) : list FILE :=
  fold_left open_after log [].

(** The stream the static pointer accounts for. *)
Definition owned_streams (st : state) : list FILE :=
  match handle st with
  | Holds (Some h) =>
      match m_config h with
      | Some f => [f]
      | None => []
      end
  | _ => []
  end.

End Members.

(** An enumeration call: neither a lifecycle call nor a stdio call. *)
Definition enumeration_call (c : call) : Prop :=
  match c with
  | Call_get_detected_chips | Call_get_features _
  | Call_get_all_subfeatures _ _ => True
  | _ => False
  end.

(** [st'] differs from [st] by enumeration calls in the log at most. *)
Definition only_enumerated (st st' : state) : Prop :=
  handle st' = handle st /\ loaded st' = loaded st /\ errno st' = errno st /\
  exists more, calls st' = (calls st ++ more)%list /\ Forall enumeration_call more.

(** What a lookup started in [st] may end with: a result, [parse_error],
    or the [init_error] of the first use of the library. *)
Definition lookup_outcome {A} (st : state) (r : outcome A) : Prop :=
  match r with
  | Ret _ => True
  | Throw e =>
      kind e = parse_error \/ (kind e = init_error /\ handle st = Unconstructed)
  | Undefined => False
  end.

(** ** Entities on the heap

    What the [impl] of each class holds: the native record (through
    its [std::reference_wrapper]) and, for a feature and a subfeature,
    the parent entity [m_chip] or [m_feature], itself a handle box. *)
Inductive impl :=
| chip_impl (get : sensors_chip_name)
| feature_impl (m_chip : _sensors_impl) (get : sensors_feature)
| subfeature_impl (m_feature : _sensors_impl) (get : sensors_subfeature).

Abbreviation heap := (gmap loc (control_block impl)) (only parsing).

(** The control block [std::make_shared] sets up: one owner. *)
Definition sole (i : impl) : control_block impl :=
  {| object := i; use_count := 1 |}.

(** Releasing a [shared_ptr]: one owner less; the last owner destroys
    the object, which releases what the object owns ([destroy]), and
    then the control block.  Releasing a pointer that owns nothing does
    nothing. *)
Definition shared_ptr_release {I}
  (destroy : I -> gmap loc (control_block I) -> gmap loc (control_block I))
  (l : loc) (h : gmap loc (control_block I)) : gmap loc (control_block I) :=
  match h !! l with
  | Some cb =>
      if Nat.leb (use_count cb) 1 then delete l (destroy (object cb) h)
      else <[l := {| object := object cb; use_count := pred (use_count cb) |}]> h
  | None => h
  end.

(** The implicit destructors.  The [impl] of a chip is a reference
    wrapper and owns nothing; the [impl] of a feature owns [m_chip] and
    that of a subfeature [m_feature], whose destructors run with it.
    (The pointer types keep a block of one class from being reached as
    another; those cases are filled with the identity.) *)
Definition chip_name_delete (e : _sensors_impl) (h : heap) : heap :=
  shared_ptr_release (fun _ h' => h') (m_impl e) h.

Definition feature_impl_delete (i : impl) (h : heap) : heap :=
  match i with
  | feature_impl chip _ => chip_name_delete chip h
  | _ => h
  end.

Definition feature_delete (e : _sensors_impl) (h : heap) : heap :=
  shared_ptr_release feature_impl_delete (m_impl e) h.

Definition subfeature_impl_delete (i : impl) (h : heap) : heap :=
  match i with
  | subfeature_impl feat _ => feature_delete feat h
  | _ => h
  end.

Definition subfeature_delete (e : _sensors_impl) (h : heap) : heap :=
  shared_ptr_release subfeature_impl_delete (m_impl e) h.

(** Code that also allocates and releases handles runs on the global
    state and the heap. *)
Definition W (A : Type) : Type :=
  program_state impl -> outcome A * program_state impl.

#[global] Instance W_ret : MRet W := fun A a w => (Ret a, w).

#[global] Instance W_bind : MBind W := fun A B k c w =>
  match c w with
  | (Ret a, w') => k a w'
  | (Throw e, w') => (Throw e, w')
  | (Undefined, w') => (Undefined, w')
  end.

(** Code that does not touch the heap. *)
Definition lift {A} (c : M A) : W A := fun w =>
  let '(r, st') := c (fst w) in (r, (st', snd w)).

(** A destructor run on the heap. *)
Definition run_destructor (d : heap -> heap) : W unit := fun w =>
  (Ret tt, (fst w, d (snd w))).

(** [_sensors_impl(impl&&)] on the heap of the program. *)
Definition box (i : impl) : W _sensors_impl := fun w =>
  let '(e, h') := sensors_impl_new i (snd w) in (Ret e, (fst w, h')).

(** [*chip]: the record behind [m_impl.get()]; undefined behaviour
    through a pointer that owns no chip. *)
Definition chip_name_get (chip : _sensors_impl) : W sensors_chip_name :=
  fun w =>
    match sensors_impl_get chip (snd w) with
    | Some (chip_impl name) => (Ret name, w)
    | _ => (Undefined, w)
    end.

(** [feat.chip()] and [*feat] *)
Definition feature_get (feat : _sensors_impl)
  : W (_sensors_impl * sensors_feature) :=
  fun w =>
    match sensors_impl_get feat (snd w) with
    | Some (feature_impl chip f) => (Ret (chip, f), w)
    | _ => (Undefined, w)
    end.

Section Entities.
Variable B : boundary.

(** [chip_name::chip_name(path)]: [chip_name{impl::find(path)}] *)
Definition chip_name_new (path : string) : W _sensors_impl :=
  name ← lift (chip_name_find B path);
  box (chip_impl name).

(** [_sensors_impl<feature>::impl::find(chip_path, feature_name)] with
    its local [chip_name chip {chip_path}]: moved into the [impl] that
    is returned, destroyed when the function throws. *)
Definition feature_impl_find (chip_path feature_name : string) : W impl :=
  chip ← chip_name_new chip_path;
  name ← chip_name_get chip;
  seq ← lift (sensors_get_features B name);
  match cursor_find seq (fun feat => String.eqb (feat_name feat) feature_name)
          0 with
  | Some feat => mret (feature_impl chip feat)
  | None =>
      run_destructor (chip_name_delete chip);;
      lift (throw parse_error
              ("Feature " ++ feature_name ++ " not found on chip "
               ++ chip_prefix name))
  end.

(** [_sensors_impl<feature>::impl::find(full_path)] *)
Definition feature_impl_find_path (full_path : string) : W impl :=
  let filename := fs.filename full_path in
  let feat_name := feat_name_of filename in
  feature_impl_find (fs.parent_path full_path) feat_name.

(** [feature::feature(chip_path, feature_name)] *)
Definition feature_new (chip_path feature_name : string) : W _sensors_impl :=
  i ← feature_impl_find chip_path feature_name;
  box i.

(** [feature::feature(full_path)] *)
Definition feature_new_path (full_path : string) : W _sensors_impl :=
  i ← feature_impl_find_path full_path;
  box i.

(** [_sensors_impl<subfeature>::impl::find(full_path)] with its local
    [::feature feat {path}] *)
Definition subfeature_impl_find (full_path : string) : W impl :=
  if negb (fs.has_filename full_path) then
    lift (throw parse_error ("Path does not contain filename: " ++ full_path))
  else
    let sub_name' := fs.filename full_path in
    feat ← feature_new_path full_path;
    fi ← feature_get feat;
    name ← chip_name_get (fst fi);
    seq ← lift (sensors_get_all_subfeatures B name (snd fi));
    match cursor_find seq (fun sub => String.eqb (sub_name sub) sub_name')
            0 with
    | Some sub => mret (subfeature_impl feat sub)
    | None =>
        run_destructor (feature_delete feat);;
        lift (throw parse_error ("Subfeature not found: " ++ sub_name'))
    end.

(** [subfeature::subfeature(path)] *)
Definition subfeature_new (path : string) : W _sensors_impl :=
  i ← subfeature_impl_find path;
  box i.

End Entities.

(** The heap after a feature, or a subfeature, has been built on [h]
    from a path: one control block for each entity on the way, each
    at the first free address. *)
Definition feature_blocks (h : heap) (f : feature) : _sensors_impl * heap :=
  let l1 := fresh (dom h) in
  let h1 := <[l1 := sole (chip_impl (m_chip f))]> h in
  let l2 := fresh (dom h1) in
  ({| m_impl := l2 |},
   <[l2 := sole (feature_impl {| m_impl := l1 |} (feature_rec f))]> h1).

Definition subfeature_blocks (h : heap) (s : subfeature)
  : _sensors_impl * heap :=
  let '(feat, h2) := feature_blocks h (m_feature s) in
  let l3 := fresh (dom h2) in
  ({| m_impl := l3 |},
   <[l3 := sole (subfeature_impl feat (subfeature_rec s))]> h2).

(** What the accessors of an entity read through its handle: the
    record of a chip; for a feature its record and what [chip()]
    reads; for a subfeature its record and what [feature()] reads. *)
Definition chip_name_view (h : heap) (e : _sensors_impl) : option chip_name :=
  match sensors_impl_get e h with
  | Some (chip_impl name) => Some name
  | _ => None
  end.

Definition feature_view (h : heap) (e : _sensors_impl) : option feature :=
  match sensors_impl_get e h with
  | Some (feature_impl chip f) =>
      match chip_name_view h chip with
      | Some c => Some {| m_chip := c; feature_rec := f |}
      | None => None
      end
  | _ => None
  end.

Definition subfeature_view (h : heap) (e : _sensors_impl) : option subfeature :=
  match sensors_impl_get e h with
  | Some (subfeature_impl feat s) =>
      match feature_view h feat with
      | Some f => Some {| m_feature := f; subfeature_rec := s |}
      | None => None
      end
  | _ => None
  end.

(** A Super-I/O chip with features whose names contain an underscore,
    and the text libsensors prints for chip names. *)
Module Board.
Local Open Scope Z_scope.

Definition it8712 : sensors_chip_name :=
  {| chip_prefix := "it8712";
     chip_bus := {| bus_type_code := 1; bus_nr := 0 |};
     chip_addr := 656;
     chip_path := "/sys/class/hwmon/hwmon2" |}.

Definition in0 : sensors_feature :=
  {| feat_name := "in0"; feat_number := 0; feat_type := 0 |}.
Definition cpu0_vid : sensors_feature :=
  {| feat_name := "cpu0_vid"; feat_number := 1; feat_type := 16 |}.
Definition beep_enable : sensors_feature :=
  {| feat_name := "beep_enable"; feat_number := 2; feat_type := 24 |}.

Definition in0_input := Sample.sub "in0_input" 0 0.
Definition in0_min := Sample.sub "in0_min" 1 1.
Definition cpu0_vid_sub := Sample.sub "cpu0_vid" 2 4096.
Definition beep_enable_sub :=
  {| sub_name := "beep_enable"; sub_number := 3; sub_type := 6144;
     sub_flags := 3 |}.

Definition subfeatures_of (c : sensors_chip_name) (f : sensors_feature)
  : list sensors_subfeature :=
  if String.eqb (feat_name f) "in0" then [in0_input; in0_min]
  else if String.eqb (feat_name f) "cpu0_vid" then [cpu0_vid_sub]
  else if String.eqb (feat_name f) "beep_enable" then [beep_enable_sub]
  else [].

Definition sysfs : boundary :=
  {| fopen_errno := fopen_errno Sample.sysfs;
     strerror := strerror Sample.sysfs;
     sensors_strerror := sensors_strerror Sample.sysfs;
     init_result := init_result Sample.sysfs;
     proc_chips := fun _ => [it8712];
     chip_features := fun _ _ => [in0; cpu0_vid; beep_enable];
     chip_subfeatures := fun _ => subfeatures_of |}.

Definition modes : mode_flags :=
  {| SENSORS_MODE_R := 1; SENSORS_MODE_W := 2; SENSORS_COMPUTE_MAPPING := 4 |}.

(** Chip names print as prefix, bus and address. *)
Definition chip_text (c : sensors_chip_name) : string :=
  if String.eqb (chip_prefix c) "it8712" then "it8712-isa-0290"
  else if String.eqb (chip_prefix c) "coretemp" then "coretemp-isa-0000"
  else "".

Definition printer (c : sensors_chip_name) (size : nat) : Z * string :=
  if String.eqb (chip_prefix c) "*" then (-1, EmptyString)
  else snprintf (chip_text c) size.

End Board.
(** * Properties *)

(** ** Strings *)

Lemma rfind_None c s : Str.rfind c s = None <-> Str.contains c s = false.
Proof.
  induction s as [|a s IH]; simpl; [tauto|].
  destruct (Str.rfind c s) as [i|].
  - split; [discriminate|]. intros H. apply orb_false_iff in H as [_ H].
    apply IH in H. discriminate.
  - destruct (Ascii.eqb a c); simpl; [split; discriminate|].
    split; intros _; [apply IH|]; reflexivity.
Qed.

Lemma rfind_app c a b :
  Str.contains c b = false ->
  Str.rfind c (a ++ String c b) = Some (String.length a).
Proof.
  intros Hb. induction a as [|x a IH]; simpl.
  - apply rfind_None in Hb. rewrite Hb, Ascii.eqb_refl. reflexivity.
  - rewrite IH. reflexivity.
Qed.

Lemma rfind_Some c s i :
  Str.rfind c s = Some i ->
  exists a b, s = a ++ String c b /\ String.length a = i /\
              Str.contains c b = false.
Proof.
  revert i. induction s as [|x s IH]; simpl; intros i H; [discriminate|].
  destruct (Str.rfind c s) as [j|] eqn:E.
  - inversion H; subst. destruct (IH j eq_refl) as (a & b & -> & <- & Hb).
    exists (String x a), b. auto.
  - destruct (Ascii.eqb_spec x c); inversion H; subst.
    exists "", s. simpl. repeat split. apply rfind_None, E.
Qed.

Lemma substring_0_app a b : Str.substr 0 (String.length a) (a ++ b) = a.
Proof.
  unfold Str.substr. induction a as [|x a IH]; simpl.
  - destruct b; reflexivity.
  - rewrite IH. reflexivity.
Qed.

Lemma substring_all s : Str.substr 0 (String.length s) s = s.
Proof.
  unfold Str.substr. induction s as [|x s IH]; simpl; [|rewrite IH]; reflexivity.
Qed.

Lemma length_app a b : String.length (a ++ b) = String.length a + String.length b.
Proof. induction a; simpl; auto. Qed.

Lemma substring_tail a c b :
  Str.substr (S (String.length a))
    (String.length (a ++ String c b) - S (String.length a)) (a ++ String c b) = b.
Proof.
  rewrite length_app. simpl.
  replace (String.length a + S (String.length b) - S (String.length a))
    with (String.length b) by lia.
  unfold Str.substr. induction a as [|x a IH]; simpl.
  - apply substring_all.
  - exact IH.
Qed.

(** The feature name candidate: the text before the last underscore. *)
Lemma feat_name_of_split a b :
  Str.contains "_" b = false -> feat_name_of (a ++ String "_" b) = a.
Proof.
  intros Hb. unfold feat_name_of. rewrite rfind_app by exact Hb.
  apply substring_0_app.
Qed.

Lemma feat_name_of_whole s :
  Str.contains "_" s = false -> feat_name_of s = s.
Proof.
  intros H. unfold feat_name_of. apply rfind_None in H. rewrite H. reflexivity.
Qed.

Lemma filename_app d n :
  Str.contains fs.sep n = false -> fs.filename (d ++ String fs.sep n) = n.
Proof.
  intros Hn. unfold fs.filename. rewrite rfind_app by exact Hn.
  apply substring_tail.
Qed.

Lemma filename_no_sep n :
  Str.contains fs.sep n = false -> fs.filename n = n.
Proof.
  intros H. unfold fs.filename. apply rfind_None in H. rewrite H. reflexivity.
Qed.

Lemma has_relative_path_app d x :
  fs.has_relative_path d = true -> fs.has_relative_path (d ++ x) = true.
Proof.
  induction d as [|a d IH]; simpl; [discriminate|].
  intros H. apply orb_true_iff in H as [H|H].
  - rewrite H. reflexivity.
  - rewrite IH by exact H. apply orb_true_r.
Qed.

Lemma has_relative_path_nonempty d :
  fs.has_relative_path d = true -> Str.empty d = false.
Proof. destruct d; simpl; [discriminate|reflexivity]. Qed.

(** The parent of [d/n] is [d] when [d] names something and does not end
    with a separator. *)
Lemma parent_path_app d n :
  Str.contains fs.sep n = false ->
  fs.has_relative_path d = true ->
  fs.rstrip_sep d = d ->
  fs.parent_path (d ++ String fs.sep n) = d.
Proof.
  intros Hn Hd Hstrip. unfold fs.parent_path.
  rewrite has_relative_path_app by exact Hd. simpl negb. cbv iota.
  rewrite rfind_app by exact Hn. rewrite substring_0_app. cbv zeta.
  rewrite Hstrip, (has_relative_path_nonempty _ Hd). reflexivity.
Qed.

(** ** Path decomposition *)

Lemma app_cons x (a b : string) : String x a ++ b = String x (a ++ b).
Proof. reflexivity. Qed.

Lemma app_empty_r (a : string) : a ++ "" = a.
Proof.
  induction a as [|x a IH]; [reflexivity|]. rewrite app_cons, IH. reflexivity.
Qed.

Lemma app_assoc_string (a b c : string) : (a ++ b) ++ c = a ++ (b ++ c).
Proof.
  induction a as [|x a IH]; [reflexivity|].
  change (String x ((a ++ b) ++ c) = String x (a ++ b ++ c)).
  rewrite IH. reflexivity.
Qed.

Lemma fill_snoc k c n : Str.fill (S k) c ++ n = Str.fill k c ++ String c n.
Proof.
  induction k as [|k IH]; [reflexivity|].
  change (Str.fill (S (S k)) c) with (String c (Str.fill (S k) c)).
  rewrite app_cons, IH. reflexivity.
Qed.

Lemma has_relative_path_fill k : fs.has_relative_path (Str.fill k fs.sep) = false.
Proof. induction k as [|k IH]; [reflexivity|]. simpl. exact IH. Qed.

Lemma rstrip_sep_fill k : fs.rstrip_sep (Str.fill k fs.sep) = "".
Proof. induction k as [|k IH]; [reflexivity|]. simpl. rewrite IH. reflexivity. Qed.

Lemma has_relative_path_app_r d x :
  fs.has_relative_path x = true -> fs.has_relative_path (d ++ x) = true.
Proof.
  intros H. induction d as [|a d IH]; [exact H|].
  rewrite app_cons. simpl. rewrite IH. apply orb_true_r.
Qed.

Lemma has_relative_path_name n :
  n <> "" -> Str.contains fs.sep n = false -> fs.has_relative_path n = true.
Proof.
  destruct n as [|a n]; [congruence|]. intros _ H. simpl in *.
  apply orb_false_iff in H as [H _]. rewrite H. reflexivity.
Qed.

Lemma has_relative_path_none p :
  fs.has_relative_path p = false -> Str.contains fs.sep p = false -> p = "".
Proof.
  destruct p as [|a p]; [reflexivity|]. simpl. intros H1 H2.
  apply orb_false_iff in H1 as [H1 _]. apply orb_false_iff in H2 as [H2 _].
  rewrite H2 in H1. discriminate.
Qed.

Lemma rstrip_sep_dir d c k :
  c <> fs.sep ->
  fs.rstrip_sep (d ++ String c (Str.fill k fs.sep)) = d ++ String c "".
Proof.
  intros Hc.
  assert (Hbase : fs.rstrip_sep (String c (Str.fill k fs.sep)) = String c "").
  { simpl. rewrite rstrip_sep_fill. simpl.
    destruct (Ascii.eqb_spec c fs.sep); [contradiction|reflexivity]. }
  induction d as [|a d IH]; [exact Hbase|].
  rewrite app_cons. simpl. rewrite IH. destruct d; reflexivity.
Qed.

(** A path is of one of four shapes; [filename()] and [parent_path()]
    on each. *)
Lemma path_below_directory d c k n :
  c <> fs.sep -> Str.contains fs.sep n = false ->
  let p := d ++ String c (Str.fill (S k) fs.sep ++ n) in
  fs.filename p = n /\ fs.parent_path p = d ++ String c "".
Proof.
  intros Hc Hn p. subst p. rewrite fill_snoc.
  replace (d ++ String c (Str.fill k fs.sep ++ String fs.sep n))
    with ((d ++ String c (Str.fill k fs.sep)) ++ String fs.sep n)
    by (rewrite app_assoc_string; reflexivity).
  split; [apply filename_app, Hn|].
  unfold fs.parent_path.
  assert (Hrel : fs.has_relative_path (d ++ String c (Str.fill k fs.sep)) = true).
  { apply has_relative_path_app_r. simpl.
    destruct (Ascii.eqb_spec c fs.sep); [contradiction|reflexivity]. }
  rewrite (has_relative_path_app _ _ Hrel). cbn [negb].
  rewrite rfind_app by exact Hn. rewrite substring_0_app. cbv zeta.
  rewrite rstrip_sep_dir by exact Hc.
  destruct d; reflexivity.
Qed.

Lemma path_below_root k n :
  n <> "" -> Str.contains fs.sep n = false ->
  let p := Str.fill (S k) fs.sep ++ n in
  fs.filename p = n /\ fs.parent_path p = "/".
Proof.
  intros Hne Hn p. subst p. rewrite fill_snoc.
  split; [apply filename_app, Hn|].
  unfold fs.parent_path.
  rewrite has_relative_path_app_r
    by (simpl; apply (has_relative_path_name n Hne Hn)).
  cbn [negb]. rewrite rfind_app by exact Hn. rewrite substring_0_app. cbv zeta.
  rewrite rstrip_sep_fill. reflexivity.
Qed.

Lemma path_single_name p :
  Str.contains fs.sep p = false ->
  fs.filename p = p /\ fs.parent_path p = "".
Proof.
  intros H. split; [apply filename_no_sep, H|].
  unfold fs.parent_path. destruct (fs.has_relative_path p) eqn:E; cbn [negb].
  - apply rfind_None in H. rewrite H. reflexivity.
  - apply has_relative_path_none; assumption.
Qed.

Lemma path_only_separators k :
  let p := Str.fill k fs.sep in
  fs.filename p = "" /\ fs.parent_path p = p.
Proof.
  intros p. subst p. split.
  - destruct k as [|k]; [reflexivity|].
    rewrite <- (app_empty_r (Str.fill (S k) fs.sep)).
    rewrite fill_snoc. apply filename_app. reflexivity.
  - unfold fs.parent_path. rewrite has_relative_path_fill. reflexivity.
Qed.


(** The four shapes cover every path. *)
Lemma path_shapes p :
  (exists k, p = Str.fill k fs.sep) \/
  Str.contains fs.sep p = false \/
  (exists k n, n <> "" /\ Str.contains fs.sep n = false /\
               p = Str.fill (S k) fs.sep ++ n) \/
  (exists d c k n, c <> fs.sep /\ Str.contains fs.sep n = false /\
                   p = d ++ String c (Str.fill (S k) fs.sep ++ n)).
Proof.
  induction p as [|a p IH]; [left; exists 0; reflexivity|].
  destruct (Ascii.eqb_spec a fs.sep) as [->|Ha].
  - destruct IH as [(k & ->)|[Hno|[(k & n & Hne & Hn & ->)|(d & c & k & n & Hc & Hn & ->)]]].
    + left. exists (S k). reflexivity.
    + destruct p as [|b p].
      * left. exists 1. reflexivity.
      * right. right. left. exists 0, (String b p). repeat split; [discriminate|exact Hno].
    + right. right. left. exists (S k), n. repeat split; assumption.
    + right. right. right. exists (String fs.sep d), c, k, n. repeat split; assumption.
  - destruct IH as [(k & ->)|[Hno|[(k & n & Hne & Hn & ->)|(d & c & k & n & Hc & Hn & ->)]]].
    + destruct k as [|k].
      * right. left. simpl. destruct (Ascii.eqb_spec a fs.sep); [contradiction|reflexivity].
      * right. right. right. exists "", a, k, "". repeat split; [exact Ha|].
        rewrite app_empty_r. reflexivity.
    + right. left. simpl. rewrite Hno.
      destruct (Ascii.eqb_spec a fs.sep); [contradiction|reflexivity].
    + right. right. right. exists "", a, k, n. repeat split; assumption.
    + right. right. right. exists (String a d), c, k, n. repeat split; assumption.
Qed.

(** ** Lists and cursor loops *)

Lemma skipn_nth_error {A} (l : list A) n x :
  nth_error l n = Some x -> skipn n l = x :: skipn (S n) l.
Proof.
  revert l. induction n as [|n IH]; intros [|y l] H; simpl in *; try discriminate.
  - rewrite skipn_O. congruence.
  - apply IH in H. exact H.
Qed.

Lemma cursor_next_Some {A} (seq : list A) nr a nr' :
  cursor_next seq nr = (Some a, nr') -> nr' = S nr /\ nth_error seq nr = Some a.
Proof.
  unfold cursor_next. destruct (nth_error seq nr) eqn:E; intros H; inversion H.
  subst. auto.
Qed.

Lemma cursor_next_None {A} (seq : list A) nr nr' :
  cursor_next seq nr = (None, nr') -> length seq <= nr.
Proof.
  unfold cursor_next. destruct (nth_error seq nr) eqn:E; intros H; [discriminate|].
  apply nth_error_None, E.
Qed.

(** A find loop returns the first element from the cursor on that
    passes the test. *)
Lemma cursor_find_skipn {A} (seq : list A) p nr :
  cursor_find seq p nr = find p (skipn nr seq).
Proof.
  funelim (cursor_find seq p nr).
  - destruct (cursor_next_Some _ _ _ _ e) as (Hnr & Hn).
    rewrite Hnr in H |- *.
    rewrite (skipn_nth_error _ _ _ Hn). simpl.
    destruct (p x); auto.
  - pose proof (cursor_next_None _ _ _ e) as Hlen. rewrite skipn_all2 by lia. reflexivity.
Qed.

Lemma cursor_find_all {A} (seq : list A) p :
  cursor_find seq p 0 = find p seq.
Proof. rewrite cursor_find_skipn, skipn_O. reflexivity. Qed.

(** A collecting loop appends the image of everything from the cursor on. *)
Lemma cursor_collect_skipn {A C} (seq : list A) (f : A -> C) nr out :
  cursor_collect seq f nr out = (out ++ map f (skipn nr seq))%list.
Proof.
  funelim (cursor_collect seq f nr out).
  - destruct (cursor_next_Some _ _ _ _ e) as (Hnr & Hn).
    rewrite Hnr in H |- *.
    rewrite H, (skipn_nth_error _ _ _ Hn). simpl.
    rewrite <- app_assoc. reflexivity.
  - pose proof (cursor_next_None _ _ _ e) as Hlen. rewrite skipn_all2 by lia. simpl.
    rewrite app_nil_r. reflexivity.
Qed.

Lemma cursor_collect_all {A C} (seq : list A) (f : A -> C) :
  cursor_collect seq f 0 [] = map f seq.
Proof. rewrite cursor_collect_skipn, skipn_O. reflexivity. Qed.

Lemma find_pointwise {A} (p q : A -> bool) l :
  (forall x, p x = q x) -> find p l = find q l.
Proof.
  intros E. induction l as [|x l IH]; simpl; [reflexivity|].
  rewrite E, IH. reflexivity.
Qed.

(** [find] returns the first element that passes the test. *)
Lemma find_first {A} (p : A -> bool) l x :
  find p l = Some x <->
  exists before after,
    l = (before ++ x :: after)%list /\ p x = true /\
    Forall (fun y => p y = false) before.
Proof.
  induction l as [|y l IH]; simpl.
  - split; [discriminate|]. intros ([|? ?] & after & H & _); discriminate.
  - destruct (p y) eqn:Ey.
    + split.
      * intros H. inversion H; subst. exists [], l. auto.
      * intros ([|z before] & after & H & Hx & Hb); inversion H; subst; auto.
        inversion Hb; subst. congruence.
    + rewrite IH. split.
      * intros (before & after & -> & Hx & Hb).
        exists (y :: before), after. auto.
      * intros ([|z before] & after & H & Hx & Hb); inversion H; subst.
        -- congruence.
        -- inversion Hb; subst. eauto.
Qed.

Lemma find_nothing {A} (p : A -> bool) l :
  find p l = None <-> Forall (fun y => p y = false) l.
Proof.
  induction l as [|y l IH]; simpl.
  - split; auto.
  - destruct (p y) eqn:Ey.
    + split; [discriminate|]. intros H. inversion H; congruence.
    + rewrite IH. split; [auto|]. intros H. inversion H; auto.
Qed.

Lemma find_first_prop {A} (p : A -> bool) (P : A -> Prop) l x :
  (forall y, p y = true <-> P y) ->
  find p l = Some x <->
  exists before after,
    l = (before ++ x :: after)%list /\ P x /\ Forall (fun y => ~ P y) before.
Proof.
  intros HP. rewrite find_first. 
  assert (HF : forall b, Forall (fun y => p y = false) b <->
                         Forall (fun y => ~ P y) b).
  { intros b. rewrite !List.Forall_forall. split; intros H y Hy.
    - rewrite <- HP. rewrite (H y Hy). discriminate.
    - specialize (H y Hy). rewrite <- HP in H. destruct (p y); congruence. }
  split; intros (before & after & Hl & Hx & Hb); exists before, after;
    (split; [exact Hl|]); (split; [apply HP, Hx|apply HF, Hb]).
Qed.

Lemma find_nothing_prop {A} (p : A -> bool) (P : A -> Prop) l :
  (forall y, p y = true <-> P y) ->
  find p l = None <-> Forall (fun y => ~ P y) l.
Proof.
  intros HP. rewrite find_nothing. rewrite !List.Forall_forall.
  split; intros H y Hy.
  - rewrite <- HP. rewrite (H y Hy). discriminate.
  - specialize (H y Hy). rewrite <- HP in H. destruct (p y); congruence.
Qed.

(** ** Running the monad *)

Ltac run :=
  cbv beta iota zeta delta
    [mbind M_bind mret M_ret gets log throw undefined set_handle set_loaded
     set_errno std_fopen std_fclose sensors_init sensors_cleanup error_of_code
     libsensors_handle_new libsensors_handle_delete get_handle handle_reset
     load_config sensors_get_detected_chips sensors_get_features
     sensors_get_all_subfeatures served]; cbn [fst snd].

Section Lifecycle.
Variable B : boundary.

(** *** The constructor of [libsensors_handle] *)

Lemma new_open_fails path st e :
  Str.empty path = false ->
  fopen_errno B path = Some e ->
  libsensors_handle_new B path st =
    (Throw {| kind := init_error;
              what := "Failed to open config file (" ++ strerror B e ++ ")" |},
     {| handle := handle st; loaded := loaded st; errno := e;
        calls := calls st ++ [Call_fopen path] |}).
Proof.
  intros He Hf. run. rewrite He, Hf. reflexivity.
Qed.

Lemma new_init_fails path st :
  let cfg := fopen_stream B path in
  (Str.empty path = true \/ fopen_errno B path = None) ->
  init_result B cfg <> 0%Z ->
  libsensors_handle_new B path st =
    (Throw {| kind := init_error;
              what := sensors_strerror B (init_result B cfg) |},
     {| handle := handle st; loaded := None;
        errno := if Str.empty path then ENOENT else errno st;
        calls := calls st ++ [Call_fopen path; Call_sensors_init cfg] |}).
Proof.
  intros cfg Hopen Hinit. subst cfg. unfold fopen_stream in *. run.
  destruct (Str.empty path) eqn:He; simpl.
  - apply Z.eqb_neq in Hinit. rewrite Hinit. simpl.
    rewrite <- app_assoc. reflexivity.
  - destruct Hopen as [Hopen|Hopen]; [discriminate|].
    rewrite Hopen in *. simpl.
    apply Z.eqb_neq in Hinit. rewrite Hinit. simpl.
    rewrite <- app_assoc. reflexivity.
Qed.

Lemma new_ok path st :
  let cfg := fopen_stream B path in
  (Str.empty path = true \/ fopen_errno B path = None) ->
  init_result B cfg = 0%Z ->
  libsensors_handle_new B path st =
    (Ret {| m_path := path; m_config := cfg |},
     {| handle := handle st; loaded := Some cfg;
        errno := if Str.empty path then ENOENT else errno st;
        calls := calls st ++ [Call_fopen path; Call_sensors_init cfg] |}).
Proof.
  intros cfg Hopen Hinit. subst cfg. unfold fopen_stream in *. run.
  destruct (Str.empty path) eqn:He; simpl.
  - rewrite Hinit. simpl. rewrite <- app_assoc. reflexivity.
  - destruct Hopen as [Hopen|Hopen]; [discriminate|].
    rewrite Hopen in *. simpl. rewrite Hinit. simpl.
    rewrite <- app_assoc. reflexivity.
Qed.

(** The constructor never reports undefined behaviour and only throws
    [init_error]. *)
Lemma new_cases path st :
  (exists h st', libsensors_handle_new B path st = (Ret h, st') /\
                 m_path h = path /\ loaded st' = Some (m_config h) /\
                 handle st' = handle st) \/
  (exists msg st', libsensors_handle_new B path st =
                     (Throw {| kind := init_error; what := msg |}, st') /\
                   handle st' = handle st /\
                   (loaded st' = None \/ loaded st' = loaded st)).
Proof.
  destruct (Str.empty path) eqn:He.
  - destruct (Z.eq_dec (init_result B (fopen_stream B path)) 0%Z) as [Hi|Hi].
    + left. eexists _, _. rewrite new_ok by auto. simpl. auto.
    + right. eexists _, _. rewrite new_init_fails by auto. simpl. auto.
  - destruct (fopen_errno B path) as [e|] eqn:Hf.
    + right. eexists _, _. rewrite (new_open_fails _ _ e) by auto. simpl. auto.
    + destruct (Z.eq_dec (init_result B (fopen_stream B path)) 0%Z) as [Hi|Hi].
      * left. eexists _, _. rewrite new_ok by auto. simpl. auto.
      * right. eexists _, _. rewrite new_init_fails by auto. simpl. auto.
Qed.

(** *** [get_handle] *)

Lemma get_handle_constructed st p :
  handle st = Holds p -> get_handle B st = (Ret p, st).
Proof. intros H. run. rewrite H. reflexivity. Qed.

Lemma get_handle_first_use st :
  handle st = Unconstructed ->
  init_result B None = 0%Z ->
  get_handle B st =
    (Ret (Some {| m_path := ""; m_config := None |}),
     {| handle := Holds (Some {| m_path := ""; m_config := None |});
        loaded := Some None; errno := ENOENT;
        calls := calls st ++ [Call_fopen ""; Call_sensors_init None] |}).
Proof.
  intros H Hi. run. rewrite H. simpl. rewrite Hi. simpl.
  rewrite <- app_assoc. reflexivity.
Qed.

Lemma get_handle_first_use_fails st :
  handle st = Unconstructed ->
  init_result B None <> 0%Z ->
  get_handle B st =
    (Throw {| kind := init_error;
              what := sensors_strerror B (init_result B None) |},
     {| handle := Unconstructed; loaded := None; errno := ENOENT;
        calls := calls st ++ [Call_fopen ""; Call_sensors_init None] |}).
Proof.
  intros H Hi. run. rewrite H. simpl. apply Z.eqb_neq in Hi. rewrite Hi. simpl.
  rewrite H, <- app_assoc. reflexivity.
Qed.

(** *** [load_config] *)

Lemma load_config_same path st h :
  handle st = Holds (Some h) ->
  path = m_path h ->
  load_config B path st = (Ret tt, st).
Proof.
  intros H ->. unfold load_config, mbind, M_bind.
  rewrite (get_handle_constructed _ _ H). rewrite String.eqb_refl. reflexivity.
Qed.

Lemma handle_reset_run st h :
  handle_reset (Some h) st = (Ret tt, torn_down st h).
Proof.
  unfold torn_down. run.
  destruct h as [hp [f|]]; simpl; [rewrite <- app_assoc|]; reflexivity.
Qed.

Lemma load_config_switch path st h :
  handle st = Holds (Some h) ->
  path <> m_path h ->
  load_config B path st =
    (h' ← libsensors_handle_new B path; set_handle (Holds (Some h')))
      (torn_down st h).
Proof.
  intros H Hp. unfold load_config, mbind at 1, M_bind at 1.
  rewrite (get_handle_constructed _ _ H).
  apply String.eqb_neq in Hp. rewrite Hp. cbn [negb].
  unfold mbind at 1, M_bind at 1. rewrite handle_reset_run. reflexivity.
Qed.

(** On first use [load_config] constructs the default handle before it
    compares paths. *)
Lemma load_config_first_use path st :
  handle st = Unconstructed ->
  init_result B None = 0%Z ->
  load_config B path st =
    load_config B path
      {| handle := Holds (Some {| m_path := ""; m_config := None |});
         loaded := Some None; errno := ENOENT;
         calls := calls st ++ [Call_fopen ""; Call_sensors_init None] |}.
Proof.
  intros H Hi. unfold load_config, mbind, M_bind.
  rewrite (get_handle_first_use st H Hi).
  rewrite (get_handle_constructed
             {| handle := Holds (Some {| m_path := ""; m_config := None |});
                loaded := Some None; errno := ENOENT;
                calls := calls st ++ [Call_fopen ""; Call_sensors_init None] |}
             (Some {| m_path := ""; m_config := None |}) eq_refl).
  reflexivity.
Qed.

(** For the empty path the constructor hands [sensors_init] no stream,
    whatever becomes of the call. *)
Lemma new_empty_path st :
  exists r st',
    libsensors_handle_new B "" st = (r, st') /\
    calls st' = (calls st ++ [Call_fopen ""; Call_sensors_init None])%list.
Proof.
  destruct (Z.eq_dec (init_result B None) 0%Z) as [Hi|Hi].
  - eexists _, _. rewrite new_ok by (simpl; auto). split; reflexivity.
  - eexists _, _. rewrite new_init_fails by (simpl; auto). split; reflexivity.
Qed.

End Lifecycle.

(** ** Configuration (re)loading *)

Section Configuration.
Variable B : boundary.

(** C4: [load_config] with the active path changes nothing and calls
    nothing; with another path it first destroys the active handle
    ([sensors_cleanup], then [fclose] of an open configuration stream,
    leaving the pointer null and the library uninitialised) and then
    constructs a handle for the new path; the empty path passes no
    stream to [sensors_init]. *)
Theorem load_config_reconfigures (path : string) (st : state)
  (h : libsensors_handle) :
  handle st = Holds (Some h) ->
  (path = m_path h -> load_config B path st = (Ret tt, st)) /\
  (path <> m_path h ->
     load_config B path st =
       (h' ← libsensors_handle_new B path; set_handle (Holds (Some h')))
         (torn_down st h) /\
     handle (torn_down st h) = Holds None /\
     loaded (torn_down st h) = None /\
     (exists more,
        calls (snd (load_config B path st)) =
          (calls (torn_down st h) ++ Call_fopen path :: more)%list) /\
     ((Str.empty path = true \/ fopen_errno B path = None) ->
      init_result B (fopen_stream B path) = 0%Z ->
      load_config B path st =
        (Ret tt,
         {| handle := Holds (Some {| m_path := path;
                                     m_config := fopen_stream B path |});
            loaded := Some (fopen_stream B path);
            errno := if Str.empty path then ENOENT else errno st;
            calls := (calls (torn_down st h) ++
                        [Call_fopen path;
                         Call_sensors_init (fopen_stream B path)])%list |}))) /\
  (fopen_stream B "" = None /\
   exists r st',
     libsensors_handle_new B "" (torn_down st h) = (r, st') /\
     calls st' =
       (calls (torn_down st h) ++ [Call_fopen ""; Call_sensors_init None])%list).
Proof.
  intros H. split; [|split].
  - intros Hp. exact (load_config_same B path st h H Hp).
  - intros Hp. pose proof (load_config_switch B path st h H Hp) as Hrun.
    split; [exact Hrun|]. split; [reflexivity|]. split; [reflexivity|].
    split.
    + rewrite Hrun. unfold mbind, M_bind.
      destruct (Str.empty path) eqn:He.
      * destruct (Z.eq_dec (init_result B (fopen_stream B path)) 0%Z) as [Hi|Hi].
        -- rewrite new_ok by auto. simpl. eauto.
        -- rewrite new_init_fails by auto. simpl. eauto.
      * destruct (fopen_errno B path) as [e|] eqn:Hf.
        -- rewrite (new_open_fails _ _ _ e) by auto. simpl. eauto.
        -- destruct (Z.eq_dec (init_result B (fopen_stream B path)) 0%Z)
             as [Hi|Hi].
           ++ rewrite new_ok by auto. simpl. eauto.
           ++ rewrite new_init_fails by auto. simpl. eauto.
    + intros Hopen Hi. rewrite Hrun. unfold mbind, M_bind.
      rewrite new_ok by auto. reflexivity.
  - split; [reflexivity|]. apply new_empty_path.
Qed.

(** C7: construction of the global handle for a non-empty path that
    [fopen] cannot open throws [init_error] with the [strerror] text of
    the [errno] in its message; when [sensors_init] returns a non-zero
    code it throws [init_error] with [sensors_strerror] of that code.
    Both reach the caller of [get_handle] (first use) and of
    [load_config]. *)
Theorem init_failures_raise_init_error (path : string) (st : state) :
  (forall e,
     Str.empty path = false -> fopen_errno B path = Some e ->
     fst (libsensors_handle_new B path st) =
       Throw {| kind := init_error;
                what := "Failed to open config file (" ++ strerror B e ++ ")" |}) /\
  ((Str.empty path = true \/ fopen_errno B path = None) ->
   init_result B (fopen_stream B path) <> 0%Z ->
   fst (libsensors_handle_new B path st) =
     Throw {| kind := init_error;
              what := sensors_strerror B (init_result B (fopen_stream B path)) |}) /\
  (handle st = Unconstructed -> init_result B None <> 0%Z ->
   fst (get_handle B st) =
     Throw {| kind := init_error;
              what := sensors_strerror B (init_result B None) |}) /\
  (forall h e,
     handle st = Holds (Some h) -> path <> m_path h ->
     Str.empty path = false -> fopen_errno B path = Some e ->
     fst (load_config B path st) =
       Throw {| kind := init_error;
                what := "Failed to open config file (" ++ strerror B e ++ ")" |}) /\
  (forall h,
     handle st = Holds (Some h) -> path <> m_path h ->
     (Str.empty path = true \/ fopen_errno B path = None) ->
     init_result B (fopen_stream B path) <> 0%Z ->
     fst (load_config B path st) =
       Throw {| kind := init_error;
                what := sensors_strerror B (init_result B (fopen_stream B path)) |}).
Proof.
  repeat split.
  - intros e He Hf. rewrite (new_open_fails _ _ _ e) by auto. reflexivity.
  - intros Hopen Hi. rewrite new_init_fails by auto. reflexivity.
  - intros H Hi. rewrite get_handle_first_use_fails by auto. reflexivity.
  - intros h e H Hp He Hf. rewrite (load_config_switch _ _ _ h) by auto.
    unfold mbind, M_bind. rewrite (new_open_fails _ _ _ e) by auto.
    reflexivity.
  - intros h H Hp Hopen Hi. rewrite (load_config_switch _ _ _ h) by auto.
    unfold mbind, M_bind. rewrite new_init_fails by auto. reflexivity.
Qed.

(** C10: when [load_config] is called with a path other than the
    active one and the new handle cannot be constructed, the call
    throws [init_error] after the old handle has been destroyed: the
    pointer stays null, the library is uninitialised and serves no
    chips, and the old configuration is not restored. *)
Theorem load_config_failure_not_atomic (path : string) (st : state)
  (h : libsensors_handle) :
  handle st = Holds (Some h) ->
  path <> m_path h ->
  (Str.empty path = false /\ (exists e, fopen_errno B path = Some e)) \/
  ((Str.empty path = true \/ fopen_errno B path = None) /\
   init_result B (fopen_stream B path) <> 0%Z) ->
  exists msg st',
    load_config B path st = (Throw {| kind := init_error; what := msg |}, st') /\
    handle st' = Holds None /\
    loaded st' = None /\
    served (proc_chips B) st' = [] /\
    (exists more,
       calls st' = (calls (torn_down st h) ++ Call_fopen path :: more)%list /\
       forall cfg, In (Call_sensors_init cfg) more ->
                   init_result B cfg <> 0%Z).
Proof.
  intros H Hp Hfail. rewrite (load_config_switch _ _ _ h) by auto.
  unfold mbind, M_bind.
  destruct Hfail as [(He & e & Hf)|(Hopen & Hi)].
  - rewrite (new_open_fails _ _ _ e) by auto.
    eexists _, _. split; [reflexivity|]. simpl.
    repeat split. exists []. split; [reflexivity|]. intros cfg [].
  - rewrite new_init_fails by auto.
    eexists _, _. split; [reflexivity|]. simpl.
    repeat split. exists [Call_sensors_init (fopen_stream B path)].
    split; [reflexivity|]. intros cfg [E|[]]. inversion E; subst. exact Hi.
Qed.

End Configuration.

(** ** Lookups by path *)

Section Lookup.
Variable B : boundary.
Variable N : native_codes.

Lemma rfind_at0_prefix path pat :
  bool_decide (Str.rfind_at0 path pat = Some 0) = String.prefix pat path.
Proof.
  unfold Str.rfind_at0. destruct (String.prefix pat path).
  - apply bool_decide_eq_true. reflexivity.
  - apply bool_decide_eq_false. discriminate.
Qed.

(** The state after an enumeration has been consulted. *)
Lemma served_log {A} (f : option string -> list A) c st :
  served f (snd (log c st)) = served f st.
Proof. reflexivity. Qed.

Lemma chip_name_find_throws path st e st1 :
  get_handle B st = (Throw e, st1) ->
  chip_name_find B path st = (Throw e, st1).
Proof.
  intros H. unfold chip_name_find, mbind at 1, M_bind at 1. rewrite H.
  reflexivity.
Qed.

Lemma chip_name_find_run path st p st1 :
  get_handle B st = (Ret p, st1) ->
  chip_name_find B path st =
    (match find (fun c => String.prefix (chip_path c) path)
             (served (proc_chips B) st1) with
     | Some c => Ret c
     | None => Throw {| kind := parse_error;
                        what := "No chip found at " ++ path |}
     end,
     snd (log Call_get_detected_chips st1)).
Proof.
  intros H. unfold chip_name_find, mbind at 1, M_bind at 1. rewrite H.
  run. rewrite cursor_find_all.
  rewrite (find_pointwise _ (fun c => String.prefix (chip_path c) path))
    by (intros c; apply rfind_at0_prefix).
  destruct (find _ _); reflexivity.
Qed.

Lemma feature_find_run cp name st chip st1 :
  chip_name_find B cp st = (Ret chip, st1) ->
  feature_find B cp name st =
    (match find (fun f => String.eqb (feat_name f) name)
             (served (fun cfg => chip_features B cfg chip) st1) with
     | Some f => Ret {| m_chip := chip; feature_rec := f |}
     | None => Throw {| kind := parse_error;
                        what := "Feature " ++ name ++ " not found on chip "
                                ++ chip_prefix chip |}
     end,
     snd (log (Call_get_features chip) st1)).
Proof.
  intros H. unfold feature_find, mbind at 1, M_bind at 1. rewrite H.
  run. rewrite cursor_find_all. destruct (find _ _); reflexivity.
Qed.

Lemma feature_find_throws cp name st e st1 :
  chip_name_find B cp st = (Throw e, st1) ->
  feature_find B cp name st = (Throw e, st1).
Proof.
  intros H. unfold feature_find, mbind at 1, M_bind at 1. rewrite H.
  reflexivity.
Qed.

Lemma subfeature_find_run path st feat st1 :
  fs.has_filename path = true ->
  feature_find_path B path st = (Ret feat, st1) ->
  subfeature_find B path st =
    (match find (fun s => String.eqb (sub_name s) (fs.filename path))
             (served (fun cfg => chip_subfeatures B cfg (m_chip feat)
                                   (feature_rec feat)) st1) with
     | Some s => Ret {| m_feature := feat; subfeature_rec := s |}
     | None => Throw {| kind := parse_error;
                        what := "Subfeature not found: " ++ fs.filename path |}
     end,
     snd (log (Call_get_all_subfeatures (m_chip feat) (feature_rec feat)) st1)).
Proof.
  intros Hf H. unfold subfeature_find. rewrite Hf. cbn [negb].
  unfold mbind at 1, M_bind at 1. rewrite H.
  run. rewrite cursor_find_all. destruct (find _ _); reflexivity.
Qed.

Lemma subfeature_find_throws path st :
  fs.has_filename path = true ->
  forall e st1,
    feature_find_path B path st = (Throw e, st1) ->
    subfeature_find B path st = (Throw e, st1).
Proof.
  intros Hf e st1 H. unfold subfeature_find. rewrite Hf. cbn [negb].
  unfold mbind at 1, M_bind at 1. rewrite H. reflexivity.
Qed.

Lemma prefix_refl s : String.prefix s s = true.
Proof. induction s as [|a s IH]; simpl; [reflexivity|].
       destruct (ascii_dec a a); [exact IH|congruence]. Qed.

Lemma prefix_app_r a b r :
  String.prefix a b = true -> String.prefix a (b ++ r) = true.
Proof.
  revert b. induction a as [|x a IH]; intros b.
  { intros _. destruct (b ++ r); reflexivity. }
  destruct b as [|y b]; simpl; [discriminate|].
  destruct (ascii_dec x y); [apply IH|discriminate].
Qed.

(** C2 (as amended): after [get_handle] has run (constructing the
    global handle on first use, and passing on its [init_error]),
    [find] returns the first enumerated chip whose path is a prefix of
    the argument and throws [parse_error] exactly when there is none.
    A path below the directory of an enumerated chip resolves to the
    same chip as the chip's own path provided every enumerated chip
    path that is a prefix of the deeper path is also a prefix of the
    chip's own path. *)
Theorem chip_lookup_by_prefix (path : string) (st : state) :
  (handle st = Unconstructed -> init_result B None = 0%Z ->
   exists st1,
     get_handle B st = (Ret (Some {| m_path := ""; m_config := None |}), st1) /\
     loaded st1 = Some None) /\
  (forall e st1,
     get_handle B st = (Throw e, st1) ->
     chip_name_find B path st = (Throw e, st1)) /\
  (forall p st1,
     get_handle B st = (Ret p, st1) ->
     let chips := served (proc_chips B) st1 in
     let st2 := snd (log Call_get_detected_chips st1) in
     (forall c,
        chip_name_find B path st = (Ret c, st2) <->
        exists before after,
          chips = (before ++ c :: after)%list /\
          String.prefix (chip_path c) path = true /\
          Forall (fun c' => String.prefix (chip_path c') path = false) before) /\
     (chip_name_find B path st =
        (Throw {| kind := parse_error; what := "No chip found at " ++ path |},
         st2) <->
      Forall (fun c => String.prefix (chip_path c) path = false) chips) /\
     (forall c0 rest,
        In c0 chips ->
        path = chip_path c0 ++ "/" ++ rest ->
        (forall c, In c chips ->
                   String.prefix (chip_path c) path = true ->
                   String.prefix (chip_path c) (chip_path c0) = true) ->
        exists c,
          chip_name_find B path st = (Ret c, st2) /\
          chip_name_find B (chip_path c0) st = (Ret c, st2))).
Proof.
  split; [|split].
  - intros H Hi. rewrite get_handle_first_use by assumption.
    eexists. split; reflexivity.
  - intros e st1 H. apply chip_name_find_throws, H.
  - intros p st1 H chips st2. subst chips st2.
    rewrite (chip_name_find_run path st p st1 H).
    split; [|split].
    + intros c.
      etransitivity;
        [|exact (find_first (fun c => String.prefix (chip_path c) path) _ c)].
      destruct (find _ _) as [c'|]; split; intros E; inversion E; subst;
        reflexivity.
    + etransitivity;
        [|exact (find_nothing (fun c => String.prefix (chip_path c) path) _)].
      destruct (find _ _) as [c'|]; split; intros E; inversion E; subst;
        reflexivity.
    + intros c0 rest Hin Hpath Hnest.
      rewrite (chip_name_find_run (chip_path c0) st p st1 H).
      set (chips := served (proc_chips B) st1) in *.
      assert (Hsame : find (fun c => String.prefix (chip_path c) path) chips =
                      find (fun c => String.prefix (chip_path c) (chip_path c0))
                        chips).
      { assert (Hpre : forall c, String.prefix (chip_path c) (chip_path c0) = true ->
                                 String.prefix (chip_path c) path = true).
        { intros c Hc. rewrite Hpath. apply prefix_app_r, Hc. }
        clear Hin. induction chips as [|c chips IH]; simpl; [reflexivity|].
        destruct (String.prefix (chip_path c) path) eqn:E1.
        - rewrite (Hnest c (or_introl eq_refl) E1). reflexivity.
        - destruct (String.prefix (chip_path c) (chip_path c0)) eqn:E2.
          + rewrite (Hpre c E2) in E1. discriminate.
          + apply IH. intros c' Hc'. apply Hnest. right. exact Hc'. }
      rewrite Hsame. clear Hsame.
      destruct (find (fun c => String.prefix (chip_path c) (chip_path c0)) chips)
        as [c|] eqn:E.
      * exists c. split; reflexivity.
      * exfalso. apply find_nothing in E.
        rewrite List.Forall_forall in E. specialize (E c0 Hin).
        rewrite prefix_refl in E. discriminate.
Qed.

(** C3: [find(full_path)] takes the filename of the path, which is
    the text after its last separator, cuts it at its last underscore
    (the whole filename when it has none) and looks the result up on
    the chip found for the parent directory, which is the text before
    the separators in front of the filename (the root directory when
    nothing but separators precedes it, the empty path when the path
    has no separator, and the path itself when it has nothing but
    separators): the first enumerated feature of that chip with exactly
    that name, or [parse_error] with the chip's prefix in the message;
    when no chip is found for the parent directory, the error of the
    chip lookup names that directory. *)
Theorem feature_lookup_by_full_path (full_path : string) (st : state) :
  let filename := fs.filename full_path in
  let candidate := feat_name_of filename in
  let chip_dir := fs.parent_path full_path in
  (forall d c k n,
     full_path = d ++ String c (Str.fill (S k) "/" ++ n) ->
     c <> "/"%char -> Str.contains "/" n = false ->
     filename = n /\ chip_dir = d ++ String c "") /\
  (forall k n,
     full_path = Str.fill (S k) "/" ++ n ->
     n <> "" -> Str.contains "/" n = false ->
     filename = n /\ chip_dir = "/") /\
  (Str.contains "/" full_path = false ->
   filename = full_path /\ chip_dir = "") /\
  (forall k,
     full_path = Str.fill k "/" -> filename = "" /\ chip_dir = full_path) /\
  (Str.contains "_" filename = false -> candidate = filename) /\
  (forall a b,
     filename = a ++ "_" ++ b -> Str.contains "_" b = false ->
     candidate = a) /\
  feature_find_path B full_path st = feature_find B chip_dir candidate st /\
  (forall e st1,
     chip_name_find B chip_dir st = (Throw e, st1) ->
     feature_find_path B full_path st = (Throw e, st1)) /\
  (forall p st1,
     get_handle B st = (Ret p, st1) ->
     Forall (fun c => String.prefix (chip_path c) chip_dir = false)
       (served (proc_chips B) st1) ->
     feature_find_path B full_path st =
       (Throw {| kind := parse_error;
                 what := "No chip found at " ++ chip_dir |},
        snd (log Call_get_detected_chips st1))) /\
  (forall chip st1,
     chip_name_find B chip_dir st = (Ret chip, st1) ->
     let feats := served (fun cfg => chip_features B cfg chip) st1 in
     let st2 := snd (log (Call_get_features chip) st1) in
     (forall f,
        feature_find_path B full_path st =
          (Ret {| m_chip := chip; feature_rec := f |}, st2) <->
        exists before after,
          feats = (before ++ f :: after)%list /\
          feat_name f = candidate /\
          Forall (fun f' => feat_name f' <> candidate) before) /\
     (feature_find_path B full_path st =
        (Throw {| kind := parse_error;
                  what := "Feature " ++ candidate ++ " not found on chip "
                          ++ chip_prefix chip |}, st2) <->
      Forall (fun f => feat_name f <> candidate) feats)).
Proof.
  intros filename candidate chip_dir. subst filename candidate chip_dir.
  split; [|split; [|split; [|split; [|split; [|split; [|split; [|split;
    [|split]]]]]]]].
  - intros d c k n -> Hc Hn. apply path_below_directory; assumption.
  - intros k n -> Hne Hn. apply path_below_root; assumption.
  - apply path_single_name.
  - intros k ->. apply path_only_separators.
  - apply feat_name_of_whole.
  - intros a b -> Hb. apply feat_name_of_split, Hb.
  - reflexivity.
  - intros e st1 H. unfold feature_find_path. apply feature_find_throws, H.
  - intros p st1 Hg Hnone. unfold feature_find_path.
    apply feature_find_throws.
    rewrite (chip_name_find_run _ _ _ _ Hg).
    apply find_nothing in Hnone. rewrite Hnone. reflexivity.
  - intros chip st1 H feats st2. subst feats st2.
    unfold feature_find_path. rewrite (feature_find_run _ _ _ _ _ H).
    set (cand := feat_name_of (fs.filename full_path)).
    split.
    + intros f.
      etransitivity;
        [|exact (find_first_prop (fun f => String.eqb (feat_name f) cand)
                   (fun f => feat_name f = cand) _ f
                   (fun y => String.eqb_eq (feat_name y) cand))].
      destruct (find _ _) as [f'|]; split; intros E; inversion E; subst;
        reflexivity.
    + etransitivity;
        [|exact (find_nothing_prop (fun f => String.eqb (feat_name f) cand)
                   (fun f => feat_name f = cand) _
                   (fun y => String.eqb_eq (feat_name y) cand))].
      destruct (find _ _) as [f'|]; split; intros E; inversion E; subst;
        reflexivity.
Qed.

(** C5: [find] for subfeatures throws [parse_error] at once when the
    path has no filename; otherwise it resolves the feature from the
    same path (passing on its error) and returns the first enumerated
    subfeature of that feature whose name is the whole filename, or
    throws [parse_error] when there is none. *)
Theorem subfeature_lookup_by_full_path (full_path : string) (st : state) :
  (fs.has_filename full_path = false ->
   subfeature_find B full_path st =
     (Throw {| kind := parse_error;
               what := "Path does not contain filename: " ++ full_path |},
      st)) /\
  (fs.has_filename full_path = true ->
   (forall e st1,
      feature_find_path B full_path st = (Throw e, st1) ->
      subfeature_find B full_path st = (Throw e, st1)) /\
   (forall feat st1,
      feature_find_path B full_path st = (Ret feat, st1) ->
      let subs := served (fun cfg => chip_subfeatures B cfg (m_chip feat)
                                       (feature_rec feat)) st1 in
      let st2 := snd (log (Call_get_all_subfeatures (m_chip feat)
                             (feature_rec feat)) st1) in
      (forall s,
         subfeature_find B full_path st =
           (Ret {| m_feature := feat; subfeature_rec := s |}, st2) <->
         exists before after,
           subs = (before ++ s :: after)%list /\
           sub_name s = fs.filename full_path /\
           Forall (fun s' => sub_name s' <> fs.filename full_path) before) /\
      (subfeature_find B full_path st =
         (Throw {| kind := parse_error;
                   what := "Subfeature not found: " ++ fs.filename full_path |},
          st2) <->
       Forall (fun s => sub_name s <> fs.filename full_path) subs))).
Proof.
  split.
  - intros Hf. unfold subfeature_find. rewrite Hf. reflexivity.
  - intros Hf. split.
    + intros e st1 H. unfold subfeature_find. rewrite Hf. cbn [negb].
      unfold mbind at 1, M_bind at 1. rewrite H. reflexivity.
    + intros feat st1 H subs st2. subst subs st2.
      rewrite (subfeature_find_run _ _ _ _ Hf H).
      set (name := fs.filename full_path).
      split.
      * intros s.
        etransitivity;
          [|exact (find_first_prop (fun s => String.eqb (sub_name s) name)
                     (fun s => sub_name s = name) _ s
                     (fun y => String.eqb_eq (sub_name y) name))].
        destruct (find _ _) as [s'|]; split; intros E; inversion E; subst;
          reflexivity.
      * etransitivity;
          [|exact (find_nothing_prop (fun s => String.eqb (sub_name s) name)
                     (fun s => sub_name s = name) _
                     (fun y => String.eqb_eq (sub_name y) name))].
        destruct (find _ _) as [s'|]; split; intros E; inversion E; subst;
          reflexivity.
Qed.

(** *** Enumeration *)

Lemma get_detected_chips_run st p st1 :
  get_handle B st = (Ret p, st1) ->
  get_detected_chips B st =
    (Ret (served (proc_chips B) st1), snd (log Call_get_detected_chips st1)).
Proof.
  intros H. unfold get_detected_chips, mbind at 1, M_bind at 1. rewrite H.
  run. rewrite cursor_collect_all, map_id. reflexivity.
Qed.

Lemma chip_name_features_run c st :
  chip_name_features B c st =
    (Ret (map (fun feat => {| m_chip := c; feature_rec := feat |})
            (served (fun cfg => chip_features B cfg c) st)),
     snd (log (Call_get_features c) st)).
Proof.
  unfold chip_name_features. run. rewrite cursor_collect_all. reflexivity.
Qed.

Lemma feature_subfeatures_run f st :
  feature_subfeatures B f st =
    (Ret (map (fun sub => {| m_feature := f; subfeature_rec := sub |})
            (served (fun cfg => chip_subfeatures B cfg (m_chip f)
                                  (feature_rec f)) st)),
     snd (log (Call_get_all_subfeatures (m_chip f) (feature_rec f)) st)).
Proof.
  unfold feature_subfeatures. run. rewrite cursor_collect_all. reflexivity.
Qed.

Lemma subfeature_type_beq_eq a b :
  subfeature_type_beq a b = true <-> a = b.
Proof.
  split; [apply internal_subfeature_type_dec_bl
         |apply internal_subfeature_type_dec_lb].
Qed.

(** C9: [f.subfeature(t)] is the first element of [f.subfeatures()]
    whose [type()] is [t], and is empty exactly when no element has
    that type. *)
Theorem subfeature_by_type (f : feature) (t : subfeature_type) (st : state) :
  exists subs st' r,
    feature_subfeatures B f st = (Ret subs, st') /\
    feature_subfeature B N f t st = (Ret r, st') /\
    (forall s,
       r = Some s <->
       exists before after,
         subs = (before ++ s :: after)%list /\
         subfeature_get_type N s = t /\
         Forall (fun s' => subfeature_get_type N s' <> t) before) /\
    (r = None <-> Forall (fun s => subfeature_get_type N s <> t) subs).
Proof.
  eexists _, _, _. split; [apply feature_subfeatures_run|].
  split.
  - unfold feature_subfeature, mbind, M_bind.
    rewrite feature_subfeatures_run. reflexivity.
  - split.
    + intros s.
      apply (find_first_prop
               (fun sf => subfeature_type_beq (subfeature_get_type N sf) t)
               (fun sf => subfeature_get_type N sf = t)).
      intros y. apply subfeature_type_beq_eq.
    + apply (find_nothing_prop
               (fun sf => subfeature_type_beq (subfeature_get_type N sf) t)
               (fun sf => subfeature_get_type N sf = t)).
      intros y. apply subfeature_type_beq_eq.
Qed.

(** *** Resolving the path of an enumerated subfeature *)

Lemma empty_app_false a c b : Str.empty (a ++ String c b) = false.
Proof. destruct a; reflexivity. Qed.

(** The round trip succeeds for a subfeature whose name is its
    feature's name, an underscore and a suffix without underscore,
    when the chip and the feature are the first matches of their own
    path and name. *)
Lemma roundtrip_single_suffix st p st1 c f s suffix :
  get_handle B st = (Ret p, st1) ->
  find (fun c' => String.prefix (chip_path c') (chip_path c))
    (served (proc_chips B) st1) = Some c ->
  find (fun f' => String.eqb (feat_name f') (feat_name f))
    (served (fun cfg => chip_features B cfg c) st1) = Some f ->
  find (fun s' => String.eqb (sub_name s') (sub_name s))
    (served (fun cfg => chip_subfeatures B cfg c f) st1) = Some s ->
  sub_name s = feat_name f ++ "_" ++ suffix ->
  Str.contains "_" suffix = false ->
  Str.contains fs.sep (sub_name s) = false ->
  fs.has_relative_path (chip_path c) = true ->
  fs.rstrip_sep (chip_path c) = chip_path c ->
  fst (subfeature_find B (chip_path c ++ "/" ++ sub_name s) st) =
    Ret {| m_feature := {| m_chip := c; feature_rec := f |};
           subfeature_rec := s |}.
Proof.
  intros Hh Hc Hf Hs Hname Hsuf Hsep Hrel Hstrip.
  change (chip_path c ++ "/" ++ sub_name s)
    with (chip_path c ++ String fs.sep (sub_name s)).
  set (full := chip_path c ++ String fs.sep (sub_name s)).
  assert (Hfile : fs.filename full = sub_name s) by (apply filename_app, Hsep).
  assert (Hparent : fs.parent_path full = chip_path c)
    by (apply parent_path_app; assumption).
  assert (Hhas : fs.has_filename full = true).
  { unfold fs.has_filename. rewrite Hfile, Hname.
    change (feat_name f ++ "_" ++ suffix)
      with (feat_name f ++ String "_" suffix).
    rewrite empty_app_false. reflexivity. }
  assert (Hcand : feat_name_of (fs.filename full) = feat_name f).
  { rewrite Hfile, Hname. apply feat_name_of_split, Hsuf. }
  assert (Hchip : chip_name_find B (chip_path c) st =
                  (Ret c, snd (log Call_get_detected_chips st1))).
  { rewrite (chip_name_find_run _ _ _ _ Hh), Hc. reflexivity. }
  assert (Hfeat : feature_find_path B full st =
                  (Ret {| m_chip := c; feature_rec := f |},
                   snd (log (Call_get_features c)
                          (snd (log Call_get_detected_chips st1))))).
  { unfold feature_find_path. rewrite Hparent, Hcand.
    rewrite (feature_find_run _ _ _ _ _ Hchip).
    rewrite served_log, Hf. reflexivity. }
  rewrite (subfeature_find_run _ _ _ _ Hhas Hfeat).
  rewrite Hfile. cbn [m_chip feature_rec fst].
  rewrite !served_log, Hs. reflexivity.
Qed.

(** It throws whenever the text before the last underscore of the
    subfeature's name is not the name of a feature of the chip, as for
    every subfeature with an underscore in its suffix. *)
Lemma roundtrip_compound_suffix_throws st p st1 c s stem suffix :
  get_handle B st = (Ret p, st1) ->
  find (fun c' => String.prefix (chip_path c') (chip_path c))
    (served (proc_chips B) st1) = Some c ->
  sub_name s = stem ++ "_" ++ suffix ->
  Str.contains "_" suffix = false ->
  Str.contains fs.sep (sub_name s) = false ->
  fs.has_relative_path (chip_path c) = true ->
  fs.rstrip_sep (chip_path c) = chip_path c ->
  Forall (fun f => feat_name f <> stem)
    (served (fun cfg => chip_features B cfg c) st1) ->
  fst (subfeature_find B (chip_path c ++ "/" ++ sub_name s) st) =
    Throw {| kind := parse_error;
             what := "Feature " ++ stem ++ " not found on chip "
                     ++ chip_prefix c |}.
Proof.
  intros Hh Hc Hname Hsuf Hsep Hrel Hstrip Hnone.
  change (chip_path c ++ "/" ++ sub_name s)
    with (chip_path c ++ String fs.sep (sub_name s)).
  set (full := chip_path c ++ String fs.sep (sub_name s)).
  assert (Hfile : fs.filename full = sub_name s) by (apply filename_app, Hsep).
  assert (Hparent : fs.parent_path full = chip_path c)
    by (apply parent_path_app; assumption).
  assert (Hhas : fs.has_filename full = true).
  { unfold fs.has_filename. rewrite Hfile, Hname.
    change (stem ++ "_" ++ suffix) with (stem ++ String "_" suffix).
    rewrite empty_app_false. reflexivity. }
  assert (Hcand : feat_name_of (fs.filename full) = stem).
  { rewrite Hfile, Hname. apply feat_name_of_split, Hsuf. }
  assert (Hchip : chip_name_find B (chip_path c) st =
                  (Ret c, snd (log Call_get_detected_chips st1))).
  { rewrite (chip_name_find_run _ _ _ _ Hh), Hc. reflexivity. }
  rewrite (subfeature_find_throws full st Hhas
             {| kind := parse_error;
                what := "Feature " ++ stem ++ " not found on chip "
                        ++ chip_prefix c |}
             (snd (log (Call_get_features c)
                     (snd (log Call_get_detected_chips st1)))));
    [reflexivity|].
  unfold feature_find_path. rewrite Hparent, Hcand.
  rewrite (feature_find_run _ _ _ _ _ Hchip). rewrite served_log.
  apply (find_nothing_prop (fun f => String.eqb (feat_name f) stem)
           (fun f => feat_name f = stem)) in Hnone;
    [|intros y; apply String.eqb_eq].
  rewrite Hnone. reflexivity.
Qed.

End Lookup.

(** ** The [type()] switches *)

Section SwitchFacts.
Context {K R : Type}.
Variable code : K -> Z.

Lemma case_matches_false v labels :
  (forall k, In k labels -> code k <> v) -> case_matches code v labels = false.
Proof.
  intros H. unfold case_matches. induction labels as [|k ls IH]; simpl.
  - reflexivity.
  - rewrite IH by (intros k' Hk'; apply H; right; exact Hk').
    rewrite orb_false_r. apply Z.eqb_neq, H. left. reflexivity.
Qed.

Lemma case_matches_true v labels :
  case_matches code v labels = true <-> exists k, In k labels /\ code k = v.
Proof.
  unfold case_matches. rewrite existsb_exists.
  split; intros (k & Hk & E); exists k; (split; [exact Hk|]);
    apply Z.eqb_eq, E.
Qed.

(** A value no label has takes the [default] branch. *)
Lemma switch_default (cases : list (list K * R)) default v :
  ~ recognised code cases v -> switch code cases default v = default.
Proof.
  intros Hn. unfold switch.
  destruct (find _ cases) as [c|] eqn:E; [|reflexivity].
  exfalso. apply find_some in E as [Hin Hm].
  apply case_matches_true in Hm as (k & Hk & Ek).
  apply Hn. exists k. split; [|exact Ek].
  unfold switch_labels. apply in_concat. exists (fst c).
  split; [apply in_map, Hin|exact Hk].
Qed.

(** With distinct label values, the value of a label takes the branch
    of the group the label is in. *)
Lemma switch_case (cases : list (list K * R)) default labels r k :
  NoDup (map code (switch_labels cases)) ->
  In (labels, r) cases -> In k labels ->
  switch code cases default (code k) = r.
Proof.
  unfold switch, switch_labels.
  induction cases as [|[ls r'] cases IH]; simpl; intros Hnd Hin Hk; [tauto|].
  rewrite map_app in Hnd.
  destruct (case_matches code (code k) ls) eqn:E.
  - destruct Hin as [Hin|Hin]; [inversion Hin; reflexivity|].
    exfalso. apply case_matches_true in E as (k' & Hk' & Ek').
    apply NoDup_app in Hnd as (_ & Hdis & _).
    apply (Hdis (code k)).
    + apply list_elem_of_In. rewrite <- Ek'. apply in_map, Hk'.
    + apply list_elem_of_In, in_map, in_concat. exists labels.
      split; [|exact Hk]. apply (in_map fst) in Hin. exact Hin.
  - destruct Hin as [Hin|Hin].
    + inversion Hin; subst. exfalso.
      assert (case_matches code (code k) labels = true)
        by (apply case_matches_true; eauto).
      congruence.
    + apply IH; [|exact Hin|exact Hk].
      apply NoDup_app in Hnd as (_ & _ & Hnd). exact Hnd.
Qed.
End SwitchFacts.

(** C6 (as amended): each [type()] runs the native code through its
    switch; a code that is the value of none of the case labels yields
    [unknown] for features and subfeatures and [any] for buses, whose
    enumeration has no [unknown] value; with distinct label values a
    label's code yields the value of its case. *)
Theorem type_fallback_for_unrecognised_codes (N : native_codes)
  (b : sensors_bus_id) (f : sensors_feature) (s : sensors_subfeature) :
  (~ recognised (bus_code N) bus_type_cases (bus_type_code b) ->
   bus_id_type N b = bus_any) /\
  (~ recognised (feature_code N) feature_type_cases (feat_type f) ->
   feature_type_of N f = ft_unknown) /\
  (~ recognised (subfeature_code N) subfeature_type_cases (sub_type s) ->
   subfeature_type_of N s = st_unknown) /\
  (forall t : bus_type, bus_type_name t <> "unknown") /\
  (forall labels r k,
     NoDup (map (bus_code N) (switch_labels bus_type_cases)) ->
     In (labels, r) bus_type_cases -> In k labels ->
     bus_type_code b = bus_code N k -> bus_id_type N b = r) /\
  (forall labels r k,
     NoDup (map (feature_code N) (switch_labels feature_type_cases)) ->
     In (labels, r) feature_type_cases -> In k labels ->
     feat_type f = feature_code N k -> feature_type_of N f = r) /\
  (forall labels r k,
     NoDup (map (subfeature_code N) (switch_labels subfeature_type_cases)) ->
     In (labels, r) subfeature_type_cases -> In k labels ->
     sub_type s = subfeature_code N k -> subfeature_type_of N s = r).
Proof.
  split; [|split; [|split; [|split; [|split; [|split]]]]].
  - apply switch_default.
  - apply switch_default.
  - apply switch_default.
  - intros []; discriminate.
  - intros labels r k Hnd Hin Hk E. unfold bus_id_type. rewrite E.
    apply (switch_case _ _ _ labels); assumption.
  - intros labels r k Hnd Hin Hk E. unfold feature_type_of. rewrite E.
    apply (switch_case _ _ _ labels); assumption.
  - intros labels r k Hnd Hin Hk E. unfold subfeature_type_of. rewrite E.
    apply (switch_case _ _ _ labels); assumption.
Qed.

(** ** Copying entities *)

Section Sharing.
Context {I : Type}.
Implicit Types (e : @_sensors_impl) (h : gmap loc (control_block I)).

Lemma copy_lookup e h l :
  snd (sensors_impl_copy e h) !! l =
    if decide (l = m_impl e)
    then (fun cb => {| object := object cb; use_count := S (use_count cb) |})
           <$> (h !! l)
    else h !! l.
Proof.
  unfold sensors_impl_copy, shared_ptr_copy. simpl.
  destruct (decide (l = m_impl e)) as [->|Hne].
  - apply lookup_alter_eq.
  - apply lookup_alter_ne. congruence.
Qed.

(** C8: copying an entity leaves the global state, and with it the
    log of boundary calls, as it was; the copy holds the address of
    the same control block; nothing is allocated and no [impl] on the
    heap changes, so every accessor gives the same result through the
    copy and through the original, before and after; only the use
    count of the shared block grows by one. *)
Theorem copy_shares_handle e (st : state) h (cb : control_block I) :
  h !! m_impl e = Some cb ->
  exists e' h',
    entity_copy e (st, h) = (e', (st, h')) /\
    m_impl e' = m_impl e /\
    dom h' = dom h /\
    (forall l, object <$> (h' !! l) = object <$> (h !! l)) /\
    sensors_impl_get e' h' = Some (object cb) /\
    sensors_impl_get e h' = sensors_impl_get e h /\
    (forall X (member : I -> X),
       accessor member e' h' = accessor member e h /\
       accessor member e h' = accessor member e h) /\
    use_count <$> (h' !! m_impl e) = Some (S (use_count cb)).
Proof.
  intros Hcb.
  exists {| m_impl := m_impl e |}, (snd (sensors_impl_copy e h)).
  assert (Hobj : forall l, object <$> (snd (sensors_impl_copy e h) !! l) =
                           object <$> (h !! l)).
  { intros l. rewrite copy_lookup. destruct (decide (l = m_impl e)); [|done].
    destruct (h !! l); reflexivity. }
  assert (Hget : sensors_impl_get e (snd (sensors_impl_copy e h)) =
                 sensors_impl_get e h) by apply Hobj.
  split; [reflexivity|]. split; [reflexivity|].
  split; [apply dom_alter_L|]. split; [exact Hobj|].
  split; [|split; [exact Hget|split]].
  - unfold sensors_impl_get. simpl. rewrite Hobj, Hcb. reflexivity.
  - intros X member. unfold accessor.
    change (sensors_impl_get {| m_impl := m_impl e |}
              (snd (sensors_impl_copy e h)))
      with (sensors_impl_get e (snd (sensors_impl_copy e h))).
    rewrite Hget. split; reflexivity.
  - rewrite copy_lookup, decide_True by reflexivity. rewrite Hcb. reflexivity.
Qed.

End Sharing.

(** ** The properties on the sample system *)

(** C1: on the sample system the subfeature [temp1_crit_alarm] is
    enumerated from feature [temp1] of chip [coretemp], itself
    enumerated by [get_detected_chips]; resolving the chip's path, a
    separator and the subfeature's name does not give the subfeature
    back: the filename is cut at its last underscore, the feature
    [temp1_crit] is looked for and [parse_error] is thrown. *)
Theorem roundtrip_fails_for_two_part_suffix :
  let f := {| m_chip := Sample.coretemp; feature_rec := Sample.temp1 |} in
  let s := {| m_feature := f; subfeature_rec := Sample.temp1_crit_alarm |} in
  exists st1 st2 st3 st4 chips feats subs,
    get_detected_chips Sample.sysfs initial_state = (Ret chips, st1) /\
    In Sample.coretemp chips /\
    chip_name_features Sample.sysfs Sample.coretemp st1 = (Ret feats, st2) /\
    In f feats /\
    feature_subfeatures Sample.sysfs f st2 = (Ret subs, st3) /\
    In s subs /\
    subfeature_find Sample.sysfs
      (chip_path Sample.coretemp ++ "/" ++ subfeature_name s) st3 =
      (Throw {| kind := parse_error;
                what := "Feature temp1_crit not found on chip coretemp" |},
       st4).
Proof.
  cbv zeta. eexists _, _, _, _, _, _, _.
  split; [vm_compute; reflexivity|].
  split; [right; left; reflexivity|].
  split; [vm_compute; reflexivity|].
  split; [left; reflexivity|].
  split; [vm_compute; reflexivity|].
  split; [do 3 right; left; reflexivity|].
  vm_compute. reflexivity.
Qed.

(** The same subfeature path resolves when the suffix has one part. *)
Example roundtrip_temp1_input :
  fst (subfeature_find Sample.sysfs "/sys/class/hwmon/hwmon1/temp1_input"
         initial_state) =
  Ret {| m_feature := {| m_chip := Sample.coretemp;
                         feature_rec := Sample.temp1 |};
         subfeature_rec := Sample.temp1_input |}.
Proof.
  apply (roundtrip_single_suffix Sample.sysfs initial_state
           (Some {| m_path := ""; m_config := None |}) Sample.running
           Sample.coretemp Sample.temp1 Sample.temp1_input "input");
    reflexivity.
Qed.

(** With an eleventh hwmon device, the path of a subfeature of
    [hwmon10] is resolved on [hwmon1], whose path is a prefix. *)
Example roundtrip_resolves_on_prefix_chip :
  In Sample.k10temp (served (proc_chips Sample.crowded) Sample.running) /\
  In Sample.temp3_input
    (served (fun cfg => chip_subfeatures Sample.crowded cfg Sample.k10temp
                          Sample.temp3) Sample.running) /\
  fst (chip_name_find Sample.crowded (chip_path Sample.k10temp) Sample.running) =
    Ret Sample.coretemp /\
  fst (subfeature_find Sample.crowded
         (chip_path Sample.k10temp ++ "/" ++ sub_name Sample.temp3_input)
         Sample.running) =
    Throw {| kind := parse_error;
             what := "Feature temp3 not found on chip coretemp" |}.
Proof.
  split; [do 2 right; left; reflexivity|].
  split; [left; reflexivity|].
  split; vm_compute; reflexivity.
Qed.

(** C2, the claim as stated fails: [acpitz] is enumerated with path
    [/sys/class/hwmon/hwmon0]; a path below that directory resolves to
    the chip [inner], the chip's own path to [acpitz]. *)
Lemma nested_chip_paths_split_lookup :
  In Sample.acpitz (served (proc_chips Sample.nested) Sample.running) /\
  fst (chip_name_find Sample.nested
         (chip_path Sample.acpitz ++ "/" ++ "device/temp1_input")
         Sample.running) = Ret Sample.inner /\
  fst (chip_name_find Sample.nested (chip_path Sample.acpitz) Sample.running) =
    Ret Sample.acpitz /\
  Sample.inner <> Sample.acpitz.
Proof.
  split; [right; left; reflexivity|].
  split; [vm_compute; reflexivity|].
  split; [vm_compute; reflexivity|].
  discriminate.
Qed.

Lemma chip_lookup_by_prefix_witness :
  get_handle Sample.sysfs initial_state =
    (Ret (Some {| m_path := ""; m_config := None |}), Sample.running) /\
  chip_name_find Sample.sysfs "/sys/class/hwmon/hwmon1/temp1_input"
    initial_state =
    (Ret Sample.coretemp, snd (log Call_get_detected_chips Sample.running)) /\
  chip_name_find Sample.sysfs "/sys/class/hwmon/hwmon1" initial_state =
    (Ret Sample.coretemp, snd (log Call_get_detected_chips Sample.running)) /\
  chip_name_find Sample.sysfs "/sys/class/hwmon/hwmon7/temp1_input"
    initial_state =
    (Throw {| kind := parse_error;
              what := "No chip found at /sys/class/hwmon/hwmon7/temp1_input" |},
     snd (log Call_get_detected_chips Sample.running)).
Proof.
  assert (Hh : get_handle Sample.sysfs initial_state =
               (Ret (Some {| m_path := ""; m_config := None |}), Sample.running))
    by reflexivity.
  split; [exact Hh|].
  destruct (chip_lookup_by_prefix Sample.sysfs
              "/sys/class/hwmon/hwmon1/temp1_input" initial_state)
    as (_ & _ & Hrun).
  destruct (Hrun _ _ Hh) as (_ & _ & Hdeep).
  destruct (Hdeep Sample.coretemp "temp1_input") as (c & Hc1 & Hc2).
  - right; left; reflexivity.
  - reflexivity.
  - intros c [<-|[<-|[]]]; vm_compute; [discriminate|reflexivity].
  - destruct (chip_lookup_by_prefix Sample.sysfs
                "/sys/class/hwmon/hwmon7/temp1_input" initial_state)
      as (_ & _ & Hrun7).
    destruct (Hrun7 _ _ Hh) as (_ & Hnone & _).
    assert (Hc : c = Sample.coretemp).
    { assert (E : chip_name_find Sample.sysfs (chip_path Sample.coretemp)
                    initial_state =
                  (Ret Sample.coretemp,
                   snd (log Call_get_detected_chips Sample.running)))
        by reflexivity.
      rewrite Hc2 in E. inversion E. reflexivity. }
    rewrite Hc in Hc1, Hc2.
    split; [exact Hc1|]. split; [exact Hc2|].
    apply Hnone. repeat constructor.
Defined.

Lemma feature_lookup_by_full_path_witness :
  fs.filename "/sys/class/hwmon/hwmon1/temp2_input" = "temp2_input" /\
  fs.parent_path "/sys/class/hwmon/hwmon1/temp2_input" =
    "/sys/class/hwmon/hwmon1" /\
  feat_name_of (fs.filename "/sys/class/hwmon/hwmon1/temp2_input") = "temp2" /\
  feature_find_path Sample.sysfs "/sys/class/hwmon/hwmon1/temp2_input"
    initial_state =
    (Ret {| m_chip := Sample.coretemp; feature_rec := Sample.temp2 |},
     snd (log (Call_get_features Sample.coretemp)
            (snd (log Call_get_detected_chips Sample.running)))) /\
  feature_find_path Sample.sysfs "/sys/class/hwmon/hwmon1/fan1" initial_state =
    (Throw {| kind := parse_error;
              what := "Feature fan1 not found on chip coretemp" |},
     snd (log (Call_get_features Sample.coretemp)
            (snd (log Call_get_detected_chips Sample.running)))) /\
  feature_find_path Sample.sysfs "/sys/class/hwmon/hwmon7/temp1_input"
    initial_state =
    (Throw {| kind := parse_error;
              what := "No chip found at /sys/class/hwmon/hwmon7" |},
     snd (log Call_get_detected_chips Sample.running)) /\
  fs.parent_path "/sys/class/hwmon//hwmon1///temp2_input" =
    "/sys/class/hwmon//hwmon1" /\
  fs.parent_path "/temp2_input" = "/" /\
  fs.parent_path "temp2_input" = "".
Proof.
  destruct (feature_lookup_by_full_path Sample.sysfs
              "/sys/class/hwmon/hwmon1/temp2_input" initial_state)
    as (Hshape & _ & _ & _ & _ & Hcut & _ & _ & _ & Hrun).
  destruct (Hshape "/sys/class/hwmon/hwmon" "1"%char 0 "temp2_input" eq_refl)
    as (Hname & Hdir); [discriminate|reflexivity|].
  split; [exact Hname|]. split; [exact Hdir|].
  split; [apply (Hcut "temp2" "input"); [rewrite Hname|]; reflexivity|].
  split.
  { destruct (Hrun Sample.coretemp
                (snd (log Call_get_detected_chips Sample.running)))
      as (Hsome & _); [rewrite Hdir; reflexivity|].
    apply Hsome. exists [Sample.temp1], [].
    split; [reflexivity|]. split; [reflexivity|].
    constructor; [discriminate|constructor]. }
  split.
  { destruct (feature_lookup_by_full_path Sample.sysfs
                "/sys/class/hwmon/hwmon1/fan1" initial_state)
      as (_ & _ & _ & _ & _ & _ & _ & _ & _ & Hfan).
    destruct (Hfan Sample.coretemp
                (snd (log Call_get_detected_chips Sample.running)) eq_refl)
      as (_ & Hnone).
    apply Hnone. repeat constructor; discriminate. }
  split.
  { destruct (feature_lookup_by_full_path Sample.sysfs
                "/sys/class/hwmon/hwmon7/temp1_input" initial_state)
      as (Hshape7 & _ & _ & _ & _ & _ & _ & _ & Hnochip & _).
    destruct (Hshape7 "/sys/class/hwmon/hwmon" "7"%char 0 "temp1_input" eq_refl)
      as (_ & Hdir7); [discriminate|reflexivity|].
    rewrite (Hnochip (Some {| m_path := ""; m_config := None |})
               Sample.running eq_refl).
    - rewrite Hdir7. reflexivity.
    - rewrite Hdir7. repeat constructor. }
  split.
  { destruct (feature_lookup_by_full_path Sample.sysfs
                "/sys/class/hwmon//hwmon1///temp2_input" initial_state)
      as (Hs & _).
    apply (Hs "/sys/class/hwmon//hwmon" "1"%char 2 "temp2_input" eq_refl);
      [discriminate|reflexivity]. }
  split.
  { destruct (feature_lookup_by_full_path Sample.sysfs "/temp2_input"
                initial_state) as (_ & Hs & _).
    apply (Hs 0 "temp2_input" eq_refl); [discriminate|reflexivity]. }
  destruct (feature_lookup_by_full_path Sample.sysfs "temp2_input"
              initial_state) as (_ & _ & Hs & _).
  apply Hs. reflexivity.
Defined.

Lemma load_config_reconfigures_witness :
  handle Sample.running = Holds (Some {| m_path := ""; m_config := None |}) /\
  load_config Sample.sysfs "" Sample.running = (Ret tt, Sample.running) /\
  load_config Sample.sysfs "/etc/sensors3.conf" Sample.running =
    (Ret tt,
     {| handle := Holds (Some {| m_path := "/etc/sensors3.conf";
                                 m_config := Some "/etc/sensors3.conf" |});
        loaded := Some (Some "/etc/sensors3.conf");
        errno := ENOENT;
        calls := [Call_fopen ""; Call_sensors_init None;
                  Call_sensors_cleanup;
                  Call_fopen "/etc/sensors3.conf";
                  Call_sensors_init (Some "/etc/sensors3.conf")] |}).
Proof.
  assert (H : handle Sample.running =
              Holds (Some {| m_path := ""; m_config := None |}))
    by reflexivity.
  split; [exact H|]. split.
  - destruct (load_config_reconfigures Sample.sysfs "" Sample.running _ H)
      as (Hsame & _).
    apply Hsame. reflexivity.
  - destruct (load_config_reconfigures Sample.sysfs "/etc/sensors3.conf"
                Sample.running _ H) as (_ & Hdiff & _).
    destruct (Hdiff ltac:(discriminate)) as (_ & _ & _ & _ & Hok).
    exact (Hok (or_intror eq_refl) eq_refl).
Defined.

Lemma subfeature_lookup_by_full_path_witness :
  subfeature_find Sample.sysfs "/sys/class/hwmon/hwmon1/" initial_state =
    (Throw {| kind := parse_error;
              what := "Path does not contain filename: /sys/class/hwmon/hwmon1/" |},
     initial_state) /\
  fst (subfeature_find Sample.sysfs "/sys/class/hwmon/hwmon1/temp1_max"
         initial_state) =
    Ret {| m_feature := {| m_chip := Sample.coretemp;
                           feature_rec := Sample.temp1 |};
           subfeature_rec := Sample.temp1_max |} /\
  fst (subfeature_find Sample.sysfs "/sys/class/hwmon/hwmon1/temp1_min"
         initial_state) =
    Throw {| kind := parse_error; what := "Subfeature not found: temp1_min" |}.
Proof.
  split; [|split].
  - destruct (subfeature_lookup_by_full_path Sample.sysfs
                "/sys/class/hwmon/hwmon1/" initial_state) as (Hno & _).
    apply Hno. reflexivity.
  - destruct (subfeature_lookup_by_full_path Sample.sysfs
                "/sys/class/hwmon/hwmon1/temp1_max" initial_state)
      as (_ & Hyes).
    destruct (Hyes eq_refl) as (_ & Hrun).
    destruct (Hrun {| m_chip := Sample.coretemp; feature_rec := Sample.temp1 |}
                _ eq_refl) as (Hsome & _).
    match goal with
    | |- fst ?x = Ret ?r => enough (E : exists st, x = (Ret r, st))
                              by (destruct E as (st & ->); reflexivity)
    end.
    eexists. apply Hsome. exists [Sample.temp1_input]. eexists.
    split; [reflexivity|]. split; [reflexivity|].
    constructor; [discriminate|constructor].
  - destruct (subfeature_lookup_by_full_path Sample.sysfs
                "/sys/class/hwmon/hwmon1/temp1_min" initial_state)
      as (_ & Hyes).
    destruct (Hyes eq_refl) as (_ & Hrun).
    destruct (Hrun {| m_chip := Sample.coretemp; feature_rec := Sample.temp1 |}
                _ eq_refl) as (_ & Hnone).
    match goal with
    | |- fst ?x = Throw ?r => enough (E : exists st, x = (Throw r, st))
                                by (destruct E as (st & ->); reflexivity)
    end.
    eexists. apply Hnone. repeat constructor; discriminate.
Defined.

(** C6, the claim as stated fails for buses: 99 is the value of no case
    label of [bus_id::type()], and the accessor returns [any], the
    value the wildcard code -1 also gets; no value of the enumeration
    is called [unknown]. *)
Lemma bus_fallback_is_any :
  ~ recognised (bus_code LmSensors.codes) bus_type_cases 99 /\
  bus_type_name
    (bus_id_type LmSensors.codes {| bus_type_code := 99; bus_nr := 0 |}) = "any" /\
  bus_type_name
    (bus_id_type LmSensors.codes {| bus_type_code := 99; bus_nr := 0 |})
    <> "unknown" /\
  bus_id_type LmSensors.codes
    {| bus_type_code := bus_code LmSensors.codes SENSORS_BUS_TYPE_ANY;
       bus_nr := 0 |} = bus_any.
Proof.
  split.
  - intros (k & Hk & E). simpl in Hk.
    repeat (destruct Hk as [<-|Hk]; [discriminate E|]). exact Hk.
  - split; [reflexivity|]. split; [discriminate|reflexivity].
Qed.

Lemma lm_sensors_codes_unrecognised :
  ~ recognised (bus_code LmSensors.codes) bus_type_cases 99 /\
  ~ recognised (feature_code LmSensors.codes) feature_type_cases 7 /\
  ~ recognised (subfeature_code LmSensors.codes) subfeature_type_cases
      LmSensors.INT_MAX.
Proof.
  split; [|split]; intros (k & Hk & E); simpl in Hk;
    repeat (destruct Hk as [<-|Hk]; [discriminate E|]); exact Hk.
Qed.

Lemma type_fallback_for_unrecognised_codes_witness :
  bus_id_type LmSensors.codes {| bus_type_code := 99; bus_nr := 0 |} = bus_any /\
  feature_type_of LmSensors.codes
    {| feat_name := "pwm1"; feat_number := 3; feat_type := 7 |} = ft_unknown /\
  subfeature_type_of LmSensors.codes
    {| sub_name := "pwm1_enable"; sub_number := 9;
       sub_type := LmSensors.INT_MAX; sub_flags := 3 |} =
    st_unknown /\
  subfeature_type_of LmSensors.codes Sample.temp1_crit_alarm = st_crit_alarm.
Proof.
  destruct lm_sensors_codes_unrecognised as (Hb & Hf & Hs).
  destruct (type_fallback_for_unrecognised_codes LmSensors.codes
              {| bus_type_code := 99; bus_nr := 0 |}
              {| feat_name := "pwm1"; feat_number := 3; feat_type := 7 |}
              {| sub_name := "pwm1_enable"; sub_number := 9;
                 sub_type := LmSensors.INT_MAX; sub_flags := 3 |})
    as (Tb & Tf & Ts & _).
  split; [exact (Tb Hb)|]. split; [exact (Tf Hf)|]. split; [exact (Ts Hs)|].
  destruct (type_fallback_for_unrecognised_codes LmSensors.codes
              {| bus_type_code := 0; bus_nr := 0 |}
              {| feat_name := "temp1"; feat_number := 0; feat_type := 2 |}
              Sample.temp1_crit_alarm)
    as (_ & _ & _ & _ & _ & _ & Tcase).
  apply (Tcase [SENSORS_SUBFEATURE_IN_CRIT_ALARM;
                SENSORS_SUBFEATURE_TEMP_CRIT_ALARM;
                SENSORS_SUBFEATURE_POWER_CRIT_ALARM;
                SENSORS_SUBFEATURE_CURR_CRIT_ALARM]
           st_crit_alarm SENSORS_SUBFEATURE_TEMP_CRIT_ALARM).
  - apply NoDup_ListNoDup. vm_compute.
    repeat (constructor; [intros Hin; simpl in Hin;
                          repeat (destruct Hin as [Hin|Hin]; [discriminate Hin|]);
                          exact Hin|]).
    constructor.
  - simpl. do 22 right. left. reflexivity.
  - right. left. reflexivity.
  - reflexivity.
Defined.

Lemma init_failures_raise_init_error_witness :
  fst (load_config Sample.sysfs "/etc/missing.conf" Sample.running) =
    Throw {| kind := init_error;
             what := "Failed to open config file (No such file or directory)" |} /\
  fst (load_config Sample.sysfs "/etc/broken.conf" Sample.running) =
    Throw {| kind := init_error; what := "General parse error" |}.
Proof.
  split.
  - destruct (init_failures_raise_init_error Sample.sysfs "/etc/missing.conf"
                Sample.running) as (_ & _ & _ & Hopen & _).
    apply (Hopen {| m_path := ""; m_config := None |} ENOENT);
      [reflexivity|discriminate|reflexivity|reflexivity].
  - destruct (init_failures_raise_init_error Sample.sysfs "/etc/broken.conf"
                Sample.running) as (_ & _ & _ & _ & Hinit).
    apply (Hinit {| m_path := ""; m_config := None |});
      [reflexivity|discriminate|right; reflexivity|discriminate].
Defined.

Lemma copy_shares_handle_witness :
  let h : gmap loc (control_block chip_name) :=
    {[ 1%positive := {| object := Sample.coretemp; use_count := 1 |} ]} in
  let e := {| m_impl := 1%positive |} in
  exists e' h',
    entity_copy e (Sample.running, h) = (e', (Sample.running, h')) /\
    m_impl e' = 1%positive /\
    accessor chip_path e' h' = Some "/sys/class/hwmon/hwmon1" /\
    accessor chip_path e h' = Some "/sys/class/hwmon/hwmon1" /\
    use_count <$> (h' !! 1%positive) = Some 2.
Proof.
  intros h e.
  destruct (copy_shares_handle e Sample.running h
              {| object := Sample.coretemp; use_count := 1 |})
    as (e' & h' & Hrun & Hloc & _ & _ & _ & _ & Hacc & Hcount).
  - apply lookup_singleton_eq.
  - exists e', h'. split; [exact Hrun|]. split; [exact Hloc|].
    destruct (Hacc _ chip_path) as (Ha & Hb).
    split; [rewrite Ha; reflexivity|]. split; [rewrite Hb; reflexivity|].
    exact Hcount.
Defined.

Lemma subfeature_by_type_witness :
  let f := {| m_chip := Sample.coretemp; feature_rec := Sample.temp1 |} in
  fst (feature_subfeature Sample.sysfs LmSensors.codes f st_crit Sample.running) =
    Ret (Some {| m_feature := f; subfeature_rec := Sample.temp1_crit |}) /\
  fst (feature_subfeature Sample.sysfs LmSensors.codes f st_min Sample.running) =
    Ret None.
Proof.
  intros f. split.
  - destruct (subfeature_by_type Sample.sysfs LmSensors.codes f st_crit
                Sample.running) as (subs & st' & r & Hsubs & Hrun & Hsome & _).
    rewrite Hrun. cbn [fst]. f_equal.
    assert (E : subs = map (fun sub => {| m_feature := f; subfeature_rec := sub |})
                         [Sample.temp1_input; Sample.temp1_max;
                          Sample.temp1_crit; Sample.temp1_crit_alarm]).
    { assert (E' : feature_subfeatures Sample.sysfs f Sample.running =
                   (Ret (map (fun sub => {| m_feature := f; subfeature_rec := sub |})
                           [Sample.temp1_input; Sample.temp1_max;
                            Sample.temp1_crit; Sample.temp1_crit_alarm]),
                    snd (log (Call_get_all_subfeatures Sample.coretemp
                                Sample.temp1) Sample.running)))
        by reflexivity.
      rewrite Hsubs in E'. inversion E'. reflexivity. }
    apply Hsome. subst subs.
    exists [{| m_feature := f; subfeature_rec := Sample.temp1_input |};
            {| m_feature := f; subfeature_rec := Sample.temp1_max |}],
           [{| m_feature := f; subfeature_rec := Sample.temp1_crit_alarm |}].
    split; [reflexivity|]. split; [reflexivity|].
    repeat constructor; discriminate.
  - destruct (subfeature_by_type Sample.sysfs LmSensors.codes f st_min
                Sample.running) as (subs & st' & r & Hsubs & Hrun & _ & Hnone).
    rewrite Hrun. cbn [fst]. f_equal.
    assert (E' : feature_subfeatures Sample.sysfs f Sample.running =
                 (Ret (map (fun sub => {| m_feature := f; subfeature_rec := sub |})
                         [Sample.temp1_input; Sample.temp1_max;
                          Sample.temp1_crit; Sample.temp1_crit_alarm]),
                  snd (log (Call_get_all_subfeatures Sample.coretemp
                              Sample.temp1) Sample.running)))
      by reflexivity.
    rewrite Hsubs in E'. inversion E'. subst subs.
    apply Hnone. repeat constructor; discriminate.
Defined.

Lemma load_config_failure_not_atomic_witness :
  exists msg st',
    load_config Sample.sysfs "/etc/broken.conf" Sample.running =
      (Throw {| kind := init_error; what := msg |}, st') /\
    handle st' = Holds None /\
    loaded st' = None /\
    served (proc_chips Sample.sysfs) st' = [] /\
    (exists more,
       calls st' =
         (calls (torn_down Sample.running {| m_path := ""; m_config := None |})
          ++ Call_fopen "/etc/broken.conf" :: more)%list /\
       forall cfg, In (Call_sensors_init cfg) more ->
                   init_result Sample.sysfs cfg <> 0%Z).
Proof.
  apply (load_config_failure_not_atomic Sample.sysfs "/etc/broken.conf"
           Sample.running {| m_path := ""; m_config := None |}).
  - reflexivity.
  - discriminate.
  - right. split; [right; reflexivity|discriminate].
Defined.

(** After such a failure the pointer is null: a further [load_config]
    dereferences it, and a lookup finds no chip. *)
Lemma after_failed_load_config (B : boundary) (st : state) (path : string) :
  handle st = Holds None ->
  loaded st = None ->
  load_config B path st = (Undefined, st) /\
  fst (chip_name_find B path st) =
    Throw {| kind := parse_error; what := "No chip found at " ++ path |}.
Proof.
  intros Hh Hl. split.
  - unfold load_config, mbind, M_bind.
    rewrite (get_handle_constructed B st None Hh). reflexivity.
  - rewrite (chip_name_find_run B path st None st
               (get_handle_constructed B st None Hh)).
    unfold served. rewrite Hl. reflexivity.
Qed.

(** ** What lookups and reconfiguration keep *)

Section Keeping.
Variable B : boundary.

(** [get_handle] returns a pointer or throws [init_error]; it throws
    only while the static is unconstructed. *)
Lemma get_handle_cases st :
  (exists p st1, get_handle B st = (Ret p, st1) /\ handle st1 = Holds p /\
                 (handle st = Holds p /\ st1 = st \/
                  handle st = Unconstructed /\ init_result B None = 0%Z /\
                  p = Some {| m_path := ""; m_config := None |} /\
                  loaded st1 = Some None)) \/
  (exists msg st1, get_handle B st =
                     (Throw {| kind := init_error; what := msg |}, st1) /\
                   handle st = Unconstructed /\ handle st1 = Unconstructed /\
                   loaded st1 = None).
Proof.
  destruct (handle st) as [|p] eqn:H.
  - destruct (Z.eq_dec (init_result B None) 0%Z) as [Hi|Hi].
    + left. eexists _, _. rewrite (get_handle_first_use B st H Hi).
      split; [reflexivity|]. split; [reflexivity|]. right. auto.
    + right. eexists _, _. rewrite (get_handle_first_use_fails B st H Hi).
      auto.
  - left. exists p, st. rewrite (get_handle_constructed B st p H). auto.
Qed.

Lemma get_handle_again st p st1 :
  get_handle B st = (Ret p, st1) ->
  handle st1 = Holds p /\ get_handle B st1 = (Ret p, st1).
Proof.
  intros H. destruct (get_handle_cases st)
    as [(p' & st' & H' & Hh & _)|(msg & st' & H' & _)]; rewrite H in H';
    inversion H'; subst.
  split; [exact Hh|]. apply get_handle_constructed, Hh.
Qed.

Lemma chip_name_find_inv path st r st' :
  chip_name_find B path st = (r, st') ->
  (exists msg,
     r = Throw {| kind := init_error; what := msg |} /\
     handle st = Unconstructed /\ handle st' = Unconstructed /\
     loaded st' = None) \/
  (exists p st1,
     get_handle B st = (Ret p, st1) /\ handle st1 = Holds p /\
     st' = snd (log Call_get_detected_chips st1) /\
     r = match find (fun c => String.prefix (chip_path c) path)
                 (served (proc_chips B) st1) with
         | Some c => Ret c
         | None => Throw {| kind := parse_error;
                            what := "No chip found at " ++ path |}
         end).
Proof.
  intros H.
  destruct (get_handle_cases st)
    as [(p & st1 & Hg & Hh & _)|(msg & st1 & Hg & Hu & Hu' & Hl)].
  - right. exists p, st1. rewrite (chip_name_find_run B path st p st1 Hg) in H.
    inversion H. auto.
  - left. exists msg. rewrite (chip_name_find_throws B path st _ st1 Hg) in H.
    inversion H; subst. auto.
Qed.

Lemma feature_find_inv cp name st r st' :
  feature_find B cp name st = (r, st') ->
  (exists e, r = Throw e /\ chip_name_find B cp st = (Throw e, st')) \/
  (exists chip st1,
     chip_name_find B cp st = (Ret chip, st1) /\
     st' = snd (log (Call_get_features chip) st1) /\
     r = match find (fun f => String.eqb (feat_name f) name)
                 (served (fun cfg => chip_features B cfg chip) st1) with
         | Some f => Ret {| m_chip := chip; feature_rec := f |}
         | None => Throw {| kind := parse_error;
                            what := "Feature " ++ name ++ " not found on chip "
                                    ++ chip_prefix chip |}
         end).
Proof.
  intros H. destruct (chip_name_find B cp st) as [[chip|e|] st1] eqn:Hc.
  - right. exists chip, st1. rewrite (feature_find_run B _ _ _ _ _ Hc) in H.
    inversion H. auto.
  - left. exists e. rewrite (feature_find_throws B _ _ _ _ _ Hc) in H.
    inversion H. auto.
  - exfalso. destruct (chip_name_find_inv _ _ _ _ Hc)
      as [(msg & E & _)|(p & st2 & _ & _ & _ & E)]; [discriminate|].
    destruct (find _ _); discriminate.
Qed.

Lemma subfeature_find_inv path st r st' :
  subfeature_find B path st = (r, st') ->
  (fs.has_filename path = false /\ st' = st /\
   r = Throw {| kind := parse_error;
                what := "Path does not contain filename: " ++ path |}) \/
  (fs.has_filename path = true /\
   exists e, r = Throw e /\ feature_find_path B path st = (Throw e, st')) \/
  (fs.has_filename path = true /\
   exists feat st1,
     feature_find_path B path st = (Ret feat, st1) /\
     st' = snd (log (Call_get_all_subfeatures (m_chip feat) (feature_rec feat))
                  st1) /\
     r = match find (fun s => String.eqb (sub_name s) (fs.filename path))
                 (served (fun cfg => chip_subfeatures B cfg (m_chip feat)
                                       (feature_rec feat)) st1) with
         | Some s => Ret {| m_feature := feat; subfeature_rec := s |}
         | None => Throw {| kind := parse_error;
                            what := "Subfeature not found: "
                                    ++ fs.filename path |}
         end).
Proof.
  intros H. destruct (fs.has_filename path) eqn:Hf.
  - right. destruct (feature_find_path B path st) as [[feat|e|] st1] eqn:Hp.
    + right. split; [reflexivity|]. exists feat, st1.
      rewrite (subfeature_find_run B _ _ _ _ Hf Hp) in H. inversion H. auto.
    + left. split; [reflexivity|]. exists e.
      rewrite (subfeature_find_throws B _ _ Hf _ _ Hp) in H. inversion H. auto.
    + exfalso. unfold feature_find_path in Hp.
      destruct (feature_find_inv _ _ _ _ _ Hp)
        as [(e & E & _)|(chip & st2 & _ & _ & E)]; [discriminate|].
      destruct (find _ _); discriminate.
  - left. unfold subfeature_find in H. rewrite Hf in H. inversion H. auto.
Qed.

Lemma get_detected_chips_inv st r st' :
  get_detected_chips B st = (r, st') ->
  (exists msg,
     r = Throw {| kind := init_error; what := msg |} /\
     handle st = Unconstructed /\ handle st' = Unconstructed /\
     loaded st' = None) \/
  (exists p st1,
     get_handle B st = (Ret p, st1) /\ handle st1 = Holds p /\
     st' = snd (log Call_get_detected_chips st1) /\
     r = Ret (served (proc_chips B) st1)).
Proof.
  intros H.
  destruct (get_handle_cases st)
    as [(p & st1 & Hg & Hh & _)|(msg & st1 & Hg & Hu & Hu' & Hl)].
  - right. exists p, st1. rewrite (get_detected_chips_run B st p st1 Hg) in H.
    inversion H. auto.
  - left. exists msg. unfold get_detected_chips, mbind at 1, M_bind at 1 in H.
    rewrite Hg in H. inversion H; subst. auto.
Qed.

Lemma only_enumerated_refl st : only_enumerated st st.
Proof.
  repeat split. exists []. rewrite app_nil_r. split; [reflexivity|constructor].
Qed.

Lemma only_enumerated_log st st' c :
  only_enumerated st st' -> enumeration_call c ->
  only_enumerated st (snd (log c st')).
Proof.
  intros (Hh & Hl & He & more & Hc & Hm) Hen. repeat split; cbn; auto.
  exists (more ++ [c])%list. rewrite Hc, app_assoc. split; [reflexivity|].
  apply Forall_app. split; [exact Hm|]. constructor; [exact Hen|constructor].
Qed.

Lemma served_same {A} (f : option string -> list A) st st' :
  loaded st' = loaded st -> served f st' = served f st.
Proof. intros H. unfold served. rewrite H. reflexivity. Qed.

(** Once the static is constructed, [find] for chips only adds an
    enumeration call and its result is a function of the library state. *)
Lemma chip_name_find_constructed path st p :
  handle st = Holds p ->
  chip_name_find B path st =
    (match find (fun c => String.prefix (chip_path c) path)
             (served (proc_chips B) st) with
     | Some c => Ret c
     | None => Throw {| kind := parse_error;
                        what := "No chip found at " ++ path |}
     end,
     snd (log Call_get_detected_chips st)).
Proof.
  intros H. apply (chip_name_find_run B path st p st).
  apply get_handle_constructed, H.
Qed.

Lemma chip_name_find_keeps path st p r st' :
  handle st = Holds p -> chip_name_find B path st = (r, st') ->
  only_enumerated st st'.
Proof.
  intros H Hr. rewrite (chip_name_find_constructed path st p H) in Hr.
  inversion Hr. apply only_enumerated_log; [apply only_enumerated_refl|exact I].
Qed.

Lemma feature_find_keeps cp name st p r st' :
  handle st = Holds p -> feature_find B cp name st = (r, st') ->
  only_enumerated st st'.
Proof.
  intros H Hr. destruct (feature_find_inv _ _ _ _ _ Hr)
    as [(e & _ & Hc)|(chip & st1 & Hc & -> & _)].
  - apply (chip_name_find_keeps _ _ _ _ _ H Hc).
  - apply only_enumerated_log; [|exact I].
    apply (chip_name_find_keeps _ _ _ _ _ H Hc).
Qed.

Lemma subfeature_find_keeps path st p r st' :
  handle st = Holds p -> subfeature_find B path st = (r, st') ->
  only_enumerated st st'.
Proof.
  intros H Hr. destruct (subfeature_find_inv _ _ _ _ Hr)
    as [(_ & -> & _)|[(_ & e & _ & Hf)|(_ & feat & st1 & Hf & -> & _)]].
  - apply only_enumerated_refl.
  - apply (feature_find_keeps _ _ _ _ _ _ H Hf).
  - apply only_enumerated_log; [|exact I].
    apply (feature_find_keeps _ _ _ _ _ _ H Hf).
Qed.

Lemma chip_name_find_stable path st st2 p :
  handle st = Holds p -> handle st2 = handle st -> loaded st2 = loaded st ->
  fst (chip_name_find B path st2) = fst (chip_name_find B path st).
Proof.
  intros H H2 Hl. rewrite H in H2.
  rewrite (chip_name_find_constructed path st p H),
    (chip_name_find_constructed path st2 p H2).
  cbn [fst]. rewrite (served_same _ st st2 Hl). reflexivity.
Qed.

Lemma feature_find_stable cp name st st2 p :
  handle st = Holds p -> handle st2 = handle st -> loaded st2 = loaded st ->
  fst (feature_find B cp name st2) = fst (feature_find B cp name st).
Proof.
  intros H H2 Hl.
  pose proof (chip_name_find_stable cp st st2 p H H2 Hl) as Hc.
  destruct (chip_name_find B cp st) as [r1 s1] eqn:E1.
  destruct (chip_name_find B cp st2) as [r2 s2] eqn:E2.
  cbn [fst] in Hc. subst r2.
  assert (Hs : loaded s2 = loaded s1).
  { rewrite H in H2.
    destruct (chip_name_find_keeps _ _ _ _ _ H E1) as (_ & L1 & _).
    destruct (chip_name_find_keeps _ _ _ _ _ H2 E2) as (_ & L2 & _).
    congruence. }
  destruct r1 as [chip|e|].
  - rewrite (feature_find_run B _ _ _ _ _ E1), (feature_find_run B _ _ _ _ _ E2).
    cbn [fst]. rewrite (served_same _ s1 s2 Hs). reflexivity.
  - rewrite (feature_find_throws B _ _ _ _ _ E1),
      (feature_find_throws B _ _ _ _ _ E2). reflexivity.
  - unfold feature_find, mbind at 1 3, M_bind at 1 3. rewrite E1, E2.
    reflexivity.
Qed.

Lemma subfeature_find_stable path st st2 p :
  handle st = Holds p -> handle st2 = handle st -> loaded st2 = loaded st ->
  fst (subfeature_find B path st2) = fst (subfeature_find B path st).
Proof.
  intros H H2 Hl.
  destruct (fs.has_filename path) eqn:Hf;
    [|unfold subfeature_find; rewrite Hf; reflexivity].
  pose proof (feature_find_stable (fs.parent_path path)
                (feat_name_of (fs.filename path)) st st2 p H H2 Hl) as Hc.
  fold (feature_find_path B path st) in Hc.
  fold (feature_find_path B path st2) in Hc.
  destruct (feature_find_path B path st) as [r1 s1] eqn:E1.
  destruct (feature_find_path B path st2) as [r2 s2] eqn:E2.
  cbn [fst] in Hc. subst r2.
  assert (Hs : loaded s2 = loaded s1).
  { rewrite H in H2.
    destruct (feature_find_keeps _ _ _ _ _ _ H E1) as (_ & L1 & _).
    destruct (feature_find_keeps _ _ _ _ _ _ H2 E2) as (_ & L2 & _).
    congruence. }
  destruct r1 as [feat|e|].
  - rewrite (subfeature_find_run B _ _ _ _ Hf E1),
      (subfeature_find_run B _ _ _ _ Hf E2).
    cbn [fst]. rewrite (served_same _ s1 s2 Hs). reflexivity.
  - rewrite (subfeature_find_throws B _ _ Hf _ _ E1),
      (subfeature_find_throws B _ _ Hf _ _ E2). reflexivity.
  - unfold subfeature_find. rewrite Hf. cbn [negb].
    unfold mbind at 1 3, M_bind at 1 3. rewrite E1, E2. reflexivity.
Qed.

(** X1: the lookups by path and [get_detected_chips] never run into
    undefined behaviour; what they throw is [parse_error], or the
    [init_error] of constructing the global handle, and the latter only
    while the static is unconstructed; [get_detected_chips] never
    throws [parse_error]. *)
Theorem lookups_throw_parse_or_first_init (path cp name : string) (st : state) :
  lookup_outcome st (fst (chip_name_find B path st)) /\
  lookup_outcome st (fst (feature_find B cp name st)) /\
  lookup_outcome st (fst (feature_find_path B path st)) /\
  lookup_outcome st (fst (subfeature_find B path st)) /\
  match fst (get_detected_chips B st) with
  | Ret _ => True
  | Throw e => kind e = init_error /\ handle st = Unconstructed
  | Undefined => False
  end.
Proof.
  assert (Hchip : forall p, lookup_outcome st (fst (chip_name_find B p st))).
  { intros p. destruct (chip_name_find B p st) as [r st'] eqn:E.
    destruct (chip_name_find_inv _ _ _ _ E)
      as [(msg & -> & Hu & _)|(q & st1 & _ & _ & _ & ->)]; cbn.
    - right. auto.
    - destruct (find _ _); cbn; auto. }
  assert (Hfeat : forall c n, lookup_outcome st (fst (feature_find B c n st))).
  { intros c n. destruct (feature_find B c n st) as [r st'] eqn:E.
    destruct (feature_find_inv _ _ _ _ _ E)
      as [(e & -> & Hc)|(chip & st1 & _ & _ & ->)]; cbn [fst].
    - specialize (Hchip c). rewrite Hc in Hchip. exact Hchip.
    - destruct (find _ _); cbn; auto. }
  split; [apply Hchip|]. split; [apply Hfeat|]. split; [apply Hfeat|].
  split.
  - destruct (subfeature_find B path st) as [r st'] eqn:E.
    destruct (subfeature_find_inv _ _ _ _ E)
      as [(_ & _ & ->)|[(_ & e & -> & Hf)|(_ & feat & st1 & _ & _ & ->)]];
      cbn [fst].
    + cbn. auto.
    + specialize (Hfeat (fs.parent_path path) (feat_name_of (fs.filename path))).
      fold (feature_find_path B path st) in Hfeat. rewrite Hf in Hfeat.
      exact Hfeat.
    + destruct (find _ _); cbn; auto.
  - destruct (get_detected_chips B st) as [r st'] eqn:E.
    destruct (get_detected_chips_inv _ _ _ E)
      as [(msg & -> & Hu & _)|(q & st1 & _ & _ & _ & ->)]; cbn; auto.
Qed.

(** X2: once the global handle is constructed, resolving a path leaves
    the static pointer, the library state and [errno] alone and makes
    enumeration calls only (no [sensors_init], [sensors_cleanup],
    [fopen] or [fclose]); resolving the same path again gives the same
    result. *)
Theorem lookups_keep_library (path : string) (st : state)
  (p : option libsensors_handle) (r : outcome subfeature) (st' : state) :
  handle st = Holds p ->
  subfeature_find B path st = (r, st') ->
  only_enumerated st st' /\
  fst (subfeature_find B path st') = r /\
  (forall path', fst (subfeature_find B path' st') =
                 fst (subfeature_find B path' st)).
Proof.
  intros H Hr.
  pose proof (subfeature_find_keeps _ _ _ _ _ H Hr) as Hk.
  split; [exact Hk|].
  destruct Hk as (Hh & Hl & _).
  assert (Hstable : forall path', fst (subfeature_find B path' st') =
                                  fst (subfeature_find B path' st))
    by (intros path'; apply (subfeature_find_stable path' st st' p H Hh Hl)).
  split; [|exact Hstable].
  rewrite Hstable, Hr. reflexivity.
Qed.

End Keeping.

(** ** Lookups against enumerations *)

Section Navigation.
Variable B : boundary.

Lemma find_in {A} (p : A -> bool) l x : find p l = Some x -> In x l /\ p x = true.
Proof. apply find_some. Qed.

Lemma in_served_same {A} (g : option string -> list A) st st2 x :
  loaded st2 = loaded st -> In x (served g st) -> In x (served g st2).
Proof. intros H. rewrite (served_same g st st2 H). auto. Qed.

(** X3: what a successful subfeature lookup returns: the subfeature's
    name is the filename of the path, its feature's name is the
    filename up to its last underscore, its chip's path is a prefix of
    the parent directory, and each of the three is an element of the
    corresponding enumeration, as [get_detected_chips], [features] and
    [subfeatures] return them afterwards. *)
Theorem subfeature_find_sound (path : string) (st st' : state) (s : subfeature) :
  subfeature_find B path st = (Ret s, st') ->
  let f := m_feature s in
  let c := m_chip f in
  fs.has_filename path = true /\
  subfeature_name s = fs.filename path /\
  feat_name (feature_rec f) = feat_name_of (fs.filename path) /\
  String.prefix (chip_path c) (fs.parent_path path) = true /\
  exists chips feats subs st1 st2 st3,
    get_detected_chips B st' = (Ret chips, st1) /\ In c chips /\
    chip_name_features B c st1 = (Ret feats, st2) /\ In f feats /\
    feature_subfeatures B f st2 = (Ret subs, st3) /\ In s subs.
Proof.
  intros Hr f c.
  destruct (subfeature_find_inv B _ _ _ _ Hr)
    as [(_ & _ & E)|[(_ & e & E & _)|(Hf & feat & sf & Hfeat & Hst' & E)]];
    try discriminate.
  destruct (find _ _) as [sub|] eqn:Fsub in E; [|discriminate].
  inversion E; subst s. clear E. cbn in f. subst f. cbn in c.
  unfold feature_find_path in Hfeat.
  destruct (feature_find_inv B _ _ _ _ _ Hfeat)
    as [(e & E & _)|(chip & sc & Hchip & Hsf & E)]; [discriminate|].
  destruct (find _ _) as [fr|] eqn:Ffeat in E; [|discriminate].
  inversion E; subst feat. clear E. cbn in c. subst c. cbn in *.
  destruct (chip_name_find_inv B _ _ _ _ Hchip)
    as [(msg & E & _)|(p & s0 & Hg & Hh & Hsc & E)]; [discriminate|].
  destruct (find _ _) as [cr|] eqn:Fchip in E; [|discriminate].
  inversion E; subst cr. clear E.
  apply find_in in Fsub as (Isub & Esub).
  apply find_in in Ffeat as (Ifeat & Efeat).
  apply find_in in Fchip as (Ichip & Echip).
  apply String.eqb_eq in Esub. apply String.eqb_eq in Efeat.
  split; [exact Hf|]. split; [exact Esub|]. split; [exact Efeat|].
  split; [exact Echip|].
  assert (Hh' : handle st' = Holds p) by (subst st' sf sc; exact Hh).
  assert (Hl1 : loaded st' = loaded s0) by (subst st' sf sc; reflexivity).
  eexists _, _, _, _, _, _.
  rewrite (get_detected_chips_run B st' p st' (get_handle_constructed B _ _ Hh')).
  split; [reflexivity|].
  split; [apply (in_served_same _ s0 st' _ Hl1), Ichip|].
  rewrite chip_name_features_run. split; [reflexivity|].
  split.
  { apply in_map. apply (in_served_same _ sc); [|exact Ifeat].
    subst st' sf. reflexivity. }
  rewrite feature_subfeatures_run. split; [reflexivity|].
  apply in_map. cbn [m_chip feature_rec].
  apply (in_served_same _ sf); [|exact Isub]. subst st'. reflexivity.
Qed.

(** X4: every chip [get_detected_chips] returns can be constructed from
    its own path: the lookup does not throw, it returns an enumerated
    chip whose path is a prefix of that path, and it returns the chip
    itself when no other enumerated chip has a path that is a prefix of
    its path. *)
Theorem detected_chip_resolves (st st' : state) (chips : list chip_name)
  (c : chip_name) :
  get_detected_chips B st = (Ret chips, st') ->
  In c chips ->
  exists c' st'',
    chip_name_find B (chip_path c) st' = (Ret c', st'') /\
    In c' chips /\
    String.prefix (chip_path c') (chip_path c) = true /\
    ((forall x, In x chips ->
                String.prefix (chip_path x) (chip_path c) = true -> x = c) ->
     c' = c).
Proof.
  intros Hr Hin.
  destruct (get_detected_chips_inv B _ _ _ Hr)
    as [(msg & E & _)|(p & s0 & Hg & Hh & Hst' & E)]; [discriminate|].
  inversion E; subst chips. clear E.
  assert (Hh' : handle st' = Holds p) by (subst st'; exact Hh).
  rewrite (chip_name_find_constructed B (chip_path c) st' p Hh').
  assert (Hs : served (proc_chips B) st' = served (proc_chips B) s0)
    by (subst st'; reflexivity).
  rewrite Hs.
  destruct (find _ _) as [c'|] eqn:F.
  - apply find_in in F as (Ic' & Ec').
    exists c'. eexists. split; [reflexivity|]. split; [exact Ic'|].
    split; [exact Ec'|]. intros Huniq. apply Huniq; assumption.
  - exfalso. apply find_nothing in F. rewrite List.Forall_forall in F.
    specialize (F c Hin). rewrite prefix_refl in F. discriminate.
Qed.

(** X5: every feature [features()] returns for a chip carries that
    chip and can be constructed from the chip's path and its own name
    when the chip is the one its path resolves to: the lookup does not
    throw and returns an enumerated feature of the chip with the same
    name, the feature itself when its name occurs once. *)
Theorem enumerated_feature_resolves (st st1 : state)
  (p : option libsensors_handle) (c : chip_name) (feats : list feature)
  (f : feature) :
  handle st = Holds p ->
  fst (chip_name_find B (chip_path c) st) = Ret c ->
  chip_name_features B c st = (Ret feats, st1) ->
  In f feats ->
  m_chip f = c /\
  exists f' st2,
    feature_find B (chip_path c) (feat_name (feature_rec f)) st1 = (Ret f', st2) /\
    In f' feats /\
    feat_name (feature_rec f') = feat_name (feature_rec f) /\
    ((forall x, In x feats ->
                feat_name (feature_rec x) = feat_name (feature_rec f) -> x = f) ->
     f' = f).
Proof.
  intros Hh Hc Hr Hin.
  rewrite chip_name_features_run in Hr. inversion Hr; subst feats st1.
  clear Hr. apply in_map_iff in Hin as (fr & <- & Ifr).
  split; [reflexivity|]. cbn [feature_rec].
  assert (Hh1 : handle (snd (log (Call_get_features c) st)) = Holds p)
    by exact Hh.
  assert (Hc1 : chip_name_find B (chip_path c)
                  (snd (log (Call_get_features c) st)) =
                (Ret c, snd (log Call_get_detected_chips
                               (snd (log (Call_get_features c) st))))).
  { rewrite (chip_name_find_constructed B _ _ p Hh1).
    rewrite (chip_name_find_constructed B _ _ p Hh) in Hc. cbn [fst] in Hc.
    rewrite served_log.
    destruct (find _ _); inversion Hc. reflexivity. }
  rewrite (feature_find_run B _ _ _ _ _ Hc1). rewrite !served_log.
  destruct (find _ _) as [fr'|] eqn:F.
  - apply find_in in F as (Ifr' & Efr'). apply String.eqb_eq in Efr'.
    eexists _, _. split; [reflexivity|].
    split; [apply in_map, Ifr'|]. split; [exact Efr'|].
    intros Huniq. apply Huniq; [apply in_map, Ifr'|exact Efr'].
  - exfalso. apply find_nothing in F. rewrite List.Forall_forall in F.
    specialize (F fr Ifr). cbn in F. rewrite String.eqb_refl in F.
    discriminate.
Qed.



(** X7: the three enumerations return every element the library
    serves, in the order served and none twice over; each feature
    carries the chip and each subfeature the feature it was asked of,
    so a subfeature of a feature of a chip leads back to that chip. *)
Theorem enumerations_are_complete (c : chip_name) (f : feature) (st : state) :
  (forall p st1, get_handle B st = (Ret p, st1) ->
     fst (get_detected_chips B st) = Ret (served (proc_chips B) st1)) /\
  (exists feats,
     fst (chip_name_features B c st) = Ret feats /\
     map feature_rec feats = served (fun cfg => chip_features B cfg c) st /\
     Forall (fun x => m_chip x = c) feats /\
     forall x subs,
       In x feats ->
       fst (feature_subfeatures B x (snd (chip_name_features B c st))) = Ret subs ->
       Forall (fun s => m_chip (m_feature s) = c) subs) /\
  (exists subs,
     fst (feature_subfeatures B f st) = Ret subs /\
     map subfeature_rec subs =
       served (fun cfg => chip_subfeatures B cfg (m_chip f) (feature_rec f)) st /\
     Forall (fun s => m_feature s = f) subs).
Proof.
  split; [|split].
  - intros p st1 H. rewrite (get_detected_chips_run B st p st1 H). reflexivity.
  - rewrite chip_name_features_run. eexists. split; [reflexivity|].
    split; [rewrite map_map; apply map_id|].
    split.
    + apply List.Forall_forall. intros x Hx.
      apply in_map_iff in Hx as (fr & <- & _). reflexivity.
    + intros x subs Hx Hs. rewrite feature_subfeatures_run in Hs.
      inversion Hs. apply in_map_iff in Hx as (fr & <- & _).
      apply List.Forall_forall. intros s Hin.
      apply in_map_iff in Hin as (sr & <- & _). reflexivity.
  - rewrite feature_subfeatures_run. eexists. split; [reflexivity|].
    split; [rewrite map_map; apply map_id|].
    apply List.Forall_forall. intros x Hx.
    apply in_map_iff in Hx as (sr & <- & _). reflexivity.
Qed.

End Navigation.

(** ** What the lifecycle keeps *)

Section LifecycleInvariants.
Variable B : boundary.


Lemma consistent_default :
  forall l e c,
    consistent B {| handle := Holds (Some {| m_path := ""; m_config := None |});
                    loaded := Some None; errno := e; calls := c |} /\
    consistent B {| handle := Unconstructed; loaded := None; errno := e;
                    calls := l |}.
Proof. intros. split; cbn; auto. Qed.










(** X9: when [load_config] returns, the static pointer owns a handle
    with the requested path and the stream that path opens, whatever
    was active before; calling it again with the same path changes
    nothing, and [get_detected_chips] then returns the chips of that
    configuration. *)
Theorem load_config_takes_effect (path : string) (st st1 : state) :
  consistent B st ->
  load_config B path st = (Ret tt, st1) ->
  handle st1 = Holds (Some {| m_path := path; m_config := fopen_stream B path |}) /\
  loaded st1 = Some (fopen_stream B path) /\
  load_config B path st1 = (Ret tt, st1) /\
  fst (get_detected_chips B st1) = Ret (proc_chips B (fopen_stream B path)).
Proof.
  intros Hc Hr.
  assert (Hmain : forall s p, handle s = Holds p -> consistent B s ->
            load_config B path s = (Ret tt, st1) ->
            handle st1 = Holds (Some {| m_path := path;
                                        m_config := fopen_stream B path |}) /\
            loaded st1 = Some (fopen_stream B path)).
  { intros s p Hh Hs Hl. destruct p as [h|].
    - destruct (String.eqb_spec path (m_path h)) as [E|E].
      + rewrite (load_config_same B path s h Hh E) in Hl. inversion Hl; subst st1.
        unfold consistent in Hs. rewrite Hh in Hs. destruct Hs as (Hl1 & Hm).
        rewrite Hh, Hl1. destruct h as [hp hc]. cbn in *. subst. auto.
      + rewrite (load_config_switch B path s h Hh E) in Hl.
        unfold mbind, M_bind in Hl.
        destruct (libsensors_handle_new B path (torn_down s h))
          as [[h'|e|] s'] eqn:En; try discriminate.
        assert (Hok : (Str.empty path = true \/ fopen_errno B path = None) /\
                      init_result B (fopen_stream B path) = 0%Z).
        { destruct (Str.empty path) eqn:He.
          - destruct (Z.eq_dec (init_result B (fopen_stream B path)) 0%Z)
              as [Hi|Hi]; [auto|].
            rewrite new_init_fails in En by auto. discriminate.
          - destruct (fopen_errno B path) as [e|] eqn:Hf.
            + rewrite (new_open_fails _ _ _ e) in En by auto. discriminate.
            + destruct (Z.eq_dec (init_result B (fopen_stream B path)) 0%Z)
                as [Hi|Hi]; [auto|].
              rewrite new_init_fails in En by auto. discriminate. }
        destruct Hok as (Ho & Hi). rewrite (new_ok B path _ Ho Hi) in En.
        inversion En; subst h' s'. inversion Hl. cbn. auto.
    - unfold load_config, mbind, M_bind in Hl.
      rewrite (get_handle_constructed B s None Hh) in Hl. discriminate. }
  assert (Hst1 : handle st1 = Holds (Some {| m_path := path;
                                             m_config := fopen_stream B path |}) /\
                 loaded st1 = Some (fopen_stream B path)).
  { destruct (handle st) as [|p] eqn:Hh.
    - destruct (Z.eq_dec (init_result B None) 0%Z) as [Hi|Hi].
      + rewrite (load_config_first_use B path st Hh Hi) in Hr.
        eapply Hmain; [| |exact Hr]; [reflexivity|].
        apply consistent_default; exact [].
      + unfold load_config, mbind, M_bind in Hr.
        rewrite (get_handle_first_use_fails B st Hh Hi) in Hr. discriminate.
    - apply (Hmain st p Hh Hc Hr). }
  destruct Hst1 as (Hh1 & Hl1).
  split; [exact Hh1|]. split; [exact Hl1|].
  split; [apply (load_config_same B path st1 _ Hh1); reflexivity|].
  rewrite (get_detected_chips_run B st1 _ st1 (get_handle_constructed B _ _ Hh1)).
  cbn [fst]. unfold served. rewrite Hl1. reflexivity.
Qed.

Lemma open_streams_app l l' :
  open_streams B (l ++ l') = fold_left (open_after B) l' (open_streams B l).
Proof. unfold open_streams. apply fold_left_app. Qed.

Lemma fopen_stream_path path f : fopen_stream B path = Some f -> f = path.
Proof.
  unfold fopen_stream. destruct (Str.empty path); [discriminate|].
  destruct (fopen_errno B path); [discriminate|]. congruence.
Qed.

(** X10: reconfiguring from a state in which the only open stream is
    the active handle's: afterwards the only open stream is the one the
    new path opened, the old one having been closed; when the call
    returns, the new handle owns that stream; when it throws, the
    static pointer is null and owns nothing, so a configuration file
    that opened but was rejected by [sensors_init] stays open. *)
Theorem reconfiguration_streams (path : string) (st : state)
  (h : libsensors_handle) :
  handle st = Holds (Some h) ->
  open_streams B (calls st) = owned_streams st ->
  path <> m_path h ->
  let st' := snd (load_config B path st) in
  open_streams B (calls st') =
    match fopen_stream B path with Some f => [f] | None => [] end /\
  (fst (load_config B path st) = Ret tt ->
   owned_streams st' = open_streams B (calls st')) /\
  (forall e, fst (load_config B path st) = Throw e ->
             handle st' = Holds None /\ owned_streams st' = []) /\
  (forall f, fopen_stream B path = Some f ->
             init_result B (Some f) <> 0%Z ->
             handle st' = Holds None /\ open_streams B (calls st') = [f] /\
             ~ In (Call_fclose f)
                 (skipn (length (calls (torn_down st h))) (calls st'))).
Proof.
  intros Hh Hbal Hp st'.
  assert (Htorn : open_streams B (calls (torn_down st h)) = []).
  { unfold torn_down. cbn [calls]. rewrite open_streams_app, Hbal.
    unfold owned_streams. rewrite Hh.
    destruct (m_config h) as [g|]; cbn; [rewrite String.eqb_refl|]; reflexivity. }
  subst st'. rewrite (load_config_switch B path st h Hh Hp).
  unfold mbind, M_bind.
  assert (Hcases :
    (exists e, Str.empty path = false /\ fopen_errno B path = Some e /\
               fopen_stream B path = None) \/
    ((Str.empty path = true \/ fopen_errno B path = None))).
  { destruct (Str.empty path) eqn:He; [auto|].
    destruct (fopen_errno B path) as [e|] eqn:Hf; [|auto].
    left. exists e. unfold fopen_stream. rewrite He, Hf. auto. }
  destruct Hcases as [(e & He & Hf & Hs)|Ho].
  - rewrite (new_open_fails B path _ e He Hf). cbn [fst snd calls].
    rewrite open_streams_app, Htorn. cbn. rewrite Hs.
    split; [reflexivity|]. split; [discriminate|].
    split; [intros; split; reflexivity|]. discriminate.
  - destruct (Z.eq_dec (init_result B (fopen_stream B path)) 0%Z) as [Hi|Hi].
    + rewrite (new_ok B path _ Ho Hi). unfold set_handle.
      cbn [fst snd calls handle loaded errno].
      rewrite open_streams_app, Htorn. cbn.
      split; [reflexivity|].
      split; [intros _; unfold owned_streams; cbn;
              destruct (fopen_stream B path); reflexivity|].
      split; [discriminate|].
      intros f Hs Hn. rewrite Hs in Hi. contradiction.
    + rewrite (new_init_fails B path _ Ho Hi). cbn [fst snd calls].
      rewrite open_streams_app, Htorn. cbn.
      split; [reflexivity|]. split; [discriminate|].
      split; [intros; split; reflexivity|].
      intros f Hs _. rewrite Hs. split; [reflexivity|]. split; [reflexivity|].
      rewrite skipn_app, skipn_all, Nat.sub_diag. cbn.
      intros [E|[E|[]]]; discriminate.
Qed.

Lemma failed_switch_state path st h :
  handle st = Holds (Some h) -> path <> m_path h ->
  fst (load_config B path st) <> Ret tt ->
  handle (snd (load_config B path st)) = Holds None /\
  loaded (snd (load_config B path st)) = None.
Proof.
  intros Hh Hp Hfail. rewrite (load_config_switch B path st h Hh Hp) in *.
  unfold mbind, M_bind in *.
  destruct (Str.empty path) eqn:He.
  - destruct (Z.eq_dec (init_result B (fopen_stream B path)) 0%Z) as [Hi|Hi].
    + rewrite new_ok in Hfail by auto. exfalso. apply Hfail. reflexivity.
    + rewrite new_init_fails by auto. split; reflexivity.
  - destruct (fopen_errno B path) as [e|] eqn:Hf.
    + rewrite (new_open_fails _ _ _ e) by auto. split; reflexivity.
    + destruct (Z.eq_dec (init_result B (fopen_stream B path)) 0%Z) as [Hi|Hi].
      * rewrite new_ok in Hfail by auto. exfalso. apply Hfail. reflexivity.
      * rewrite new_init_fails by auto. split; reflexivity.
Qed.

(** X15: after a [load_config] that did not return, nothing works any
    more: [get_detected_chips] returns an empty vector; every chip
    lookup and every feature lookup, by either signature, throws
    [parse_error] for want of a chip, naming the chip path it looked
    for; a subfeature lookup does the same when its path has a
    filename and otherwise throws the [parse_error] about the missing
    filename, as it always does; so no lookup returns.  Any further
    [load_config], also one with the path that was active before,
    dereferences the null pointer. *)
Theorem failed_reconfiguration_disables_library (path : string) (st : state)
  (h : libsensors_handle) :
  handle st = Holds (Some h) ->
  path <> m_path h ->
  fst (load_config B path st) <> Ret tt ->
  let st' := snd (load_config B path st) in
  fst (get_detected_chips B st') = Ret [] /\
  (forall p, fst (chip_name_find B p st') =
             Throw {| kind := parse_error; what := "No chip found at " ++ p |}) /\
  (forall cp name,
     fst (feature_find B cp name st') =
     Throw {| kind := parse_error; what := "No chip found at " ++ cp |}) /\
  (forall p,
     fst (feature_find_path B p st') =
     Throw {| kind := parse_error;
              what := "No chip found at " ++ fs.parent_path p |}) /\
  (forall p,
     fst (subfeature_find B p st') =
     Throw {| kind := parse_error;
              what := if fs.has_filename p
                      then "No chip found at " ++ fs.parent_path p
                      else "Path does not contain filename: " ++ p |}) /\
  (forall p, load_config B p st' = (Undefined, st')).
Proof.
  intros Hh Hp Hfail st'.
  destruct (failed_switch_state path st h Hh Hp Hfail) as (Hn & Hl).
  fold st' in Hn, Hl.
  assert (Hchip : forall p, chip_name_find B p st' =
            (Throw {| kind := parse_error; what := "No chip found at " ++ p |},
             snd (log Call_get_detected_chips st'))).
  { intros p. rewrite (chip_name_find_constructed B p st' None Hn).
    unfold served. rewrite Hl. reflexivity. }
  assert (Hfeat : forall cp name, feature_find B cp name st' =
            (Throw {| kind := parse_error; what := "No chip found at " ++ cp |},
             snd (log Call_get_detected_chips st'))).
  { intros cp name. apply feature_find_throws, Hchip. }
  split.
  { rewrite (get_detected_chips_run B st' None st'
               (get_handle_constructed B st' None Hn)).
    cbn [fst]. unfold served. rewrite Hl. reflexivity. }
  split; [intros p; rewrite Hchip; reflexivity|].
  split; [intros cp name; rewrite Hfeat; reflexivity|].
  split; [intros p; unfold feature_find_path; rewrite Hfeat; reflexivity|].
  split.
  { intros p. destruct (fs.has_filename p) eqn:Hf.
    - rewrite (subfeature_find_throws B p st' Hf _ _
                 (Hfeat (fs.parent_path p) (feat_name_of (fs.filename p)))).
      reflexivity.
    - unfold subfeature_find. rewrite Hf. reflexivity. }
  intros p. unfold load_config, mbind, M_bind.
  rewrite (get_handle_constructed B st' None Hn). reflexivity.
Qed.

(** X16: when the first use of the library cannot initialise it, the
    call throws [init_error] with the library's text for the code and
    the static stays unconstructed, so the next call of any kind tries
    [sensors_init] again instead of finding a null pointer. *)
Theorem failed_first_use_is_retried (path : string) (st : state) :
  handle st = Unconstructed ->
  init_result B None <> 0%Z ->
  let e := {| kind := init_error;
              what := sensors_strerror B (init_result B None) |} in
  let retry := [Call_fopen ""; Call_sensors_init None] in
  let st1 := {| handle := Unconstructed; loaded := None; errno := ENOENT;
                calls := calls st ++ retry |} in
  get_detected_chips B st = (Throw e, st1) /\
  chip_name_find B path st = (Throw e, st1) /\
  feature_find_path B path st = (Throw e, st1) /\
  load_config B path st = (Throw e, st1) /\
  calls (snd (chip_name_find B path st1)) = (calls st ++ retry ++ retry)%list /\
  calls (snd (load_config B path st1)) = (calls st ++ retry ++ retry)%list.
Proof.
  intros Hu Hi e retry st1.
  assert (Hg : forall s, handle s = Unconstructed ->
            get_handle B s =
              (Throw e, {| handle := Unconstructed; loaded := None;
                           errno := ENOENT; calls := calls s ++ retry |}))
    by (intros s Hs; apply (get_handle_first_use_fails B s Hs Hi)).
  assert (Hchip : forall s p, handle s = Unconstructed ->
            chip_name_find B p s =
              (Throw e, {| handle := Unconstructed; loaded := None;
                           errno := ENOENT; calls := calls s ++ retry |}))
    by (intros s p Hs; apply chip_name_find_throws, Hg, Hs).
  assert (Hload : forall s p, handle s = Unconstructed ->
            load_config B p s =
              (Throw e, {| handle := Unconstructed; loaded := None;
                           errno := ENOENT; calls := calls s ++ retry |})).
  { intros s p Hs. unfold load_config, mbind, M_bind. rewrite (Hg s Hs).
    reflexivity. }
  split.
  { unfold get_detected_chips, mbind at 1, M_bind at 1. rewrite (Hg st Hu).
    reflexivity. }
  split; [apply Hchip, Hu|].
  split; [apply feature_find_throws, Hchip, Hu|].
  split; [apply Hload, Hu|].
  split.
  - rewrite (Hchip st1 path eq_refl). subst st1. cbn [snd calls].
    rewrite <- app_assoc. reflexivity.
  - rewrite (Hload st1 path eq_refl). subst st1. cbn [snd calls].
    rewrite <- app_assoc. reflexivity.
Qed.

End LifecycleInvariants.

(** ** Names, flags and handle ownership *)

Lemma store_same_length bytes buf :
  String.length bytes = String.length buf -> store bytes buf = bytes.
Proof.
  revert buf. induction bytes as [|b bytes IH]; intros [|x buf] H;
    simpl in *; try discriminate; [reflexivity|].
  rewrite IH by congruence. reflexivity.
Qed.

Lemma nul_string_length n : String.length (nul_string n) = n.
Proof. induction n; simpl; congruence. Qed.

Lemma substr_0_length n t :
  n <= String.length t -> String.length (Str.substr 0 n t) = n.
Proof.
  unfold Str.substr. revert t. induction n as [|n IH]; intros t H.
  - destruct t; reflexivity.
  - destruct t as [|a t]; simpl in *; [lia|]. rewrite IH by lia. reflexivity.
Qed.

Lemma contains_app_last c a : Str.contains c (a ++ String c "") = true.
Proof.
  induction a as [|x a IH]; simpl.
  - rewrite Ascii.eqb_refl. reflexivity.
  - rewrite IH. apply orb_true_r.
Qed.

Section Names.
Variable B : boundary.
Variable P : sensors_chip_name -> nat -> Z * string.

(** X11: [name()] sizes its buffer with the length the first call
    reports and passes that size to the second call.  When the
    primitive formats a text the way [snprintf] does, the string
    returned has the length of the text but holds the text without its
    last character, followed by a NUL; for a non-empty text without
    NUL it is never the text itself.  A negative result of either call throws
    [io_error] with the [strerror] text for that number. *)
Theorem chip_name_name_drops_last_character (c : chip_name) (st : state) :
  (forall t,
     (forall size, P c size = snprintf t size) ->
     chip_name_name B P c st =
       (Ret match t with
            | EmptyString => EmptyString
            | String _ _ =>
                Str.substr 0 (String.length t - 1) t ++ String Ascii.zero ""
            end, st) /\
     (t <> "" -> Str.contains Ascii.zero t = false ->
      exists r, fst (chip_name_name B P c st) = Ret r /\
                String.length r = String.length t /\ r <> t)) /\
  ((fst (P c 0) < 0)%Z ->
   chip_name_name B P c st =
     (Throw {| kind := io_error; what := strerror B (fst (P c 0)) |}, st)) /\
  ((0 <= fst (P c 0))%Z ->
   (fst (P c (Z.to_nat (fst (P c 0)))) < 0)%Z ->
   chip_name_name B P c st =
     (Throw {| kind := io_error;
               what := strerror B (fst (P c (Z.to_nat (fst (P c 0))))) |}, st)).
Proof.
  split; [|split].
  - intros t HP.
    assert (Hrun : chip_name_name B P c st =
              (Ret match t with
                   | EmptyString => EmptyString
                   | String _ _ =>
                       Str.substr 0 (String.length t - 1) t
                       ++ String Ascii.zero ""
                   end, st)).
    { unfold chip_name_name. rewrite !HP. cbn [fst snd snprintf].
      destruct (Z.ltb_spec (Z.of_nat (String.length t)) 0) as [Hneg|_]; [lia|].
      rewrite Nat2Z.id.
      destruct t as [|a t]; [reflexivity|].
      cbn [String.length].
      replace (S (String.length t) - 1) with (String.length t) by lia.
      unfold mret, M_ret.
      rewrite store_same_length; [reflexivity|].
      rewrite length_app, substr_0_length by (simpl; lia).
      simpl. rewrite nul_string_length. lia. }
    split; [exact Hrun|].
    intros Hne Hnul. rewrite Hrun. cbn [fst].
    destruct t as [|a t]; [congruence|].
    eexists. split; [reflexivity|]. split.
    + rewrite length_app, substr_0_length by (simpl; lia). simpl. lia.
    + intros E. rewrite <- E in Hnul. rewrite contains_app_last in Hnul.
      discriminate.
  - intros Hneg. unfold chip_name_name.
    apply Z.ltb_lt in Hneg. rewrite Hneg. reflexivity.
  - intros Hpos Hneg. unfold chip_name_name.
    apply Z.ltb_ge in Hpos. rewrite Hpos.
    apply Z.ltb_lt in Hneg. cbv zeta. rewrite Hneg. reflexivity.
Qed.

End Names.

Lemma flag_test_bit flags i :
  (0 <= i)%Z -> flag_test flags (2 ^ i) = Z.testbit flags i.
Proof.
  intros Hi. unfold flag_test. destruct (Z.testbit flags i) eqn:E.
  - apply negb_true_iff, Z.eqb_neq. intros H.
    assert (T : Z.testbit (Z.land flags (2 ^ i)) i = true).
    { rewrite Z.land_spec, E, Z.pow2_bits_true by exact Hi. reflexivity. }
    rewrite H, Z.bits_0 in T. discriminate.
  - apply negb_false_iff, Z.eqb_eq. apply Z.bits_inj'. intros n Hn.
    rewrite Z.land_spec, Z.bits_0, Z.pow2_bits_eqb by exact Hi.
    destruct (Z.eqb_spec i n) as [->|]; [rewrite E|rewrite andb_false_r];
      reflexivity.
Qed.

(** X12: when the three mode constants are single bits, [readable()],
    [writable()] and [compute_mapping()] each return that bit of the
    flags word, so they do not depend on one another or on other bits:
    setting or clearing one constant in the flags changes the accessor
    for it and leaves the two others as they were. *)
Theorem mode_accessors_read_bits (F : mode_flags) (i j k : Z) (s : subfeature) :
  (0 <= i)%Z -> (0 <= j)%Z -> (0 <= k)%Z ->
  SENSORS_MODE_R F = (2 ^ i)%Z ->
  SENSORS_MODE_W F = (2 ^ j)%Z ->
  SENSORS_COMPUTE_MAPPING F = (2 ^ k)%Z ->
  let flags := sub_flags (subfeature_rec s) in
  subfeature_readable F s = Z.testbit flags i /\
  subfeature_writable F s = Z.testbit flags j /\
  subfeature_compute_mapping F s = Z.testbit flags k /\
  (i <> j ->
   forall s', sub_flags (subfeature_rec s') = Z.lor flags (SENSORS_MODE_W F) \/
              sub_flags (subfeature_rec s') = Z.ldiff flags (SENSORS_MODE_W F) ->
              subfeature_readable F s' = subfeature_readable F s) /\
  (forall s', sub_flags (subfeature_rec s') = Z.lor flags (SENSORS_MODE_W F) ->
              subfeature_writable F s' = true) /\
  (forall s', sub_flags (subfeature_rec s') = Z.ldiff flags (SENSORS_MODE_W F) ->
              subfeature_writable F s' = false).
Proof.
  intros Hi Hj Hk HR HW HM flags.
  unfold subfeature_readable, subfeature_writable, subfeature_compute_mapping.
  rewrite HR, HW, HM. fold flags.
  rewrite !flag_test_bit by assumption.
  split; [reflexivity|]. split; [reflexivity|]. split; [reflexivity|].
  split; [|split].
  - intros Hij s' [E|E]; rewrite E, flag_test_bit by exact Hi.
    + rewrite Z.lor_spec, Z.pow2_bits_false by lia. apply orb_false_r.
    + rewrite Z.ldiff_spec, Z.pow2_bits_false by lia. apply andb_true_r.
  - intros s' E. rewrite E, flag_test_bit by exact Hj.
    rewrite Z.lor_spec, Z.pow2_bits_true by exact Hj. apply orb_true_r.
  - intros s' E. rewrite E, flag_test_bit by exact Hj.
    rewrite Z.ldiff_spec, Z.pow2_bits_true by exact Hj. apply andb_false_r.
Qed.

Ltac run_heap :=
  cbv beta iota zeta delta
    [mbind W_bind mret W_ret lift run_destructor box chip_name_get feature_get
     sensors_impl_new make_shared throw]; cbn [fst snd m_impl].

Lemma release_sole {I} (destroy : I -> gmap loc (control_block I) -> _) l h i :
  h !! l = Some {| object := i; use_count := 1 |} ->
  shared_ptr_release destroy l h = delete l (destroy i h).
Proof. intros H. unfold shared_ptr_release. rewrite H. reflexivity. Qed.

Lemma chip_name_delete_fresh (h : gmap loc (control_block impl)) l c :
  h !! l = None ->
  chip_name_delete {| m_impl := l |} (<[l := sole (chip_impl c)]> h) = h.
Proof.
  intros H. unfold chip_name_delete. cbn [m_impl].
  rewrite (release_sole _ _ _ (chip_impl c)) by apply lookup_insert_eq.
  apply delete_insert_id, H.
Qed.

Lemma feature_delete_fresh (h : gmap loc (control_block impl)) l1 l2 c f :
  h !! l1 = None -> h !! l2 = None -> l1 <> l2 ->
  feature_delete {| m_impl := l2 |}
    (<[l2 := sole (feature_impl {| m_impl := l1 |} f)]>
       (<[l1 := sole (chip_impl c)]> h)) = h.
Proof.
  intros H1 H2 Hne. unfold feature_delete. cbn [m_impl].
  rewrite (release_sole _ _ _ (feature_impl {| m_impl := l1 |} f))
    by apply lookup_insert_eq.
  cbn [feature_impl_delete].
  rewrite insert_insert_ne by congruence.
  rewrite chip_name_delete_fresh
    by (rewrite lookup_insert_ne by congruence; exact H1).
  apply delete_insert_id, H2.
Qed.

Lemma subfeature_delete_fresh (h : gmap loc (control_block impl)) l1 l2 l3 c f s :
  h !! l1 = None -> h !! l2 = None -> h !! l3 = None ->
  l1 <> l2 -> l1 <> l3 -> l2 <> l3 ->
  subfeature_delete {| m_impl := l3 |}
    (<[l3 := sole (subfeature_impl {| m_impl := l2 |} s)]>
       (<[l2 := sole (feature_impl {| m_impl := l1 |} f)]>
          (<[l1 := sole (chip_impl c)]> h))) = h.
Proof.
  intros H1 H2 H3 N12 N13 N23. unfold subfeature_delete. cbn [m_impl].
  rewrite (release_sole _ _ _ (subfeature_impl {| m_impl := l2 |} s))
    by apply lookup_insert_eq.
  cbn [subfeature_impl_delete].
  rewrite (insert_insert_ne _ l3 l2) by congruence.
  rewrite (insert_insert_ne _ l3 l1) by congruence.
  rewrite feature_delete_fresh;
    [|rewrite lookup_insert_ne by congruence; assumption..|assumption].
  apply delete_insert_id, H3.
Qed.

Lemma fresh_None (h : gmap loc (control_block impl)) : h !! fresh (dom h) = None.
Proof. apply not_elem_of_dom, is_fresh. Qed.

Lemma fresh_insert_ne (h : gmap loc (control_block impl)) l x :
  fresh (dom (<[l := x]> h)) <> l.
Proof.
  intros E. pose proof (fresh_None (<[l := x]> h)) as H.
  rewrite E, lookup_insert_eq in H. discriminate.
Qed.

Lemma fresh_insert_None (h : gmap loc (control_block impl)) l x :
  h !! fresh (dom (<[l := x]> h)) = None.
Proof.
  pose proof (fresh_None (<[l := x]> h)) as H.
  rewrite lookup_insert_ne in H by (intros E; symmetry in E; revert E; apply fresh_insert_ne).
  exact H.
Qed.

Section Construction.
Variable B : boundary.

(** The constructors compute what the lookups compute, and allocate. *)
Lemma chip_name_new_run path st (h : gmap loc (control_block impl)) :
  chip_name_new B path (st, h) =
    match chip_name_find B path st with
    | (Ret c, st') =>
        (Ret {| m_impl := fresh (dom h) |},
         (st', <[fresh (dom h) := sole (chip_impl c)]> h))
    | (Throw e, st') => (Throw e, (st', h))
    | (Undefined, st') => (Undefined, (st', h))
    end.
Proof.
  unfold chip_name_new. run_heap.
  destruct (chip_name_find B path st) as [[c|e|] st']; reflexivity.
Qed.

Lemma feature_impl_find_run cp name st (h : gmap loc (control_block impl)) :
  feature_impl_find B cp name (st, h) =
    match feature_find B cp name st with
    | (Ret f, st') =>
        (Ret (feature_impl {| m_impl := fresh (dom h) |} (feature_rec f)),
         (st', <[fresh (dom h) := sole (chip_impl (m_chip f))]> h))
    | (Throw e, st') => (Throw e, (st', h))
    | (Undefined, st') => (Undefined, (st', h))
    end.
Proof.
  unfold feature_impl_find.
  unfold mbind at 1, W_bind at 1. rewrite chip_name_new_run.
  destruct (chip_name_find B cp st) as [[c|e|] st1] eqn:Hc.
  - rewrite (feature_find_run B _ _ _ _ _ Hc).
    run_heap. unfold sensors_impl_get. cbn [m_impl].
    rewrite lookup_insert_eq. cbn [fmap option_fmap option_map object sole].
    run. rewrite cursor_find_all.
    destruct (find _ _) as [feat|]; [reflexivity|].
    cbn [fst snd]. rewrite chip_name_delete_fresh by apply fresh_None. reflexivity.
  - rewrite (feature_find_throws B _ _ _ _ _ Hc). reflexivity.
  - unfold feature_find, mbind at 1, M_bind at 1. rewrite Hc. reflexivity.
Qed.

Lemma feature_impl_find_path_run path st (h : gmap loc (control_block impl)) :
  feature_impl_find_path B path (st, h) =
    match feature_find_path B path st with
    | (Ret f, st') =>
        (Ret (feature_impl {| m_impl := fresh (dom h) |} (feature_rec f)),
         (st', <[fresh (dom h) := sole (chip_impl (m_chip f))]> h))
    | (Throw e, st') => (Throw e, (st', h))
    | (Undefined, st') => (Undefined, (st', h))
    end.
Proof. apply feature_impl_find_run. Qed.

Lemma feature_new_run cp name st (h : gmap loc (control_block impl)) :
  feature_new B cp name (st, h) =
    match feature_find B cp name st with
    | (Ret f, st') => (Ret (fst (feature_blocks h f)), (st', snd (feature_blocks h f)))
    | (Throw e, st') => (Throw e, (st', h))
    | (Undefined, st') => (Undefined, (st', h))
    end.
Proof.
  unfold feature_new, mbind at 1, W_bind at 1. rewrite feature_impl_find_run.
  destruct (feature_find B cp name st) as [[f|e|] st1]; reflexivity.
Qed.

Lemma feature_new_path_run path st (h : gmap loc (control_block impl)) :
  feature_new_path B path (st, h) =
    match feature_find_path B path st with
    | (Ret f, st') => (Ret (fst (feature_blocks h f)), (st', snd (feature_blocks h f)))
    | (Throw e, st') => (Throw e, (st', h))
    | (Undefined, st') => (Undefined, (st', h))
    end.
Proof. apply feature_new_run. Qed.

Lemma subfeature_impl_find_run path st (h : gmap loc (control_block impl)) :
  subfeature_impl_find B path (st, h) =
    match subfeature_find B path st with
    | (Ret s, st') =>
        (Ret (subfeature_impl (fst (feature_blocks h (m_feature s)))
                (subfeature_rec s)),
         (st', snd (feature_blocks h (m_feature s))))
    | (Throw e, st') => (Throw e, (st', h))
    | (Undefined, st') => (Undefined, (st', h))
    end.
Proof.
  unfold subfeature_impl_find, subfeature_find.
  destruct (fs.has_filename path) eqn:Hf; cbn [negb]; [|reflexivity].
  unfold mbind at 1, W_bind at 1. rewrite feature_new_path_run.
  unfold mbind at 5, M_bind at 1.
  destruct (feature_find_path B path st) as [[f|e|] st1] eqn:Hc;
    [|reflexivity..].
  unfold feature_blocks. cbn [fst snd].
  set (l1 := fresh (dom h)).
  set (h1 := <[l1 := sole (chip_impl (m_chip f))]> h).
  set (l2 := fresh (dom h1)).
  assert (N21 : l2 <> l1) by apply fresh_insert_ne.
  run_heap. unfold sensors_impl_get. cbn [m_impl].
  rewrite lookup_insert_eq. cbn [fmap option_fmap option_map object sole].
  cbn [fst snd m_impl].
  rewrite lookup_insert_ne by exact N21. unfold h1 at 1.
  rewrite lookup_insert_eq. cbn [fmap option_fmap option_map object sole].
  run. rewrite cursor_find_all.
  destruct (find _ _) as [sub|]; [reflexivity|].
  cbn [fst snd]. unfold h1.
  rewrite feature_delete_fresh;
    [reflexivity|apply fresh_None|apply fresh_insert_None|congruence].
Qed.

Lemma subfeature_new_run path st (h : gmap loc (control_block impl)) :
  subfeature_new B path (st, h) =
    match subfeature_find B path st with
    | (Ret s, st') =>
        (Ret (fst (subfeature_blocks h s)), (st', snd (subfeature_blocks h s)))
    | (Throw e, st') => (Throw e, (st', h))
    | (Undefined, st') => (Undefined, (st', h))
    end.
Proof.
  unfold subfeature_new, mbind at 1, W_bind at 1.
  rewrite subfeature_impl_find_run.
  destruct (subfeature_find B path st) as [[s|e|] st1]; reflexivity.
Qed.

End Construction.

Section Ownership.
Variable B : boundary.
Implicit Types (e : _sensors_impl) (h : gmap loc (control_block impl)).

Lemma feature_blocks_fresh h f :
  let l1 := fresh (dom h) in
  let l2 := m_impl (fst (feature_blocks h f)) in
  h !! l1 = None /\ h !! l2 = None /\ l2 <> l1 /\
  snd (feature_blocks h f) =
    <[l2 := sole (feature_impl {| m_impl := l1 |} (feature_rec f))]>
      (<[l1 := sole (chip_impl (m_chip f))]> h).
Proof.
  cbn. split; [apply fresh_None|]. split; [apply fresh_insert_None|].
  split; [apply fresh_insert_ne|reflexivity].
Qed.

Lemma feature_blocks_view h f :
  feature_view (snd (feature_blocks h f)) (fst (feature_blocks h f)) = Some f.
Proof.
  destruct (feature_blocks_fresh h f) as (_ & _ & Hne & _).
  unfold feature_blocks, feature_view, chip_name_view, sensors_impl_get in *.
  cbn [fst snd m_impl] in *.
  rewrite lookup_insert_eq. cbn.
  rewrite lookup_insert_ne by exact Hne. rewrite lookup_insert_eq. cbn.
  destruct f; reflexivity.
Qed.

Lemma subfeature_blocks_fresh h s :
  let l1 := fresh (dom h) in
  let l2 := m_impl (fst (feature_blocks h (m_feature s))) in
  let l3 := m_impl (fst (subfeature_blocks h s)) in
  h !! l3 = None /\ l3 <> l1 /\ l3 <> l2 /\
  snd (subfeature_blocks h s) =
    <[l3 := sole (subfeature_impl {| m_impl := l2 |} (subfeature_rec s))]>
      (snd (feature_blocks h (m_feature s))).
Proof.
  cbn.
  set (l1 := fresh (dom h)).
  set (b1 := sole (chip_impl (m_chip (m_feature s)))).
  set (l2 := fresh (dom (<[l1 := b1]> h))).
  set (b2 := sole (feature_impl {| m_impl := l1 |} (feature_rec (m_feature s)))).
  pose proof (fresh_insert_None (<[l1 := b1]> h) l2 b2) as H3.
  pose proof (fresh_insert_ne (<[l1 := b1]> h) l2 b2) as N32.
  set (l3 := fresh (dom (<[l2 := b2]> (<[l1 := b1]> h)))) in *.
  assert (N31 : l3 <> l1).
  { intros E. rewrite E, lookup_insert_eq in H3. discriminate. }
  rewrite lookup_insert_ne in H3 by congruence.
  repeat split; assumption.
Qed.

Lemma subfeature_blocks_view h s :
  subfeature_view (snd (subfeature_blocks h s)) (fst (subfeature_blocks h s))
  = Some s.
Proof.
  destruct (subfeature_blocks_fresh h s) as (_ & N31 & N32 & Hh).
  destruct (feature_blocks_fresh h (m_feature s)) as (_ & _ & N21 & Hh2).
  pose proof (feature_blocks_view h (m_feature s)) as Hv.
  cbv zeta in *. rewrite Hh.
  set (l3 := m_impl (fst (subfeature_blocks h s))) in *.
  assert (E3 : fst (subfeature_blocks h s) = {| m_impl := l3 |}) by reflexivity.
  rewrite E3.
  set (h2 := snd (feature_blocks h (m_feature s))) in *.
  set (feat := fst (feature_blocks h (m_feature s))) in *.
  assert (Ef : feat = {| m_impl := m_impl feat |}) by reflexivity.
  unfold subfeature_view, sensors_impl_get. cbn [m_impl].
  rewrite lookup_insert_eq. cbn [fmap option_fmap option_map object sole].
  assert (Hf : feature_view (<[l3 := sole (subfeature_impl
                                {| m_impl := m_impl feat |}
                                (subfeature_rec s))]> h2)
                 {| m_impl := m_impl feat |} = Some (m_feature s)).
  { rewrite <- Hv. rewrite Ef at 3.
    unfold feature_view, chip_name_view, sensors_impl_get. cbn [m_impl].
    rewrite lookup_insert_ne by exact N32.
    destruct (h2 !! m_impl feat) as [[[?|chip ?|? ?] ?]|] eqn:E2; cbn;
      try reflexivity.
    assert (Nc : l3 <> m_impl chip).
    { rewrite Hh2 in E2. rewrite lookup_insert_eq in E2.
      inversion E2; subst. exact N31. }
    rewrite lookup_insert_ne by exact Nc. reflexivity. }
  rewrite Hf. destruct s; reflexivity.
Qed.

(** X13: constructing an entity from a path runs the lookup, with its
    effect on the global state, and boxes what the lookup found on the
    way: a chip in one new control block; a feature in two, its own
    holding the handle of its chip's; a subfeature in three, its own
    holding the handle of its feature's.  Each new block has one owner
    and lies at an address no handle used, every block that existed is
    unchanged, and the accessors read through the new handle exactly
    the entity the lookup returned.  When the lookup throws, the
    constructor throws the same error and the heap is as before: the
    parent that was built on the way has been destroyed again. *)
Theorem new_entity_reads_back (st : state) h :
  (forall path c st',
     chip_name_find B path st = (Ret c, st') ->
     exists e,
       let h' := <[m_impl e := sole (chip_impl c)]> h in
       chip_name_new B path (st, h) = (Ret e, (st', h')) /\
       h !! m_impl e = None /\
       chip_name_view h' e = Some c) /\
  (forall cp name f st',
     feature_find B cp name st = (Ret f, st') ->
     exists e chip,
       let h' := <[m_impl e := sole (feature_impl chip (feature_rec f))]>
                   (<[m_impl chip := sole (chip_impl (m_chip f))]> h) in
       feature_new B cp name (st, h) = (Ret e, (st', h')) /\
       h !! m_impl e = None /\ h !! m_impl chip = None /\
       m_impl e <> m_impl chip /\
       feature_view h' e = Some f /\
       chip_name_view h' chip = Some (m_chip f)) /\
  (forall path f st',
     feature_find_path B path st = (Ret f, st') ->
     exists e chip,
       let h' := <[m_impl e := sole (feature_impl chip (feature_rec f))]>
                   (<[m_impl chip := sole (chip_impl (m_chip f))]> h) in
       feature_new_path B path (st, h) = (Ret e, (st', h')) /\
       h !! m_impl e = None /\ h !! m_impl chip = None /\
       m_impl e <> m_impl chip /\
       feature_view h' e = Some f /\
       chip_name_view h' chip = Some (m_chip f)) /\
  (forall path s st',
     subfeature_find B path st = (Ret s, st') ->
     exists e feat chip,
       let f := m_feature s in
       let h' := <[m_impl e := sole (subfeature_impl feat (subfeature_rec s))]>
                   (<[m_impl feat := sole (feature_impl chip (feature_rec f))]>
                      (<[m_impl chip := sole (chip_impl (m_chip f))]> h)) in
       subfeature_new B path (st, h) = (Ret e, (st', h')) /\
       h !! m_impl e = None /\ h !! m_impl feat = None /\
       h !! m_impl chip = None /\
       m_impl e <> m_impl feat /\ m_impl e <> m_impl chip /\
       m_impl feat <> m_impl chip /\
       subfeature_view h' e = Some s /\
       feature_view h' feat = Some f /\
       chip_name_view h' chip = Some (m_chip f)) /\
  (forall path err st',
     (chip_name_find B path st = (Throw err, st') ->
      chip_name_new B path (st, h) = (Throw err, (st', h))) /\
     (feature_find_path B path st = (Throw err, st') ->
      feature_new_path B path (st, h) = (Throw err, (st', h))) /\
     (subfeature_find B path st = (Throw err, st') ->
      subfeature_new B path (st, h) = (Throw err, (st', h)))) /\
  (forall cp name err st',
     feature_find B cp name st = (Throw err, st') ->
     feature_new B cp name (st, h) = (Throw err, (st', h))).
Proof.
  assert (Hfeat : forall f,
            exists e chip,
              let h' := <[m_impl e := sole (feature_impl chip (feature_rec f))]>
                          (<[m_impl chip := sole (chip_impl (m_chip f))]> h) in
              feature_blocks h f = (e, h') /\
              h !! m_impl e = None /\ h !! m_impl chip = None /\
              m_impl e <> m_impl chip /\
              feature_view h' e = Some f /\
              chip_name_view h' chip = Some (m_chip f)).
  { intros f. destruct (feature_blocks_fresh h f) as (H1 & H2 & N21 & Hh).
    pose proof (feature_blocks_view h f) as Hv. cbv zeta in *.
    exists (fst (feature_blocks h f)), {| m_impl := fresh (dom h) |}.
    cbn [m_impl]. rewrite <- Hh.
    split; [destruct (feature_blocks h f); reflexivity|].
    split; [exact H2|]. split; [exact H1|]. split; [exact N21|].
    split; [exact Hv|].
    rewrite Hh. unfold chip_name_view, sensors_impl_get. cbn [m_impl].
    rewrite lookup_insert_ne by exact N21. rewrite lookup_insert_eq.
    reflexivity. }
  split; [|split; [|split; [|split; [|split]]]].
  - intros path c st' H. exists {| m_impl := fresh (dom h) |}. cbn [m_impl].
    rewrite chip_name_new_run, H.
    split; [reflexivity|]. split; [apply fresh_None|].
    unfold chip_name_view, sensors_impl_get. cbn [m_impl].
    rewrite lookup_insert_eq. reflexivity.
  - intros cp name f st' H.
    destruct (Hfeat f) as (e & chip & Hb & Hrest).
    exists e, chip. cbv zeta in *. rewrite feature_new_run, H, Hb.
    split; [reflexivity|exact Hrest].
  - intros path f st' H.
    destruct (Hfeat f) as (e & chip & Hb & Hrest).
    exists e, chip. cbv zeta in *. rewrite feature_new_path_run, H, Hb.
    split; [reflexivity|exact Hrest].
  - intros path s st' H.
    destruct (subfeature_blocks_fresh h s) as (H3 & N31 & N32 & Hh).
    destruct (feature_blocks_fresh h (m_feature s)) as (H1 & H2 & N21 & Hh2).
    pose proof (subfeature_blocks_view h s) as Hv.
    pose proof (feature_blocks_view h (m_feature s)) as Hvf.
    cbv zeta in *.
    exists (fst (subfeature_blocks h s)),
      (fst (feature_blocks h (m_feature s))), {| m_impl := fresh (dom h) |}.
    cbn [m_impl]. rewrite <- Hh2.
    set (feat := fst (feature_blocks h (m_feature s))) in *.
    assert (Ef : {| m_impl := m_impl feat |} = feat) by reflexivity.
    rewrite Ef in Hh. rewrite <- Hh.
    rewrite subfeature_new_run, H.
    split; [destruct (subfeature_blocks h s); reflexivity|].
    split; [exact H3|]. split; [exact H2|]. split; [exact H1|].
    split; [exact N32|]. split; [exact N31|]. split; [exact N21|].
    split; [exact Hv|].
    assert (Hl : forall l, l <> m_impl (fst (subfeature_blocks h s)) ->
              snd (subfeature_blocks h s) !! l =
              snd (feature_blocks h (m_feature s)) !! l).
    { intros l Hl. rewrite Hh. apply lookup_insert_ne. congruence. }
    split.
    + rewrite <- Hvf. unfold feature_view, chip_name_view, sensors_impl_get.
      rewrite Hl by (fold feat; congruence).
      destruct (snd (feature_blocks h (m_feature s)) !! m_impl feat)
        as [[[?|chip ?|? ?] ?]|] eqn:E2; cbn; try reflexivity.
      rewrite Hl; [reflexivity|].
      rewrite Hh2, lookup_insert_eq in E2. inversion E2; subst.
      cbn [m_impl]. congruence.
    + unfold chip_name_view, sensors_impl_get. cbn [m_impl].
      rewrite Hl by congruence. rewrite Hh2.
      rewrite lookup_insert_ne by exact N21. rewrite lookup_insert_eq.
      reflexivity.
  - intros path err st'. split; [|split]; intros H.
    + rewrite chip_name_new_run, H. reflexivity.
    + rewrite feature_new_path_run, H. reflexivity.
    + rewrite subfeature_new_run, H. reflexivity.
  - intros cp name err st' H. rewrite feature_new_run, H. reflexivity.
Qed.

Lemma release_after_copy {I}
  (destroy : I -> gmap loc (control_block I) -> gmap loc (control_block I))
  (e : _sensors_impl) (h : gmap loc (control_block I)) cb :
  h !! m_impl e = Some cb -> 0 < use_count cb ->
  shared_ptr_release destroy (m_impl e) (snd (sensors_impl_copy e h)) = h.
Proof.
  intros Hcb Hpos. unfold shared_ptr_release.
  rewrite copy_lookup, decide_True, Hcb by reflexivity. cbn.
  destruct (use_count cb) as [|n] eqn:En; [lia|]. cbn.
  apply map_eq. intros l. destruct (decide (l = m_impl e)) as [->|Hne].
  - rewrite lookup_insert_eq, Hcb. destruct cb as [o u]. cbn in *. subst.
    reflexivity.
  - rewrite lookup_insert_ne by congruence.
    unfold sensors_impl_copy, shared_ptr_copy. cbn.
    apply lookup_alter_ne. congruence.
Qed.

(** A feature reads the same on a heap that differs at an address it
    does not use. *)
Lemma feature_view_frame (hx hy : gmap loc (control_block impl)) x l3 f :
  (forall l, l <> l3 -> hy !! l = hx !! l) ->
  hx !! l3 = None ->
  feature_view hx x = Some f ->
  feature_view hy x = Some f.
Proof.
  intros Hsame Hx Hv.
  unfold feature_view, chip_name_view, sensors_impl_get in *.
  assert (Nx : m_impl x <> l3).
  { intros E. rewrite E, Hx in Hv. discriminate. }
  rewrite Hsame by exact Nx.
  destruct (hx !! m_impl x) as [[[?|chip ?|? ?] ?]|]; cbn in *;
    try discriminate.
  assert (Nc : m_impl chip <> l3).
  { intros E. rewrite E, Hx in Hv. discriminate. }
  rewrite Hsame by exact Nc. exact Hv.
Qed.

(** Destroying the only owner of a subfeature destroys its block and
    releases the handle of its feature. *)
Lemma subfeature_delete_sole (hx : gmap loc (control_block impl)) l3 lf sr :
  hx !! l3 = None -> l3 <> lf ->
  subfeature_delete {| m_impl := l3 |}
    (<[l3 := sole (subfeature_impl {| m_impl := lf |} sr)]> hx) =
  feature_delete {| m_impl := lf |} hx.
Proof.
  intros Hx N32. unfold subfeature_delete. cbn [m_impl].
  rewrite (release_sole _ _ _ (subfeature_impl {| m_impl := lf |} sr))
    by apply lookup_insert_eq.
  cbn [subfeature_impl_delete].
  unfold feature_delete, shared_ptr_release. cbn [m_impl].
  rewrite lookup_insert_ne by exact N32.
  destruct (hx !! lf) as [cbf|] eqn:Ecb.
  - destruct (Nat.leb (use_count cbf) 1).
    + rewrite delete_delete. f_equal.
      destruct (object cbf) as [?|chip ?|? ?]; cbn [feature_impl_delete];
        try (apply delete_insert_id, Hx).
      unfold chip_name_delete, shared_ptr_release.
      destruct (decide (m_impl chip = l3)) as [El|Nl].
      * rewrite El, lookup_insert_eq, Hx.
        cbn [sole use_count object Nat.leb].
        rewrite delete_insert_id by exact Hx. apply delete_id, Hx.
      * rewrite lookup_insert_ne by congruence.
        destruct (hx !! m_impl chip) as [cbc|] eqn:Ecc.
        -- destruct (Nat.leb (use_count cbc) 1).
           ++ rewrite delete_delete. rewrite delete_insert_id by exact Hx.
              reflexivity.
           ++ rewrite insert_insert_ne by congruence.
              apply delete_insert_id.
              rewrite lookup_insert_ne by congruence. exact Hx.
        -- apply delete_insert_id, Hx.
    + rewrite insert_insert_ne by congruence.
      apply delete_insert_id. rewrite lookup_insert_ne by congruence.
      exact Hx.
  - apply delete_insert_id, Hx.
Qed.

(** Destroying a subfeature that is the only owner of its three
    blocks, with and without a copy of its parent feature. *)
Lemma subfeature_owned (h : gmap loc (control_block impl)) l1 l2 l3 c fr sr
  (st' : state) :
  h !! l1 = None -> h !! l2 = None -> h !! l3 = None ->
  l2 <> l1 -> l3 <> l1 -> l3 <> l2 ->
  let f := {| m_chip := c; feature_rec := fr |} in
  let feat := {| m_impl := l2 |} in
  let e1 := {| m_impl := l3 |} in
  let h2 := <[l2 := sole (feature_impl {| m_impl := l1 |} fr)]>
              (<[l1 := sole (chip_impl c)]> h) in
  let hs := <[l3 := sole (subfeature_impl feat sr)]> h2 in
  subfeature_delete e1 hs = h /\
  sensors_impl_get e1 hs = Some (subfeature_impl feat sr) /\
  feature_view hs feat = Some f /\
  let feat' := fst (entity_copy feat (st', hs)) in
  let hd := subfeature_delete e1 (snd (snd (entity_copy feat (st', hs)))) in
  feature_view hd feat' = Some f /\
  hd !! m_impl e1 = None /\
  feature_delete feat' hd = h.
Proof.
  intros H1 H2 H3 N21 N31 N32 f feat e1 h2 hs. subst f feat e1.
  assert (H23 : h2 !! l3 = None).
  { unfold h2. rewrite !lookup_insert_ne by congruence. exact H3. }
  assert (Hvf : feature_view h2 {| m_impl := l2 |} =
                Some {| m_chip := c; feature_rec := fr |}).
  { unfold feature_view, chip_name_view, sensors_impl_get, h2.
    cbn [m_impl]. rewrite lookup_insert_eq. cbn.
    rewrite lookup_insert_ne by congruence. rewrite lookup_insert_eq.
    reflexivity. }
  assert (Hfd : feature_delete {| m_impl := l2 |} h2 = h).
  { apply feature_delete_fresh; [exact H1|exact H2|congruence]. }
  split.
  { unfold hs. rewrite subfeature_delete_sole by assumption. exact Hfd. }
  split.
  { unfold sensors_impl_get, hs. cbn [m_impl].
    rewrite lookup_insert_eq. reflexivity. }
  split.
  { apply (feature_view_frame h2 hs _ l3); [|exact H23|exact Hvf].
    intros l Hl. apply lookup_insert_ne. congruence. }
  unfold entity_copy, sensors_impl_copy, shared_ptr_copy. cbn [fst snd m_impl].
  set (bump := fun cb0 : control_block impl =>
                 {| object := object cb0; use_count := S (use_count cb0) |}).
  assert (Hswap : alter bump l2 hs =
                  <[l3 := sole (subfeature_impl {| m_impl := l2 |} sr)]>
                    (alter bump l2 h2)).
  { apply map_eq. intros l. unfold hs.
    destruct (decide (l = l2)) as [->|Nf].
    - rewrite lookup_alter_eq, !lookup_insert_ne by congruence.
      rewrite lookup_alter_eq. reflexivity.
    - rewrite lookup_alter_ne by congruence.
      destruct (decide (l = l3)) as [->|N3].
      + rewrite !lookup_insert_eq. reflexivity.
      + rewrite !lookup_insert_ne by congruence.
        rewrite lookup_alter_ne by congruence. reflexivity. }
  rewrite Hswap.
  assert (Ha3 : alter bump l2 h2 !! l3 = None).
  { rewrite lookup_alter_ne by congruence. exact H23. }
  rewrite (subfeature_delete_sole _ _ _ _ Ha3 N32).
  assert (Hrel : feature_delete {| m_impl := l2 |} (alter bump l2 h2) = h2).
  { assert (Hcbf : h2 !! m_impl {| m_impl := l2 |} =
                   Some (sole (feature_impl {| m_impl := l1 |} fr)))
      by apply lookup_insert_eq.
    pose proof (release_after_copy feature_impl_delete _ h2 _ Hcbf) as R.
    unfold sensors_impl_copy, shared_ptr_copy in R. cbn [fst snd m_impl] in R.
    apply R. cbn. lia. }
  rewrite Hrel.
  split; [exact Hvf|]. split; [exact H23|exact Hfd].
Qed.

(** X14: a copy and its original own one control block between them:
    destroying either of the two gives back the heap as it was before
    copying, whatever the class, so the other still reads the same
    [impl].  An entity built from a path and destroyed again leaves the
    heap as it was before: destroying a feature also destroys the chip
    handle its [impl] owns, and destroying a subfeature the feature
    handle and through it the chip handle.  A copy taken of a
    subfeature's parent feature keeps the feature and its chip alive
    when the subfeature is destroyed, and destroying that copy as well
    leaves nothing behind.  None of this touches the global state. *)
Theorem copies_keep_the_impl_alive (st : state) h e (cb : control_block impl) :
  h !! m_impl e = Some cb ->
  0 < use_count cb ->
  let e' := fst (entity_copy e (st, h)) in
  let h1 := snd (snd (entity_copy e (st, h))) in
  fst (snd (entity_copy e (st, h))) = st /\
  (chip_name_delete e' h1 = h /\ feature_delete e' h1 = h /\
   subfeature_delete e' h1 = h) /\
  (chip_name_delete e h1 = h /\ feature_delete e h1 = h /\
   subfeature_delete e h1 = h) /\
  sensors_impl_get e' (chip_name_delete e h1) = Some (object cb) /\
  (forall path e1 w1,
     chip_name_new B path (st, h) = (Ret e1, w1) ->
     chip_name_delete e1 (snd w1) = h) /\
  (forall path e1 w1,
     feature_new_path B path (st, h) = (Ret e1, w1) ->
     feature_delete e1 (snd w1) = h) /\
  (forall cp name e1 w1,
     feature_new B cp name (st, h) = (Ret e1, w1) ->
     feature_delete e1 (snd w1) = h) /\
  (forall path e1 w1,
     subfeature_new B path (st, h) = (Ret e1, w1) ->
     subfeature_delete e1 (snd w1) = h /\
     exists feat sr f,
       sensors_impl_get e1 (snd w1) = Some (subfeature_impl feat sr) /\
       feature_view (snd w1) feat = Some f /\
       let feat' := fst (entity_copy feat w1) in
       let h2 := subfeature_delete e1 (snd (snd (entity_copy feat w1))) in
       feature_view h2 feat' = Some f /\
       h2 !! m_impl e1 = None /\
       feature_delete feat' h2 = h).
Proof.
  intros Hcb Hpos e' h1. subst e' h1. unfold entity_copy. cbn [fst snd].
  destruct (sensors_impl_copy e h) as [e1 h1] eqn:Ec.
  assert (He1 : e1 = e).
  { unfold sensors_impl_copy, shared_ptr_copy in Ec. inversion Ec.
    destruct e; reflexivity. }
  assert (Hh1 : h1 = snd (sensors_impl_copy e h)) by (rewrite Ec; reflexivity).
  cbn [fst snd]. subst e1.
  assert (Hback : forall destroy, shared_ptr_release destroy (m_impl e) h1 = h).
  { intros destroy. rewrite Hh1. apply (release_after_copy _ e h cb Hcb Hpos). }
  split; [reflexivity|].
  split; [repeat split; apply Hback|].
  split; [repeat split; apply Hback|].
  split.
  { unfold chip_name_delete. rewrite Hback. unfold sensors_impl_get.
    rewrite Hcb. reflexivity. }
  split.
  { intros path e1 w1 H. rewrite chip_name_new_run in H.
    destruct (chip_name_find B path st) as [[c|err|] st']; inversion H.
    apply chip_name_delete_fresh, fresh_None. }
  assert (Hfd : forall f, feature_delete (fst (feature_blocks h f))
                            (snd (feature_blocks h f)) = h).
  { intros f. apply feature_delete_fresh;
      [apply fresh_None|apply fresh_insert_None|].
    intros E. symmetry in E. revert E. apply fresh_insert_ne. }
  split.
  { intros path e1 w1 H. rewrite feature_new_path_run in H.
    destruct (feature_find_path B path st) as [[f|err|] st']; inversion H.
    apply Hfd. }
  split.
  { intros cp name e1 w1 H. rewrite feature_new_run in H.
    destruct (feature_find B cp name st) as [[f|err|] st']; inversion H.
    apply Hfd. }
  intros path e1 w1 H. rewrite subfeature_new_run in H.
  destruct (subfeature_find B path st) as [[s|err|] st']; [|discriminate..].
  injection H as <- <-.
  destruct (subfeature_blocks_fresh h s) as (H3 & N31 & N32 & _).
  destruct (feature_blocks_fresh h (m_feature s)) as (H1 & H2 & N21 & _).
  destruct (subfeature_owned h _ _ _ (m_chip (m_feature s))
              (feature_rec (m_feature s)) (subfeature_rec s) st'
              H1 H2 H3 N21 N31 N32)
    as (Hdel & Hget & Hview & Hcopy).
  split; [exact Hdel|].
  eexists _, _, _. split; [exact Hget|].
  split; [exact Hview|exact Hcopy].
Qed.

End Ownership.

(** ** The further properties on the sample systems *)

Lemma lookups_keep_library_witness :
  let path := "/sys/class/hwmon/hwmon1/temp1_max" in
  let st' := snd (subfeature_find Sample.sysfs path Sample.running) in
  handle Sample.running = Holds (Some {| m_path := ""; m_config := None |}) /\
  only_enumerated Sample.running st' /\
  fst (subfeature_find Sample.sysfs path st') =
    fst (subfeature_find Sample.sysfs path Sample.running).
Proof.
  intros path st'. split; [reflexivity|].
  destruct (lookups_keep_library Sample.sysfs path Sample.running
              (Some {| m_path := ""; m_config := None |})
              (fst (subfeature_find Sample.sysfs path Sample.running)) st'
              eq_refl (surjective_pairing _)) as (Hk & Hr & _).
  split; [exact Hk|exact Hr].
Defined.

Lemma subfeature_find_sound_witness :
  let path := "/sys/class/hwmon/hwmon1/temp1_max" in
  let s := {| m_feature := {| m_chip := Sample.coretemp;
                              feature_rec := Sample.temp1 |};
              subfeature_rec := Sample.temp1_max |} in
  let st' := snd (subfeature_find Sample.sysfs path initial_state) in
  subfeature_find Sample.sysfs path initial_state = (Ret s, st') /\
  subfeature_name s = "temp1_max" /\
  feat_name (feature_rec (m_feature s)) = "temp1" /\
  exists chips st1,
    get_detected_chips Sample.sysfs st' = (Ret chips, st1) /\
    In Sample.coretemp chips.
Proof.
  intros path s st'.
  assert (H : subfeature_find Sample.sysfs path initial_state = (Ret s, st'))
    by reflexivity.
  split; [exact H|].
  destruct (subfeature_find_sound Sample.sysfs path initial_state st' s H)
    as (_ & Hn & Hf & _ & chips & feats & subs & st1 & st2 & st3 & Hc & Ic & _).
  split; [exact Hn|]. split; [exact Hf|]. exists chips, st1. auto.
Defined.

Lemma detected_chip_resolves_witness :
  let st' := snd (get_detected_chips Sample.sysfs initial_state) in
  get_detected_chips Sample.sysfs initial_state =
    (Ret [Sample.acpitz; Sample.coretemp], st') /\
  fst (chip_name_find Sample.sysfs (chip_path Sample.coretemp) st') =
    Ret Sample.coretemp.
Proof.
  intros st'.
  assert (H : get_detected_chips Sample.sysfs initial_state =
              (Ret [Sample.acpitz; Sample.coretemp], st')) by reflexivity.
  split; [exact H|].
  destruct (detected_chip_resolves Sample.sysfs initial_state st' _
              Sample.coretemp H (or_intror (or_introl eq_refl)))
    as (c' & st'' & Hfind & _ & _ & Huniq).
  rewrite Hfind. cbn [fst]. f_equal. apply Huniq.
  intros x [<-|[<-|[]]] Hx; [vm_compute in Hx; discriminate Hx|reflexivity].
Defined.

Lemma enumerated_feature_resolves_witness :
  let f := {| m_chip := Sample.coretemp; feature_rec := Sample.temp2 |} in
  let st1 := snd (chip_name_features Sample.sysfs Sample.coretemp Sample.running) in
  In f (map (fun feat => {| m_chip := Sample.coretemp; feature_rec := feat |})
          [Sample.temp1; Sample.temp2]) /\
  fst (feature_find Sample.sysfs "/sys/class/hwmon/hwmon1" "temp2" st1) = Ret f.
Proof.
  intros f st1.
  assert (Hin : In f (map (fun feat => {| m_chip := Sample.coretemp;
                                          feature_rec := feat |})
                        [Sample.temp1; Sample.temp2]))
    by (right; left; reflexivity).
  split; [exact Hin|].
  destruct (enumerated_feature_resolves Sample.sysfs Sample.running st1
              (Some {| m_path := ""; m_config := None |}) Sample.coretemp
              _ f eq_refl eq_refl eq_refl Hin)
    as (_ & f' & st2 & Hfind & _ & _ & Huniq).
  change (chip_path Sample.coretemp) with "/sys/class/hwmon/hwmon1" in Hfind.
  change (feat_name (feature_rec f)) with "temp2" in Hfind.
  rewrite Hfind. cbn [fst]. f_equal. apply Huniq.
  intros x [<-|[<-|[]]] Hx; [vm_compute in Hx; discriminate Hx|reflexivity].
Defined.



Lemma load_config_takes_effect_witness :
  let st1 := snd (load_config Sample.sysfs "/etc/sensors3.conf" Sample.running) in
  load_config Sample.sysfs "/etc/sensors3.conf" Sample.running = (Ret tt, st1) /\
  handle st1 = Holds (Some {| m_path := "/etc/sensors3.conf";
                              m_config := Some "/etc/sensors3.conf" |}) /\
  load_config Sample.sysfs "/etc/sensors3.conf" st1 = (Ret tt, st1) /\
  fst (get_detected_chips Sample.sysfs st1) =
    Ret [Sample.acpitz; Sample.coretemp].
Proof.
  intros st1.
  assert (H : load_config Sample.sysfs "/etc/sensors3.conf" Sample.running =
              (Ret tt, st1)) by reflexivity.
  split; [exact H|].
  destruct (load_config_takes_effect Sample.sysfs "/etc/sensors3.conf"
              Sample.running st1 (conj eq_refl eq_refl) H)
    as (Hh & _ & Hagain & Hchips).
  split; [exact Hh|]. split; [exact Hagain|exact Hchips].
Defined.

Lemma reconfiguration_streams_witness :
  let st' := snd (load_config Sample.sysfs "/etc/broken.conf" Sample.running) in
  open_streams Sample.sysfs (calls Sample.running) = owned_streams Sample.running /\
  handle st' = Holds None /\
  open_streams Sample.sysfs (calls st') = ["/etc/broken.conf"] /\
  owned_streams st' = [].
Proof.
  intros st'.
  assert (Hbal : open_streams Sample.sysfs (calls Sample.running) =
                 owned_streams Sample.running) by reflexivity.
  split; [exact Hbal|].
  destruct (reconfiguration_streams Sample.sysfs "/etc/broken.conf"
              Sample.running {| m_path := ""; m_config := None |}
              eq_refl Hbal ltac:(discriminate))
    as (_ & _ & Hthrow & Hleak).
  destruct (Hleak "/etc/broken.conf" eq_refl ltac:(discriminate))
    as (Hnull & Hopen & _).
  split; [exact Hnull|]. split; [exact Hopen|].
  apply (Hthrow {| kind := init_error; what := "General parse error" |}).
  reflexivity.
Defined.

Lemma chip_name_name_drops_last_character_witness :
  chip_name_name Sample.sysfs Board.printer Sample.coretemp Sample.running =
    (Ret ("coretemp-isa-000" ++ String Ascii.zero ""), Sample.running) /\
  fst (chip_name_name Sample.sysfs Board.printer
         {| chip_prefix := "*"; chip_bus := {| bus_type_code := 1; bus_nr := 0 |};
            chip_addr := 0; chip_path := "" |} Sample.running) =
    Throw {| kind := io_error; what := "Unknown error" |}.
Proof.
  split.
  - destruct (chip_name_name_drops_last_character Sample.sysfs Board.printer
                Sample.coretemp Sample.running) as (Htext & _).
    destruct (Htext "coretemp-isa-0000" (fun size => eq_refl)) as (Hrun & _).
    exact Hrun.
  - destruct (chip_name_name_drops_last_character Sample.sysfs Board.printer
                {| chip_prefix := "*";
                   chip_bus := {| bus_type_code := 1; bus_nr := 0 |};
                   chip_addr := 0; chip_path := "" |} Sample.running)
      as (_ & Hneg & _).
    rewrite Hneg by reflexivity. reflexivity.
Defined.

Lemma mode_accessors_read_bits_witness :
  let s := {| m_feature := {| m_chip := Board.it8712;
                              feature_rec := Board.beep_enable |};
              subfeature_rec := Board.beep_enable_sub |} in
  subfeature_readable Board.modes s = true /\
  subfeature_writable Board.modes s = true /\
  subfeature_compute_mapping Board.modes s = false.
Proof.
  intros s.
  destruct (mode_accessors_read_bits Board.modes 0 1 2 s)
    as (Hr & Hw & Hm & _); try reflexivity; try discriminate.
  rewrite Hr, Hw, Hm. repeat split.
Defined.

Lemma new_entity_reads_back_witness :
  let path := "/sys/class/hwmon/hwmon1/temp1_input" in
  let f := {| m_chip := Sample.coretemp; feature_rec := Sample.temp1 |} in
  let s := {| m_feature := f; subfeature_rec := Sample.temp1_input |} in
  let st' := snd (subfeature_find Sample.sysfs path Sample.running) in
  (exists e feat chip h',
     subfeature_new Sample.sysfs path (Sample.running, ∅) =
       (Ret e, (st', h')) /\
     h' = <[m_impl e := sole (subfeature_impl feat Sample.temp1_input)]>
            (<[m_impl feat := sole (feature_impl chip Sample.temp1)]>
               (<[m_impl chip := sole (chip_impl Sample.coretemp)]> ∅)) /\
     m_impl e <> m_impl feat /\ m_impl e <> m_impl chip /\
     m_impl feat <> m_impl chip /\
     subfeature_view h' e = Some s /\
     feature_view h' feat = Some f /\
     chip_name_view h' chip = Some Sample.coretemp) /\
  subfeature_new Sample.sysfs "/sys/class/hwmon/hwmon1/temp1_crit_alarm"
    (Sample.running, ∅) =
    (Throw {| kind := parse_error;
              what := "Feature temp1_crit not found on chip coretemp" |},
     (snd (subfeature_find Sample.sysfs
             "/sys/class/hwmon/hwmon1/temp1_crit_alarm" Sample.running), ∅)).
Proof.
  intros path f s st'.
  destruct (new_entity_reads_back Sample.sysfs Sample.running
              (∅ : gmap loc (control_block impl)))
    as (_ & _ & _ & Hsub & Hthrow & _).
  split.
  - destruct (Hsub path s st' eq_refl)
      as (e & feat & chip & Hrun & _ & _ & _ & N1 & N2 & N3 & V1 & V2 & V3).
    exists e, feat, chip. eexists. split; [exact Hrun|].
    split; [reflexivity|].
    repeat (split; [assumption|]). assumption.
  - apply (Hthrow "/sys/class/hwmon/hwmon1/temp1_crit_alarm"). reflexivity.
Defined.

Lemma copies_keep_the_impl_alive_witness :
  let h : gmap loc (control_block impl) :=
    {[ 1%positive := sole (chip_impl Sample.coretemp) ]} in
  let e := {| m_impl := 1%positive |} in
  let e' := fst (entity_copy e (Sample.running, h)) in
  let h1 := snd (snd (entity_copy e (Sample.running, h))) in
  chip_name_delete e' h1 = h /\
  sensors_impl_get e' (chip_name_delete e h1) =
    Some (chip_impl Sample.coretemp) /\
  exists e1 w1,
    subfeature_new Sample.sysfs "/sys/class/hwmon/hwmon1/temp1_input"
      (Sample.running, h) = (Ret e1, w1) /\
    subfeature_delete e1 (snd w1) = h.
Proof.
  intros h e e' h1.
  destruct (copies_keep_the_impl_alive Sample.sysfs Sample.running h e
              (sole (chip_impl Sample.coretemp)))
    as (_ & (Hback & _) & _ & Halive & _ & _ & _ & Hsub).
  - apply lookup_singleton_eq.
  - cbn. lia.
  - split; [exact Hback|]. split; [exact Halive|].
    assert (E : subfeature_new Sample.sysfs
                  "/sys/class/hwmon/hwmon1/temp1_input" (Sample.running, h) =
                (Ret (fst (subfeature_blocks h
                             {| m_feature := {| m_chip := Sample.coretemp;
                                                feature_rec := Sample.temp1 |};
                                subfeature_rec := Sample.temp1_input |})),
                 (snd (subfeature_find Sample.sysfs
                         "/sys/class/hwmon/hwmon1/temp1_input" Sample.running),
                  snd (subfeature_blocks h
                         {| m_feature := {| m_chip := Sample.coretemp;
                                            feature_rec := Sample.temp1 |};
                            subfeature_rec := Sample.temp1_input |}))))
      by (rewrite subfeature_new_run; reflexivity).
    eexists _, _. split; [exact E|]. apply (Hsub _ _ _ E).
Defined.

Lemma failed_reconfiguration_disables_library_witness :
  let st' := snd (load_config Sample.sysfs "/etc/missing.conf" Sample.running) in
  fst (get_detected_chips Sample.sysfs st') = Ret [] /\
  fst (chip_name_find Sample.sysfs "/sys/class/hwmon/hwmon1" st') =
    Throw {| kind := parse_error;
             what := "No chip found at /sys/class/hwmon/hwmon1" |} /\
  fst (subfeature_find Sample.sysfs "/sys/class/hwmon/hwmon1/temp1_input" st') =
    Throw {| kind := parse_error;
             what := "No chip found at /sys/class/hwmon/hwmon1" |} /\
  fst (subfeature_find Sample.sysfs "/sys/class/hwmon/hwmon1/" st') =
    Throw {| kind := parse_error;
             what := "Path does not contain filename: /sys/class/hwmon/hwmon1/" |} /\
  load_config Sample.sysfs "" st' = (Undefined, st').
Proof.
  intros st'.
  destruct (failed_reconfiguration_disables_library Sample.sysfs
              "/etc/missing.conf" Sample.running
              {| m_path := ""; m_config := None |} eq_refl
              ltac:(discriminate) ltac:(discriminate))
    as (Hempty & Hchip & _ & _ & Hsub & Hload).
  split; [exact Hempty|]. split; [apply Hchip|].
  split; [apply (Hsub "/sys/class/hwmon/hwmon1/temp1_input")|].
  split; [apply (Hsub "/sys/class/hwmon/hwmon1/")|apply Hload].
Defined.

(** A system on which the default configuration does not parse. *)
Lemma failed_first_use_is_retried_witness :
  let broken :=
    {| fopen_errno := fopen_errno Sample.sysfs;
       strerror := strerror Sample.sysfs;
       sensors_strerror := sensors_strerror Sample.sysfs;
       init_result := fun _ => (-8)%Z;
       proc_chips := proc_chips Sample.sysfs;
       chip_features := chip_features Sample.sysfs;
       chip_subfeatures := chip_subfeatures Sample.sysfs |} in
  fst (get_detected_chips broken initial_state) =
    Throw {| kind := init_error; what := "General parse error" |} /\
  calls (snd (chip_name_find broken "/sys/class/hwmon/hwmon0"
                (snd (get_detected_chips broken initial_state)))) =
    [Call_fopen ""; Call_sensors_init None;
     Call_fopen ""; Call_sensors_init None].
Proof.
  intros broken.
  destruct (failed_first_use_is_retried broken "/sys/class/hwmon/hwmon0"
              initial_state eq_refl ltac:(discriminate))
    as (Hdet & _ & _ & _ & Hagain & _).
  rewrite Hdet. split; [reflexivity|]. exact Hagain.
Defined.
